(** * dscribe descriptors: MBTR, SortedCoulombMatrix, SortedSineMatrix

    A shallow embedding of [describe/descriptors/mbtr.py],
    [describe/descriptors/sortedcoulombmatrix.py] and
    [describe/descriptors/sortedsinematrix.py], and the properties of the
    design document that are stated about them.

    Conventions of the embedding.
    - Python floats and NumPy float arrays are read as real numbers ([R]) and
      lists of them; rounding, overflow and nan are outside the model.
    - Python ints are [Z]; lengths and array sizes are [nat].
    - Python dicts are stdpp [gmap]s; a key that may be present with the value
      [None] has an [option] as value.
    - Exceptions are values of [exn]; code that may raise returns [res A].
    - Collaborators that live outside the three files (scipy's [erf], NumPy's
      [argsort], the structure container [System], the C++ wrapper
      [CMBTRWrapper], the iteration order of Python sets) are section
      variables. *)

From Stdlib Require Import Reals Lra Lia ZArith QArith Qround List.
From stdpp Require Import gmap strings sorting.
Import ListNotations.

(** ** Exceptions and the error monad *)

Inductive exn : Type :=
| ValueError_k_is_int          (* "Please provide the k values ... as a list or set." *)
| ValueError_k_not_a_set       (* "Could not make the given value of k into a set." *)
| ValueError_k_invalid         (* "... has at least one invalid k value" *)
| ValueError_unknown_weighting (* "Unknown weighting function specified." *)
| ValueError_missing_weighting_value (key : string)
| ValueError_periodic_weighting (* "Periodic systems will need to have a weighting function ..." *)
| KeyError_weighting (key : string)   (* self.weighting["k2"] on a dict without the key *)
| KeyError_field (key : string)       (* d["cutoff"] on a dict without the key *)
| AttributeError_None                 (* weight_info.get(...) on None *)
| KeyError_grid (val_name : string)   (* "The grid information is missing the value for ..." *)
| AssertionError_grid                 (* "The min value should be smaller than the max values" *)
| ValueError_empty_sequence           (* max() / min() of an empty list *)
| KeyError_element (number : Z)       (* "The given systems contains atomic element ..." *)
| KeyError_combination                (* k2_weights[key] for a key that only k2_geoms has *)
| NameError_function                  (* [function] is unbound unless the weighting is exponential *)
| ValueError_concatenate_empty        (* np.concatenate([]) *)
| IndexError_slice                    (* a slice or index outside the allocated array *)
| ValueError_shape                    (* could not broadcast input array into shape *)
| AttributeError_get_k0_settings      (* MBTR has no method get_k0_settings *)
| TypeError_None                      (* None[...]: 'NoneType' object is not subscriptable *)
| ZeroDivisionError                   (* a Python float or int divided by zero *)
| LoopBudget.                         (* the model's loop budget ran out: the while loop is still running *)

Definition res (A : Type) : Type := exn + A.

Definition ok {A} (a : A) : res A := inr a.
Definition raise {A} (e : exn) : res A := inl e.

Definition rbind {A B} (m : res A) (f : A -> res B) : res B :=
  match m with
  | inl e => inl e
  | inr a => f a
  end.

Notation "'let!' x ':=' m 'in' k" := (rbind m (fun x => k))
  (at level 10, x pattern, m at level 100, k at level 200).
Notation "'check!' m 'in' k" := (rbind m (fun _ => k))
  (at level 10, m at level 100, k at level 200).

Fixpoint rmapM {A B} (f : A -> res B) (l : list A) : res (list B) :=
  match l with
  | [] => ok []
  | a :: l' => let! b := f a in let! bs := rmapM f l' in ok (b :: bs)
  end.

Fixpoint rfold {A S} (f : S -> A -> res S) (l : list A) (s : S) : res S :=
  match l with
  | [] => ok s
  | a :: l' => let! s' := f s a in rfold f l' s'
  end.

(** ** Real vectors, 3x3 cells and NumPy helpers *)

Definition vec3 : Type := (R * R * R)%type.
Definition mat3 : Type := (vec3 * vec3 * vec3)%type.

Definition Rgeb (x y : R) : bool := if Rge_dec x y then true else false.
Definition Rltb (x y : R) : bool := if Rlt_dec x y then true else false.

Definition vsub (u v : vec3) : vec3 :=
  let '(a, b, c) := u in let '(x, y, z) := v in ((a - x)%R, (b - y)%R, (c - z)%R).

(** [np.linalg.norm] of a 3-vector. *)
Definition norm3 (v : vec3) : R :=
  let '(x, y, z) := v in sqrt (x * x + y * y + z * z)%R.

(** [np.dot(p, cell)] for a row vector [p]. *)
Definition vec_mat (p : vec3) (cell : mat3) : vec3 :=
  let '(x, y, z) := p in
  let '(r0, r1, r2) := cell in
  let '(a0, b0, c0) := r0 in
  let '(a1, b1, c1) := r1 in
  let '(a2, b2, c2) := r2 in
  ((x * a0 + y * a1 + z * a2)%R,
   (x * b0 + y * b1 + z * b2)%R,
   (x * c0 + y * c1 + z * c2)%R).

(** [np.linalg.norm(cell, axis=1)]. *)
Definition row_norms (cell : mat3) : list R :=
  let '(r0, r1, r2) := cell in [norm3 r0; norm3 r1; norm3 r2].

(** [range(lo, hi)]. *)
Definition zrange (lo hi : Z) : list Z :=
  map (fun i => (lo + Z.of_nat i)%Z) (seq 0 (Z.to_nat (hi - lo))).

(** [a[mask]] for a boolean mask. *)
Definition mask_select {A} (mask : list bool) (a : list A) : list A :=
  map snd (List.filter (fun p : bool * A => fst p) (combine mask a)).

(** [np.linspace(a, b, num)]. *)
Definition linspace (a b : R) (num : nat) : list R :=
  map (fun i => (a + INR i * ((b - a) / (INR num - 1)))%R) (seq 0 num).

(** [np.roll(f, -1)]. *)
Definition roll_left (f : list R) : list R :=
  match f with
  | [] => []
  | x :: t => t ++ [x]
  end.

(** Elementwise difference of two arrays of the same length. *)
Definition arr_sub (a b : list R) : list R :=
  map (fun p => (fst p - snd p)%R) (combine a b).

(** [a[0:-1]]. *)
Definition drop_last {A} (a : list A) : list A := firstn (length a - 1) a.

(** [np.sum(y, axis=0)] where [y] has one row per center and [cols] columns. *)
Definition sum_axis0 (cols : nat) (y : list (list R)) : list R :=
  fold_left (fun acc row => map (fun p => (fst p + snd p)%R) (combine acc row))
            y (repeat 0%R cols).

(** The rows that [weights[:, np.newaxis] * ... (x[np.newaxis, :] -
    centers[:, np.newaxis])] has, as (center, weight): one per index when
    the two arrays are equally long, a single weight or a single center
    repeated for the other array, and NumPy's broadcast error otherwise. *)
Definition broadcast_pairs (centers weights : list R) : res (list (R * R)) :=
  if (length centers =? length weights)%nat then ok (combine centers weights)
  else if (length weights =? 1)%nat
       then ok (map (fun c => (c, nth 0 weights 0%R)) centers)
  else if (length centers =? 1)%nat
       then ok (map (fun w => (nth 0 centers 0%R, w)) weights)
  else raise ValueError_shape.

(** [int(x)] for a rational: truncation towards zero. *)
Definition py_int (q : Q) : Z :=
  if Qlt_le_dec q 0 then Qceiling q else Qfloor q.

(** [buf[start:start+len(vals)] = vals] on an allocated flat buffer; the
    slice has to lie inside the buffer. *)
Definition assign_slice (buf : list R) (start : nat) (vals : list R) : res (list R) :=
  if (start + length vals <=? length buf)%nat
  then ok (firstn start buf ++ vals ++ skipn (start + length vals) buf)
  else raise IndexError_slice.

(** ** Data model *)

(** The structure container ([describe.core.System], an ASE [Atoms]): what
    the descriptors read from it. *)
Record System : Type := mkSystem {
  numbers : list Z;              (* system.numbers, get_atomic_numbers() *)
  positions : list vec3;         (* get_positions() *)
  scaled_positions : list vec3;  (* get_scaled_positions() *)
  cell : mat3;                   (* get_cell(); the rows are the cell vectors *)
  pbc : bool;
  volume : R;                    (* get_volume() *)
  charges : list R;              (* system.charges *)
  inverse_distance_matrix : list (list R);
  displacement_tensor : list (list vec3);
  lattice_matrix : mat3;         (* system.lattice._matrix *)
  lattice_inv_matrix : mat3      (* system.lattice.inv_matrix *)
}.

(** One entry of the [weighting] dict, e.g.
    [{"function": "exponential", "scale": 0.5, "cutoff": 1e-3}].
    A missing key and a key bound to [None] are both [None]. *)
Record WeightInfo : Type := mkWeightInfo {
  w_function : option string;
  w_scale : option R;
  w_cutoff : option R
}.

(** One entry of the [grid] dict: [{"min": .., "max": .., "sigma": .., "n": ..}]. *)
Record GridInfo : Type := mkGridInfo {
  g_min : option R;
  g_max : option R;
  g_sigma : option R;
  g_n : option nat
}.

(** The constructor argument [k]: an int, something iterable, or neither. *)
Inductive k_value : Type :=
| K_int (z : Z)
| K_iterable (l : list Z)
| K_other.

(** A dense ndarray or a one-row sparse matrix, stored row-major. *)
Record ndarray : Type := mkArray {
  shape : list nat;
  data : list R
}.

(** What [describe] returns: one sparse row ([flatten=True]) or the list of
    the dense tensors of the requested orders. *)
Inductive output : Type :=
| Flat (final_vector : ndarray)
| Dense (mbtr : list ndarray).

(** Calls that leave [mbtr.py]: ghost log of the object. *)
Inductive event : Type :=
| Ev_aggregate (order : Z)   (* CMBTRWrapper(...).get_k?_geoms_and_weights *)
| Ev_extend (order : Z).     (* create_extended_system(system, order) *)

Record Config : Type := mkConfig {
  k : k_value;
  atomic_numbers : list Z;
  grid : option (gmap string GridInfo);
  weighting : option (gmap string (option WeightInfo));
  periodic : bool;
  normalize_by_volume : bool;
  normalize_gaussians : bool;
  flatten : bool
}.

Record Derived : Type := mkDerived {
  n_elements : nat;
  atomic_number_to_index : gmap Z nat;
  index_to_atomic_number : gmap nat Z;
  max_atomic_number : Z;
  min_atomic_number : Z
}.

Record CallState : Type := mkCallState {
  system : option System;
  n_atoms_in_cell : option nat;
  present_indices : gset nat;
  k1_geoms : option (gmap nat (list R));
  k1_weights : option (gmap nat (list R));
  k2_geoms : option (gmap (nat * nat) (list R));
  k2_weights : option (gmap (nat * nat) (list R));
  k3_geoms : option (gmap (nat * nat * nat) (list R));
  k3_weights : option (gmap (nat * nat * nat) (list R));
  axis_k1 : option (list R);
  axis_k2 : option (list R);
  axis_k3 : option (list R)
}.

(** The [MBTR] object. *)
Record MBTR : Type := mkMBTR {
  cfg : Config;
  derived : Derived;
  call : CallState;
  log : list event
}.

Definition set_cfg (c : Config) (s : MBTR) : MBTR :=
  mkMBTR c (derived s) (call s) (log s).
Definition set_derived (d : Derived) (s : MBTR) : MBTR :=
  mkMBTR (cfg s) d (call s) (log s).
Definition set_call (c : CallState) (s : MBTR) : MBTR :=
  mkMBTR (cfg s) (derived s) c (log s).
Definition add_event (e : event) (s : MBTR) : MBTR :=
  mkMBTR (cfg s) (derived s) (call s) (log s ++ [e]).

Definition set_k (v : k_value) (c : Config) : Config :=
  mkConfig v (atomic_numbers c) (grid c) (weighting c) (periodic c)
           (normalize_by_volume c) (normalize_gaussians c) (flatten c).
Definition set_atomic_numbers (l : list Z) (c : Config) : Config :=
  mkConfig (k c) l (grid c) (weighting c) (periodic c)
           (normalize_by_volume c) (normalize_gaussians c) (flatten c).
Definition set_grid (g : option (gmap string GridInfo)) (c : Config) : Config :=
  mkConfig (k c) (atomic_numbers c) g (weighting c) (periodic c)
           (normalize_by_volume c) (normalize_gaussians c) (flatten c).

Definition empty_derived : Derived := mkDerived 0 ∅ ∅ 0 0.
Definition empty_call : CallState :=
  mkCallState None None ∅ None None None None None None None None None.

(** Methods read and write the object: a state monad over [MBTR] in which an
    exception keeps the state reached when it was raised. *)
Definition M (A : Type) : Type := MBTR -> MBTR * res A.

Definition mret {A} (a : A) : M A := fun s => (s, ok a).
Definition mraise {A} (e : exn) : M A := fun s => (s, raise e).
Definition mbind' {A B} (m : M A) (f : A -> M B) : M B :=
  fun s => match m s with
           | (s', inl e) => (s', inl e)
           | (s', inr a) => f a s'
           end.
Definition mget : M MBTR := fun s => (s, ok s).
Definition mmodify (f : MBTR -> MBTR) : M unit := fun s => (f s, ok tt).
Definition mlift {A} (r : res A) : M A := fun s => (s, r).

Notation "'let*' x ':=' m 'in' k" := (mbind' m (fun x => k))
  (at level 10, x pattern, m at level 100, k at level 200).
Notation "'do*' m 'in' k" := (mbind' m (fun _ => k))
  (at level 10, m at level 100, k at level 200).

Fixpoint mfor {A} (l : list A) (body : A -> M unit) : M unit :=
  match l with
  | [] => mret tt
  | a :: l' => do* body a in mfor l' body
  end.

(** [d[key]] on a record field that may be missing. *)
Definition getitem {A} (key : string) (v : option A) : res A :=
  match v with
  | Some a => ok a
  | None => raise (KeyError_field key)
  end.

(** ["k{}".format(k)] for the supported orders. *)
Definition kkey (k : Z) : string :=
  match k with
  | 1%Z => "k1"
  | 2%Z => "k2"
  | 3%Z => "k3"
  | _ => "k"
  end.

(** [sorted(...)] on ints and on tuples of ints (lexicographic). *)
Definition lex2 (a b : nat * nat) : Prop :=
  (fst a < fst b)%nat \/ (fst a = fst b /\ (snd a <= snd b)%nat).
Definition lex3 (a b : nat * nat * nat) : Prop :=
  (fst a <> fst b /\ lex2 (fst a) (fst b)) \/ (fst a = fst b /\ (snd a <= snd b)%nat).

#[global] Instance lex2_dec : RelDecision lex2.
Proof. intros a b. unfold lex2. apply _. Defined.
#[global] Instance lex3_dec : RelDecision lex3.
Proof. intros a b. unfold lex3. apply _. Defined.

Definition sorted_Z (l : list Z) : list Z := merge_sort Z.le l.
Definition sorted_keys1 {V} (m : gmap nat V) : list nat :=
  merge_sort le (map fst (map_to_list m)).
Definition sorted_keys2 {V} (m : gmap (nat * nat) V) : list (nat * nat) :=
  merge_sort lex2 (map fst (map_to_list m)).
Definition sorted_keys3 {V} (m : gmap (nat * nat * nat) V) : list (nat * nat * nat) :=
  merge_sort lex3 (map fst (map_to_list m)).

(** [enumerate(l)]. *)
Definition enumerate {A} (l : list A) : list (nat * A) := combine (seq 0 (length l)) l.

(** [max(l)] and [min(l)] of a list of ints. *)
Definition py_max (l : list Z) : res Z :=
  match l with
  | [] => raise ValueError_empty_sequence
  | x :: t => ok (fold_left Z.max t x)
  end.
Definition py_min (l : list Z) : res Z :=
  match l with
  | [] => raise ValueError_empty_sequence
  | x :: t => ok (fold_left Z.min t x)
  end.

Definition rfor {A} (l : list A) (body : A -> res unit) : res unit :=
  rfold (fun _ a => body a) l tt.

Definition opt_string_eqb (a : option string) (b : string) : bool :=
  match a with
  | Some s => String.eqb s b
  | None => false
  end.

(** ** The MBTR class *)

(** [lambda x: np.exp(-scale*x)]. *)
Definition exponential_weighting (scale : R) : R -> R :=
  fun x => exp (- scale * x).

(** [MBTR.decay_factor = math.sqrt(2)*3]. *)
Definition decay_factor : R := (sqrt 2 * 3)%R.

(** [2**(-7)] and [2**(-3.5)]. *)
Definition sigma_k2_default : R := Rpower 2 (-7).
Definition sigma_k3_default : R := Rpower 2 (-3.5).

(** [int(math.ceil((max_k-min_k)/sigma/4) + 1)]. *)
Definition default_n (min_k max_k sigma : R) : nat :=
  Z.to_nat (Zceil ((max_k - min_k) / sigma / 4) + 1).

Definition default_grid (min_k max_k sigma : R) : GridInfo :=
  {| g_min := Some min_k;
     g_max := Some max_k;
     g_sigma := Some sigma;
     g_n := Some (default_n min_k max_k sigma) |}.

(** The elements of [self.k]; once [update] has run, [self.k] is a set. *)
Definition k_iter (v : k_value) : list Z :=
  match v with
  | K_iterable l => l
  | _ => []
  end.

Definition k_contains (x : Z) (v : k_value) : bool :=
  existsb (Z.eqb x) (k_iter v).

(** [weight_info.get(key)] for the numeric fields. *)
Definition winfo_get (weight_info : WeightInfo) (key : string) : option R :=
  if String.eqb key "cutoff" then w_cutoff weight_info
  else if String.eqb key "scale" then w_scale weight_info
  else None.

(** Body of the first loop of [update]: "Check the weighting information". *)
Definition check_weighting_info (w : gmap string (option WeightInfo)) (k : Z) : res unit :=
  if (k >? 1)%Z then
    match w !! kkey k with
    | None => raise (KeyError_weighting (kkey k))
    | Some None => raise AttributeError_None
    | Some (Some weight_info) =>
        let function := w_function weight_info in
        if opt_string_eqb function "exponential" || opt_string_eqb function "unity" then
          let needed := if opt_string_eqb function "exponential"
                        then ["cutoff"; "scale"] else [] in
          rfor needed (fun key =>
            match winfo_get weight_info key with
            | None => raise (ValueError_missing_weighting_value key)
            | Some _ => ok tt
            end)
        else raise ValueError_unknown_weighting
    end
  else ok tt.

(** Body of the second loop of [update]: "Check that a weighting function is
    specified for each term k>1". *)
Definition check_periodic_weighting
    (w : option (gmap string (option WeightInfo))) (k : Z) : res unit :=
  if (k >? 1)%Z then
    match w with
    | None => raise ValueError_periodic_weighting
    | Some w =>
        match w !! kkey k with
        | None => raise (KeyError_weighting (kkey k))
        | Some None => raise ValueError_periodic_weighting
        | Some (Some weight_info) =>
            match w_function weight_info with
            | None => raise ValueError_periodic_weighting
            | Some function =>
                if String.eqb function "unity"
                then raise ValueError_periodic_weighting
                else ok tt
            end
        end
    end
  else ok tt.

(** [check_grid]: the loop body for one order [i]. *)
Definition check_grid_info (info : GridInfo) : res unit :=
  let grid_field {A} (name : string) (v : option A) : res A :=
    match v with
    | Some a => ok a
    | None => raise (KeyError_grid name)
    end in
  let! mn := grid_field "min" (g_min info) in
  let! mx := grid_field "max" (g_max info) in
  let! _ := grid_field "sigma" (g_sigma info) in
  let! _ := grid_field "n" (g_n info) in
  if Rlt_dec mn mx then ok tt else raise AssertionError_grid.

Definition check_grid (ks : list Z) (grid : option (gmap string GridInfo)) : res unit :=
  match grid with
  | None => ok tt
  | Some grid =>
      rfor ks (fun i =>
        match grid !! kkey i with
        | None => ok tt
        | Some info => check_grid_info info
        end)
  end.

Definition supported_k (x : Z) : bool := ((1 <=? x) && (x <? 4))%Z.

(** [dict] filled by [for i, z in enumerate(l): d[z] = i]. *)
Definition index_map (l : list Z) : gmap Z nat :=
  fold_left (fun m p => <[snd p := fst p]> m) (enumerate l) ∅.
Definition reverse_index_map (l : list Z) : gmap nat Z :=
  fold_left (fun m p => <[fst p := snd p]> m) (enumerate l) ∅.

(** Field updates of the per-call state. *)
Definition reset_call (sys : System) (c : CallState) : CallState :=
  mkCallState (Some sys) None (present_indices c)
              None None None None None None None None None.
Definition set_n_atoms_in_cell (n : nat) (c : CallState) : CallState :=
  mkCallState (system c) (Some n) (present_indices c)
              (k1_geoms c) (k1_weights c) (k2_geoms c) (k2_weights c)
              (k3_geoms c) (k3_weights c) (axis_k1 c) (axis_k2 c) (axis_k3 c).
Definition set_present_indices (p : gset nat) (c : CallState) : CallState :=
  mkCallState (system c) (n_atoms_in_cell c) p
              (k1_geoms c) (k1_weights c) (k2_geoms c) (k2_weights c)
              (k3_geoms c) (k3_weights c) (axis_k1 c) (axis_k2 c) (axis_k3 c).
Definition set_k1 (gw : gmap nat (list R) * gmap nat (list R)) (c : CallState) : CallState :=
  mkCallState (system c) (n_atoms_in_cell c) (present_indices c)
              (Some (fst gw)) (Some (snd gw)) (k2_geoms c) (k2_weights c)
              (k3_geoms c) (k3_weights c) (axis_k1 c) (axis_k2 c) (axis_k3 c).
Definition set_k2 (gw : gmap (nat * nat) (list R) * gmap (nat * nat) (list R))
    (c : CallState) : CallState :=
  mkCallState (system c) (n_atoms_in_cell c) (present_indices c)
              (k1_geoms c) (k1_weights c) (Some (fst gw)) (Some (snd gw))
              (k3_geoms c) (k3_weights c) (axis_k1 c) (axis_k2 c) (axis_k3 c).
Definition set_k3
    (gw : gmap (nat * nat * nat) (list R) * gmap (nat * nat * nat) (list R))
    (c : CallState) : CallState :=
  mkCallState (system c) (n_atoms_in_cell c) (present_indices c)
              (k1_geoms c) (k1_weights c) (k2_geoms c) (k2_weights c)
              (Some (fst gw)) (Some (snd gw)) (axis_k1 c) (axis_k2 c) (axis_k3 c).
Definition set_axis_k1 (a : list R) (c : CallState) : CallState :=
  mkCallState (system c) (n_atoms_in_cell c) (present_indices c)
              (k1_geoms c) (k1_weights c) (k2_geoms c) (k2_weights c)
              (k3_geoms c) (k3_weights c) (Some a) (axis_k2 c) (axis_k3 c).
Definition set_axis_k2 (a : list R) (c : CallState) : CallState :=
  mkCallState (system c) (n_atoms_in_cell c) (present_indices c)
              (k1_geoms c) (k1_weights c) (k2_geoms c) (k2_weights c)
              (k3_geoms c) (k3_weights c) (axis_k1 c) (Some a) (axis_k3 c).
Definition set_axis_k3 (a : list R) (c : CallState) : CallState :=
  mkCallState (system c) (n_atoms_in_cell c) (present_indices c)
              (k1_geoms c) (k1_weights c) (k2_geoms c) (k2_weights c)
              (k3_geoms c) (k3_weights c) (axis_k1 c) (axis_k2 c) (Some a).

(** [buf[start:start+n] = vals]: the value has to have the slice's length. *)
Definition assign_block (buf : list R) (start n : nat) (vals : list R) : res (list R) :=
  if (length vals =? n)%nat then assign_slice buf start vals
  else raise ValueError_shape.

(** [d[key]] on one of the cached dicts of weights. *)
Definition cached_lookup {K} `{Countable K} (d : option (gmap K (list R))) (key : K)
    : res (list R) :=
  match d with
  | None => raise TypeError_None
  | Some m =>
      match m !! key with
      | Some v => ok v
      | None => raise KeyError_combination
      end
  end.

(** The body of the loop [for number in present_element_numbers] of
    [initialize_scalars]. *)
Definition check_present_number (number : Z) : M unit :=
  let* self := mget in
  match atomic_number_to_index (derived self) !! number with
  | None => mraise (KeyError_element number)
  | Some index =>
      mmodify (fun s =>
        set_call (set_present_indices
                    ({[index]} ∪ present_indices (call s)) (call s)) s)
  end.

Section MBTR_methods.

(** [set(iterable)] for ints: the distinct elements, in the order in which
    Python iterates over the set. *)
Variable set_of : list Z -> list Z.

(** [scipy.special.erf]. *)
Variable erf : R -> R.

(** [System(positions=.., numbers=.., cell=.., pbc=..)]. *)
Variable System_new : list vec3 -> list Z -> mat3 -> bool -> System.

(** [CMBTRWrapper(positions, atomic_numbers, atomic_number_to_index,
    n_atoms_in_cell).get_k?_geoms_and_weights(geom_func, weight_func,
    parameters)]; [parameters] is [{}] or [{scale, cutoff}]. *)
Variable cmbtr_k1 :
  list vec3 -> list Z -> gmap Z nat -> option nat ->
  gmap nat (list R) * gmap nat (list R).
Variable cmbtr_k2 :
  list vec3 -> list Z -> gmap Z nat -> option nat -> string -> option (R * R) ->
  gmap (nat * nat) (list R) * gmap (nat * nat) (list R).
Variable cmbtr_k3 :
  list vec3 -> list Z -> gmap Z nat -> option nat -> string -> option (R * R) ->
  gmap (nat * nat * nat) (list R) * gmap (nat * nat * nat) (list R).

(** [update]: checks and updates the variables of the object. *)
Definition update : M unit :=
  let* self := mget in
  let* ks :=
    match k (cfg self) with
    | K_int _ => mraise ValueError_k_is_int
    | K_other => mraise ValueError_k_not_a_set
    | K_iterable l => mret (set_of l)
    end in
  do* mmodify (fun s => set_cfg (set_k (K_iterable ks) (cfg s)) s) in
  do* mlift (if forallb supported_k ks then ok tt else raise ValueError_k_invalid) in
  do* mlift (match weighting (cfg self) with
             | Some w => rfor ks (check_weighting_info w)
             | None => ok tt
             end) in
  do* mlift (if periodic (cfg self)
             then rfor ks (check_periodic_weighting (weighting (cfg self)))
             else ok tt) in
  do* mlift (check_grid ks (grid (cfg self))) in
  do* mmodify (set_derived empty_derived) in
  let numbers_sorted := sorted_Z (atomic_numbers (cfg self)) in
  do* mmodify (fun s => set_cfg (set_atomic_numbers numbers_sorted (cfg s)) s) in
  do* mmodify (set_derived
                 (mkDerived (length numbers_sorted)
                            (index_map numbers_sorted)
                            (reverse_index_map numbers_sorted) 0 0)) in
  let* mx := mlift (py_max numbers_sorted) in
  let* mn := mlift (py_min numbers_sorted) in
  mmodify (set_derived
             (mkDerived (length numbers_sorted)
                        (index_map numbers_sorted)
                        (reverse_index_map numbers_sorted) mx mn)).

(** [__init__]. *)
Definition init (atomic_numbers : list Z) (k : k_value) (periodic : bool)
    (grid : option (gmap string GridInfo))
    (weighting : option (gmap string (option WeightInfo)))
    (normalize_by_volume normalize_gaussians flatten : bool) : res MBTR :=
  let self :=
    mkMBTR (mkConfig k (set_of atomic_numbers) grid weighting periodic
                     normalize_by_volume normalize_gaussians flatten)
           empty_derived empty_call [] in
  match update self with
  | (_, inl e) => raise e
  | (self, inr _) => ok (set_call empty_call self)
  end.

(** [get_k1_settings], [get_k2_settings], [get_k3_settings]. *)
Definition explicit_grid (self : MBTR) (key : string) : option GridInfo :=
  match grid (cfg self) with
  | Some g => g !! key
  | None => None
  end.

Definition get_k1_settings (self : MBTR) : GridInfo :=
  match explicit_grid self "k1" with
  | Some info => info
  | None =>
      let sigma := (1 / 10)%R in
      let min_k := (IZR (min_atomic_number (derived self)) - decay_factor * sigma)%R in
      let max_k := (IZR (max_atomic_number (derived self)) + decay_factor * sigma)%R in
      default_grid min_k max_k sigma
  end.

Definition get_k2_settings (self : MBTR) : GridInfo :=
  match explicit_grid self "k2" with
  | Some info => info
  | None =>
      let sigma := sigma_k2_default in
      let min_k := (0 - decay_factor * sigma)%R in
      let max_k := (1 / (7 / 10) + decay_factor * sigma)%R in
      default_grid min_k max_k sigma
  end.

Definition get_k3_settings (self : MBTR) : GridInfo :=
  match explicit_grid self "k3" with
  | Some info => info
  | None =>
      let sigma := sigma_k3_default in
      let min_k := (-1 - decay_factor * sigma)%R in
      let max_k := (1 + decay_factor * sigma)%R in
      default_grid min_k max_k sigma
  end.


(** The while loop of [create_extended_system] for one axis; [n_copies]
    starts at -1. [length0] is [cell_vector_lengths[0]]. *)
Fixpoint copies_loop (fuel : nat) (function : R -> R) (cutoff length0 : R)
    (term_number n_copies : Z) : res Z :=
  match fuel with
  | O => raise LoopBudget
  | S fuel' =>
      let n_copies := (n_copies + 1)%Z in
      let distance := (IZR n_copies * length0)%R in
      let distance := if (term_number >? 2)%Z then (2 * distance)%R else distance in
      let weight := function distance in
      if Rlt_dec weight cutoff
      then ok n_copies
      else copies_loop fuel' function cutoff length0 term_number n_copies
  end.

(** The loop [for i_axis, axis_length in enumerate(cell_vector_lengths)]
    that fills [n_copies_axis]; the body reads [cell_vector_lengths[0]]. *)
Definition copy_counts (fuel : nat) (function : R -> R) (cutoff : R)
    (term_number : Z) (cell_vector_lengths : list R) : res (list Z) :=
  rmapM (fun axis_length : R =>
           copies_loop fuel function cutoff (nth 0 cell_vector_lengths 0%R)
                       term_number (-1))
        cell_vector_lengths.

Definition vscale (s : R) (v : vec3) : vec3 :=
  let '(x, y, z) := v in ((s * x)%R, (s * y)%R, (s * z)%R).

(** The body of the triple loop over [(i, j, k)]: the image atoms that are
    kept, as [(valid_pos, valid_num)]. *)
Definition valid_images (function : R -> R) (cutoff : R) (term_number : Z)
    (numbers : list Z) (relative_pos cartesian_pos : list vec3) (cell : mat3)
    (i j k : Z) : list vec3 * list Z :=
  let a : vec3 := (1, 0, 0)%R in
  let b : vec3 := (0, 1, 0)%R in
  let c : vec3 := (0, 0, 1)%R in
  let num_copy := numbers in
  let pos_copy :=
    map (fun p => vsub (vsub (vsub p (vscale (IZR i) a)) (vscale (IZR j) b))
                       (vscale (IZR k) c)) relative_pos in
  let pos_copy_cartesian := map (fun p => vec_mat p cell) pos_copy in
  let positions_to_consider := cartesian_pos in
  let distances :=
    map (fun p => map (fun q => norm3 (vsub p q)) positions_to_consider)
        pos_copy_cartesian in
  let distances :=
    if (term_number >? 2)%Z
    then map (map (fun d => (d * 2)%R)) distances
    else distances in
  let weights := map (map function) distances in
  let weight_mask := map (map (fun w => Rgeb w cutoff)) weights in
  let valids_mask := map (existsb (fun b => b)) weight_mask in
  (mask_select valids_mask pos_copy_cartesian, mask_select valids_mask num_copy).

(** [create_extended_system(primitive_system, term_number)]. *)
Definition create_extended_system (fuel : nat) (self : MBTR)
    (primitive_system : System) (term_number : Z) : res System :=
  let numbers := numbers primitive_system in
  let relative_pos := scaled_positions primitive_system in
  let cartesian_pos := positions primitive_system in
  let cell := cell primitive_system in
  let cell_vector_lengths := row_norms cell in
  let! w := match weighting (cfg self) with
            | Some w => ok w
            | None => raise TypeError_None
            end in
  let! weight_info := match w !! kkey term_number with
                      | Some (Some wi) => ok wi
                      | Some None => raise TypeError_None
                      | None => raise (KeyError_weighting (kkey term_number))
                      end in
  let! weighting_function := getitem "function" (w_function weight_info) in
  let! cutoff := getitem "cutoff" (w_cutoff weight_info) in
  let! function :=
    if String.eqb weighting_function "exponential" then
      let! scale := getitem "scale" (w_scale weight_info) in
      ok (exponential_weighting scale)
    else raise NameError_function in
  let! n_copies_axis :=
    copy_counts fuel function cutoff term_number cell_vector_lengths in
  let nc (axis : nat) : Z := nth axis n_copies_axis 0%Z in
  let images :=
    flat_map (fun i =>
      flat_map (fun j =>
        flat_map (fun k =>
          if ((i =? 0) && (j =? 0) && (k =? 0))%Z then []
          else [valid_images function cutoff term_number numbers
                             relative_pos cartesian_pos cell i j k])
          (zrange (- nc 2%nat) (nc 2%nat + 1)))
        (zrange (- nc 1%nat) (nc 1%nat + 1)))
      (zrange (- nc 0%nat) (nc 0%nat + 1)) in
  let pos_extended := concat (cartesian_pos :: map fst images) in
  let num_extended := concat (numbers :: map snd images) in
  ok (System_new pos_extended num_extended cell false).

(** [gaussian_sum(centers, weights, settings)]. The two divisions of
    Python numbers raise when the divisor is zero: [(stop - start)/(n-1)]
    for [n = 1] and [1/(sigma*math.sqrt(2*math.pi))] for [sigma = 0]. The
    division by [sigma*np.sqrt(2)] is NumPy's: for [sigma = 0] it gives inf
    or nan, which the reals do not have, so what is said about the values
    is said for [sigma <> 0]. *)
Definition gaussian_sum (self : MBTR) (centers weights : list R)
    (settings : GridInfo) : res (list R) :=
  let! start := getitem "min" (g_min settings) in
  let! stop := getitem "max" (g_max settings) in
  let! sigma := getitem "sigma" (g_sigma settings) in
  let! n := getitem "n" (g_n settings) in
  let! dx := if (n =? 1)%nat then raise ZeroDivisionError
             else ok ((stop - start) / (INR n - 1))%R in
  let x := linspace (start - dx / 2) (stop + dx / 2) (n + 1) in
  let! pairs := broadcast_pairs centers weights in
  let y :=
    map (fun cw : R * R =>
           map (fun xb => (snd cw * 1 / 2
                           * (1 + erf ((xb - fst cw) / (sigma * sqrt 2))))%R) x)
        pairs in
  let f := sum_axis0 (n + 1) y in
  let! f :=
    if normalize_gaussians (cfg self) then ok f
    else
      let! max_val := if Req_dec_T sigma 0 then raise ZeroDivisionError
                      else ok (1 / (sigma * sqrt (2 * PI)))%R in
      ok (map (fun v => (v / max_val)%R) f) in
  let f_rolled := roll_left f in
  let pdf := map (fun v => (v / dx)%R) (drop_last (arr_sub f_rolled f)) in
  ok pdf.

(** The weighting function name and the [parameters] dict that
    [k2_geoms_and_weights] and [k3_geoms_and_weights] hand to the wrapper. *)
Definition aggregation_weighting (self : MBTR) (key : string)
    : res (string * option (R * R)) :=
  match weighting (cfg self) with
  | Some w =>
      let! weight_info := match w !! key with
                          | Some (Some wi) => ok wi
                          | Some None => raise TypeError_None
                          | None => raise (KeyError_weighting key)
                          end in
      let! weighting_function := getitem "function" (w_function weight_info) in
      if String.eqb weighting_function "exponential" then
        let! scale := getitem "scale" (w_scale weight_info) in
        let! cutoff := getitem "cutoff" (w_cutoff weight_info) in
        ok (weighting_function, Some (scale, cutoff))
      else ok (weighting_function, None)
  | None => ok ("unity", None)
  end.

Definition is_None {A} (o : option A) : bool :=
  match o with
  | None => true
  | Some _ => false
  end.

(** [k1_geoms_and_weights(system)]. *)
Definition k1_geoms_and_weights (sys : System) : M unit :=
  let* self := mget in
  if is_None (k1_geoms (call self)) || is_None (k1_weights (call self)) then
    do* mmodify (add_event (Ev_aggregate 1)) in
    mmodify (fun s =>
      set_call (set_k1 (cmbtr_k1 (positions sys) (numbers sys)
                                 (atomic_number_to_index (derived self))
                                 (n_atoms_in_cell (call self)))
                       (call s)) s)
  else mret tt.

(** [k2_geoms_and_weights(system)]. *)
Definition k2_geoms_and_weights (sys : System) : M unit :=
  let* self := mget in
  if is_None (k2_geoms (call self)) || is_None (k2_weights (call self)) then
    let* wp := mlift (aggregation_weighting self "k2") in
    do* mmodify (add_event (Ev_aggregate 2)) in
    mmodify (fun s =>
      set_call (set_k2 (cmbtr_k2 (positions sys) (numbers sys)
                                 (atomic_number_to_index (derived self))
                                 (n_atoms_in_cell (call self))
                                 (fst wp) (snd wp))
                       (call s)) s)
  else mret tt.

(** [k3_geoms_and_weights(system)]; the guard reads [_k2_weights]. *)
Definition k3_geoms_and_weights (sys : System) : M unit :=
  let* self := mget in
  if is_None (k3_geoms (call self)) || is_None (k2_weights (call self)) then
    let* wp := mlift (aggregation_weighting self "k3") in
    do* mmodify (add_event (Ev_aggregate 3)) in
    mmodify (fun s =>
      set_call (set_k3 (cmbtr_k3 (positions sys) (numbers sys)
                                 (atomic_number_to_index (derived self))
                                 (n_atoms_in_cell (call self))
                                 (fst wp) (snd wp))
                       (call s)) s)
  else mret tt.

(** [K1(settings)]. *)
Definition K1 (settings : GridInfo) : M ndarray :=
  let* start := mlift (getitem "min" (g_min settings)) in
  let* stop := mlift (getitem "max" (g_max settings)) in
  let* n := mlift (getitem "n" (g_n settings)) in
  do* mmodify (fun s => set_call (set_axis_k1 (linspace start stop n) (call s)) s) in
  let* self := mget in
  let n_elem := n_elements (derived self) in
  let k1 := repeat 0%R (n_elem * n) in
  let shape := if flatten (cfg self) then [1%nat; (n_elem * n)%nat] else [n_elem; n] in
  let* geoms_map := match k1_geoms (call self) with
                    | Some g => mret g
                    | None => mraise AttributeError_None
                    end in
  let* k1 := mlift (rfold (fun k1 (mk : nat * nat) =>
      let key := snd mk in
      let i := key in
      let! geoms := cached_lookup (Some geoms_map) key in
      let! weights := cached_lookup (k1_weights (call self)) key in
      let! gaussian_sum := gaussian_sum self geoms weights settings in
      if flatten (cfg self) then
        assign_block k1 (i * n) n gaussian_sum
      else if (i <? n_elem)%nat then assign_block k1 (i * n) n gaussian_sum
      else raise IndexError_slice)
    (enumerate (sorted_keys1 geoms_map)) k1) in
  mret (mkArray shape k1).

(** [K2(settings)]. *)
Definition K2 (settings : GridInfo) : M ndarray :=
  let* start := mlift (getitem "min" (g_min settings)) in
  let* stop := mlift (getitem "max" (g_max settings)) in
  let* n := mlift (getitem "n" (g_n settings)) in
  do* mmodify (fun s => set_call (set_axis_k2 (linspace start stop n) (call s)) s) in
  let* self := mget in
  let n_elem := n_elements (derived self) in
  let width :=
    Z.to_nat (py_int (inject_Z (Z.of_nat n_elem * (Z.of_nat n_elem + 1)) / 2
                      * inject_Z (Z.of_nat n))%Q) in
  let k2 := if flatten (cfg self) then repeat 0%R width
            else repeat 0%R (n_elem * n_elem * n) in
  let shape := if flatten (cfg self) then [1%nat; width] else [n_elem; n_elem; n] in
  let* geoms_map := match k2_geoms (call self) with
                    | Some g => mret g
                    | None => mraise AttributeError_None
                    end in
  let* k2 := mlift (rfold (fun k2 (mk : nat * (nat * nat)) =>
      let m := fst mk in
      let key := snd mk in
      let i := fst key in
      let j := snd key in
      let! geoms := cached_lookup (Some geoms_map) key in
      let! weights := cached_lookup (k2_weights (call self)) key in
      let! gaussian_sum := gaussian_sum self geoms weights settings in
      if flatten (cfg self) then
        assign_block k2 (m * n) n gaussian_sum
      else if (i <? n_elem)%nat && (j <? n_elem)%nat
      then assign_block k2 ((i * n_elem + j) * n) n gaussian_sum
      else raise IndexError_slice)
    (enumerate (sorted_keys2 geoms_map)) k2) in
  mret (mkArray shape k2).

(** [K3(settings)]. *)
Definition K3 (settings : GridInfo) : M ndarray :=
  let* start := mlift (getitem "min" (g_min settings)) in
  let* stop := mlift (getitem "max" (g_max settings)) in
  let* n := mlift (getitem "n" (g_n settings)) in
  do* mmodify (fun s => set_call (set_axis_k3 (linspace start stop n) (call s)) s) in
  let* self := mget in
  let n_elem := n_elements (derived self) in
  let width :=
    Z.to_nat (py_int (inject_Z (Z.of_nat n_elem * Z.of_nat n_elem
                                * (Z.of_nat n_elem + 1)) / 2
                      * inject_Z (Z.of_nat n))%Q) in
  let k3 := if flatten (cfg self) then repeat 0%R width
            else repeat 0%R (n_elem * n_elem * n_elem * n) in
  let shape := if flatten (cfg self) then [1%nat; width]
               else [n_elem; n_elem; n_elem; n] in
  let* geoms_map := match k3_geoms (call self) with
                    | Some g => mret g
                    | None => mraise AttributeError_None
                    end in
  let* k3 := mlift (rfold (fun k3 (mk : nat * (nat * nat * nat)) =>
      let m := fst mk in
      let key := snd mk in
      let i := fst (fst key) in
      let j := snd (fst key) in
      let k := snd key in
      let! geoms := cached_lookup (Some geoms_map) key in
      let! weights := cached_lookup (k3_weights (call self)) key in
      let! gaussian_sum := gaussian_sum self geoms weights settings in
      if flatten (cfg self) then
        assign_block k3 (m * n) n gaussian_sum
      else if (i <? n_elem)%nat && (j <? n_elem)%nat && (k <? n_elem)%nat
      then assign_block k3 (((i * n_elem + j) * n_elem + k) * n) n gaussian_sum
      else raise IndexError_slice)
    (enumerate (sorted_keys3 geoms_map)) k3) in
  mret (mkArray shape k3).

(** [self.system.get_volume()]. *)
Definition get_volume (self : MBTR) : res R :=
  match system (call self) with
  | Some sys => ok (volume sys)
  | None => raise AttributeError_None
  end.

(** [create_with_grid(grid=None)]. In the flattened branch the blocks of
    the tensors are laid one after the other: the columns of a tensor are
    shifted by the total width [length] of the tensors before it. *)
Definition create_with_grid (grid_arg : option (gmap string GridInfo)) : M output :=
  do* match grid_arg with
      | None => mret tt
      | Some g =>
          let* self := mget in
          do* mlift (check_grid (k_iter (k (cfg self))) (Some g)) in
          mmodify (fun s => set_cfg (set_grid (Some g) (cfg s)) s)
      end in
  let mbtr : list ndarray := [] in
  let* self := mget in
  let* mbtr :=
    if k_contains 1 (k (cfg self)) then
      let settings_k1 := get_k1_settings self in
      let* k1 := K1 settings_k1 in
      mret (mbtr ++ [k1])
    else mret mbtr in
  let* mbtr :=
    if k_contains 2 (k (cfg self)) then
      let settings_k2 := get_k2_settings self in
      let* k2 := K2 settings_k2 in
      mret (mbtr ++ [k2])
    else mret mbtr in
  let* mbtr :=
    if k_contains 3 (k (cfg self)) then
      let settings_k3 := get_k3_settings self in
      let* k3 := K3 settings_k3 in
      mret (mbtr ++ [k3])
    else mret mbtr in
  let* self := mget in
  if flatten (cfg self) then
    let '(length, datas) :=
      fold_left (fun (acc : nat * list (list R)) (tensor : ndarray) =>
                   let size := nth 1 (shape tensor) 0%nat in
                   ((fst acc + size)%nat, snd acc ++ [data tensor]))
                mbtr (0%nat, []) in
    match datas with
    | [] => mraise ValueError_concatenate_empty
    | _ =>
        let final_vector := mkArray [1%nat; length] (concat datas) in
        if normalize_by_volume (cfg self) then
          let* volume := mlift (get_volume self) in
          mret (Flat (mkArray (shape final_vector)
                              (map (fun v => (v / volume)%R) (data final_vector))))
        else mret (Flat final_vector)
    end
  else
    if normalize_by_volume (cfg self) then
      let* volume := mlift (get_volume self) in
      mret (Dense (map (fun part =>
                          mkArray (shape part)
                                  (map (fun v => (v / volume)%R) (data part)))
                       mbtr))
    else mret (Dense mbtr).

(** [initialize_scalars(system)]. [fuel] bounds the while loops of
    [create_extended_system]. *)
Definition initialize_scalars (fuel : nat) (sys : System) : M unit :=
  do* mmodify (fun s => set_call (reset_call sys (call s)) s) in
  do* update in
  do* mmodify (fun s => set_call (set_n_atoms_in_cell (length (numbers sys)) (call s)) s) in
  let present_element_numbers := set_of (numbers sys) in
  do* mmodify (fun s => set_call (set_present_indices ∅ (call s)) s) in
  do* mfor present_element_numbers check_present_number in
  let* self := mget in
  do* (if k_contains 1 (k (cfg self)) then k1_geoms_and_weights sys else mret tt) in
  do* (if k_contains 2 (k (cfg self)) then
         let* system_k2 :=
           if periodic (cfg self) then
             do* mmodify (add_event (Ev_extend 2)) in
             mlift (create_extended_system fuel self sys 2)
           else mret sys in
         k2_geoms_and_weights system_k2
       else mret tt) in
  if k_contains 3 (k (cfg self)) then
    let* system_k3 :=
      if periodic (cfg self) then
        do* mmodify (add_event (Ev_extend 3)) in
        mlift (create_extended_system fuel self sys 3)
      else mret sys in
    k3_geoms_and_weights system_k3
  else mret tt.

(** [describe(system)]. *)
Definition describe (fuel : nat) (sys : System) : M output :=
  do* initialize_scalars fuel sys in
  create_with_grid None.

End MBTR_methods.

(** ** SortedCoulombMatrix and SortedSineMatrix *)

Definition matrix : Type := list (list R).

(** [m[i][j]] and [q[i]] inside the bounds. *)
Definition entry (m : matrix) (i j : nat) : R := nth j (nth i m []) 0%R.
Definition item (q : list R) (i : nat) : R := nth i q 0%R.

(** The [rows x cols] array whose entry [(i, j)] is [f i j]. *)
Definition tabulate (rows cols : nat) (f : nat -> nat -> R) : matrix :=
  map (fun i => map (fun j => f i j) (seq 0 cols)) (seq 0 rows).

Definition has_shape {A} (rows cols : nat) (m : list (list A)) : bool :=
  (length m =? rows)%nat && forallb (fun r => (length r =? cols)%nat) m.

(** [q[None, :] * q[:, None]]. *)
Definition outer_charges (q : list R) : matrix :=
  tabulate (length q) (length q) (fun i j => (item q j * item q i)%R).

(** [a * b] for two arrays of the same shape [n x n]. *)
Definition mat_times (n : nat) (a b : matrix) : res matrix :=
  if has_shape n n a && has_shape n n b
  then ok (tabulate n n (fun i j => (entry a i j * entry b i j)%R))
  else raise ValueError_shape.

(** [x ** 2.4] for a non-negative charge. *)
Definition pow_2_4 (x : R) : R :=
  if Req_dec_T x 0 then 0%R else Rpower x (24 / 10).

(** [np.fill_diagonal(m, vals)] on an [n x n] array. *)
Definition fill_diagonal (n : nat) (m : matrix) (vals : list R) : matrix :=
  tabulate n n (fun i j => if (i =? j)%nat then item vals i else entry m i j).

(** [np.linalg.norm(row)] and [np.linalg.norm(m, axis=1)]. *)
Definition sum_squares (row : list R) : R :=
  fold_right (fun x acc => (x * x + acc)%R) 0%R row.
Definition row_norm (row : list R) : R := sqrt (sum_squares row).
Definition norms_axis1 (m : matrix) : list R := map row_norm m.

(** [m[idx]] and [m[:, idx]]. *)
Definition take_rows (m : matrix) (idx : list nat) : matrix :=
  map (fun i => nth i m []) idx.
Definition take_cols (m : matrix) (idx : list nat) : matrix :=
  map (fun row => map (fun j => nth j row 0%R) idx) m.

(** [zeros = np.zeros((n_max, n_max)); zeros[:rows, :cols] = m]. *)
Definition pad_zeros (n_atoms_max : nat) (m : matrix) : res matrix :=
  let rows := length m in
  let cols := length (nth 0 m []) in
  if (rows <=? n_atoms_max)%nat && (cols <=? n_atoms_max)%nat then
    ok (tabulate n_atoms_max n_atoms_max
          (fun i j => if (i <? rows)%nat && (j <? cols)%nat then entry m i j else 0%R))
  else raise ValueError_shape.

(** What [describe] of the two matrix descriptors returns. *)
Inductive matrix_output : Type :=
| Matrix2D (m : matrix)
| Matrix1D (v : list R).

(** A stable argsort by insertion, one implementation of NumPy's contract. *)
Fixpoint insert_index (norms : list R) (i : nat) (sorted : list nat) : list nat :=
  match sorted with
  | [] => [i]
  | j :: rest =>
      if Rle_dec (item norms i) (item norms j) then i :: j :: rest
      else j :: insert_index norms i rest
  end.
Definition argsort_insertion (norms : list R) : list nat :=
  fold_right (insert_index norms) [] (seq 0 (length norms)).

Section Matrix_descriptors.

(** [np.argsort(norms, axis=0)]: the indices that sort [norms] in
    ascending order. *)
Variable argsort : list R -> list nat.

(** The part shared by the two descriptors: set the diagonal, sort rows and
    columns by descending row norm, pad. *)
Definition sort_and_pad (n_atoms_max : nat) (q : list R) (mat : matrix) : res matrix :=
  let mat := fill_diagonal (length q) mat (map (fun z => (5 / 10 * pow_2_4 z)%R) q) in
  let norms := norms_axis1 mat in
  let sorted_indices := rev (argsort norms) in
  let mat := take_rows mat sorted_indices in
  let mat := take_cols mat sorted_indices in
  pad_zeros n_atoms_max mat.

(** [SortedCoulombMatrix.coulomb_matrix(system)]. *)
Definition coulomb_matrix (n_atoms_max : nat) (sys : System) : res matrix :=
  let q := charges sys in
  let qiqj := outer_charges q in
  let idmat := inverse_distance_matrix sys in
  let! cmat := mat_times (length q) qiqj idmat in
  sort_and_pad n_atoms_max q cmat.

(** [SortedCoulombMatrix.describe(system)]. *)
Definition coulomb_describe (n_atoms_max : nat) (flatten : bool) (sys : System)
    : res matrix_output :=
  let! cmat := coulomb_matrix n_atoms_max sys in
  if flatten then ok (Matrix1D (concat cmat)) else ok (Matrix2D cmat).

(** [phi] of [SortedSineMatrix.sine_matrix]: for every pair of atoms
    [1 / |sin(pi * d . B_inv)**2 . B|]. *)
Definition sine_phi (B B_inv : mat3) (d : vec3) : R :=
  let arg_to_sin := vscale PI (vec_mat d B_inv) in
  let '(x, y, z) := arg_to_sin in
  let sin2 : vec3 := ((sin x * sin x)%R, (sin y * sin y)%R, (sin z * sin z)%R) in
  (/ norm3 (vec_mat sin2 B))%R.

(** [SortedSineMatrix.sine_matrix(system)]. *)
Definition sine_matrix (n_atoms_max : nat) (sys : System) : res matrix :=
  let B := lattice_matrix sys in
  let B_inv := lattice_inv_matrix sys in
  let diff_tensor := displacement_tensor sys in
  let phi := map (map (sine_phi B B_inv)) diff_tensor in
  let q := charges sys in
  let qiqj := outer_charges q in
  let! smat := mat_times (length q) qiqj phi in
  sort_and_pad n_atoms_max q smat.

(** [SortedSineMatrix.describe(system)]. *)
Definition sine_describe (n_atoms_max : nat) (flatten : bool) (sys : System)
    : res matrix_output :=
  let! smat := sine_matrix n_atoms_max sys in
  if flatten then ok (Matrix1D (concat smat)) else ok (Matrix2D smat).

(** [get_number_of_features()] of both descriptors: [int(n_atoms_max**2)]. *)
Definition matrix_number_of_features (n_atoms_max : nat) : Z :=
  (Z.of_nat n_atoms_max ^ 2)%Z.

End Matrix_descriptors.

(** ** Definitions that follow the words of the design document *)

(** The weight that the copy-count search looks at for [c] copies along an
    axis of length [axis_length]: the weighting function at [c] times the
    length, the distance doubled for orders above 2. *)
Definition weight_at (function : R -> R) (term_number : Z) (axis_length : R) (c : Z) : R :=
  function (if (term_number >? 2)%Z then (2 * (IZR c * axis_length))%R
            else (IZR c * axis_length)%R).

(** "The smallest non-negative integer copy-count [c] such that the
    weighting function ... falls below the configured cutoff." *)
Definition smallest_copy_count (function : R -> R) (cutoff : R) (term_number : Z)
    (axis_length : R) (c : Z) : Prop :=
  (0 <= c)%Z /\
  (weight_at function term_number axis_length c < cutoff)%R /\
  forall c' : Z, (0 <= c' < c)%Z ->
    ~ (weight_at function term_number axis_length c' < cutoff)%R.

(** A cell whose first vector is twice as long as the other two, with the
    weighting [exp(-x)] and the cutoff 0.3. *)
Definition c1_cell : mat3 := ((2, 0, 0), (0, 1, 0), (0, 0, 1))%R.
Definition c1_cutoff : R := (3 / 10)%R.

(** "min(atomic_numbers)" and "max(atomic_numbers)". *)
Definition is_minimum (z : Z) (l : list Z) : Prop :=
  In z l /\ forall x, In x l -> (z <= x)%Z.
Definition is_maximum (z : Z) (l : list Z) : Prop :=
  In z l /\ forall x, In x l -> (x <= z)%Z.

(** The default grids in the words of the design document: the margin
    [sqrt(2)*3*sigma], the ranges per order as (min, max, sigma), and
    [n = ceil((max-min)/sigma/4) + 1]. *)
Definition spec_margin (sigma : R) : R := (sqrt 2 * 3 * sigma)%R.

Definition spec_n (min_k max_k sigma : R) : Z :=
  (Zceil ((max_k - min_k) / sigma / 4) + 1)%Z.

Definition spec_default_range (order : Z) (zmin zmax : Z) : R * R * R :=
  match order with
  | 1%Z => let sigma := (1 / 10)%R in
           ((IZR zmin - spec_margin sigma)%R, (IZR zmax + spec_margin sigma)%R, sigma)
  | 2%Z => let sigma := (/ 2 ^ 7)%R in
           ((0 - spec_margin sigma)%R, (1 / (7 / 10) + spec_margin sigma)%R, sigma)
  | _ => let sigma := (/ (2 ^ 3 * sqrt 2))%R in
           ((-1 - spec_margin sigma)%R, (1 + spec_margin sigma)%R, sigma)
  end.

(** [get_k1_settings], [get_k2_settings] or [get_k3_settings] by order. *)
Definition settings_of (order : Z) (self : MBTR) : GridInfo :=
  match order with
  | 1%Z => get_k1_settings self
  | 2%Z => get_k2_settings self
  | _ => get_k3_settings self
  end.

(** A descriptor for the elements 1 and 6 and order 1, before [update]. *)
Definition example_config : Config :=
  mkConfig (K_iterable [1%Z]) [6%Z; 1%Z] None None false false true true.
Definition example_self : MBTR :=
  mkMBTR example_config empty_derived empty_call [].

(** The Gaussian broadening in the words of the design document: the
    weighted sum of Gaussian cumulative distribution functions at a
    boundary point, the [n+1] boundary points spaced by [dx] that start at
    [min - dx/2], and the consecutive differences divided by [dx]. *)
Definition spec_cdf_sum (erf : R -> R) (sigma : R) (pairs : list (R * R))
    (boundary : R) : R :=
  fold_right Rplus 0%R
    (map (fun vw : R * R =>
            (snd vw * 1 / 2 * (1 + erf ((boundary - fst vw) / (sigma * sqrt 2))))%R)
         pairs).

Definition spec_boundary (min_k dx : R) (i : nat) : R :=
  (min_k - dx / 2 + INR i * dx)%R.

Definition gaussian_sum_spec (erf : R -> R) (normalize_gaussians : bool)
    (min_k max_k sigma : R) (n : nat) (pairs : list (R * R)) : list R :=
  let dx := ((max_k - min_k) / (INR n - 1))%R in
  map (fun i =>
         let difference :=
           ((spec_cdf_sum erf sigma pairs (spec_boundary min_k dx (S i))
             - spec_cdf_sum erf sigma pairs (spec_boundary min_k dx i)) / dx)%R in
         if normalize_gaussians then difference
         else (difference / (1 / (sigma * sqrt (2 * PI))))%R)
      (seq 0 n).

(** A grid and two (value, weight) pairs. *)
Definition example_grid : GridInfo :=
  mkGridInfo (Some 0%R) (Some 1%R) (Some 1%R) (Some 3%nat).
Definition example_pairs : list (R * R) := [(0, 1); (1, 2)]%R.

(** The same grid with the width 0, and an object whose Gaussians are not
    normalised. *)
Definition zero_sigma_grid : GridInfo :=
  mkGridInfo (Some 0%R) (Some 1%R) (Some 0%R) (Some 3%nat).
Definition unnormalised_self : MBTR :=
  mkMBTR (mkConfig (K_iterable [1%Z]) [6%Z; 1%Z] None None false false false true)
         empty_derived empty_call [].

(** The exceptions that [update] raises while it checks the configuration. *)
Inductive configuration_error : exn -> Prop :=
| ce_k_is_int : configuration_error ValueError_k_is_int
| ce_k_not_a_set : configuration_error ValueError_k_not_a_set
| ce_k_invalid : configuration_error ValueError_k_invalid
| ce_unknown_weighting : configuration_error ValueError_unknown_weighting
| ce_missing_weighting_value key :
    configuration_error (ValueError_missing_weighting_value key)
| ce_periodic_weighting : configuration_error ValueError_periodic_weighting
| ce_weighting_key key : configuration_error (KeyError_weighting key)
| ce_weighting_None : configuration_error AttributeError_None
| ce_grid_key name : configuration_error (KeyError_grid name)
| ce_grid_assert : configuration_error AssertionError_grid
| ce_empty : configuration_error ValueError_empty_sequence.

(** "The weighting spec of order [order] is absent, None, or has function
    unity": no [weighting] dict, no entry for the order, an entry that is
    [None], or an entry whose function is ["unity"]. *)
Definition weighting_missing (w : option (gmap string (option WeightInfo)))
    (order : Z) : Prop :=
  match w with
  | None => True
  | Some w =>
      match w !! kkey order with
      | None => True
      | Some None => True
      | Some (Some weight_info) => w_function weight_info = Some "unity"
      end
  end.

(** The exception that leaves [update] for such an order when the entries
    of the other orders are in order: the first loop reads the entry with
    [self.weighting["k{}".format(k)]] and [weight_info.get("function")],
    the second loop raises the ValueError. *)
Definition missing_weighting_exception
    (w : option (gmap string (option WeightInfo))) (order : Z) : exn :=
  match w with
  | None => ValueError_periodic_weighting
  | Some w =>
      match w !! kkey order with
      | None => KeyError_weighting (kkey order)
      | Some None => AttributeError_None
      | Some (Some _) => ValueError_periodic_weighting
      end
  end.

(** A weighting dict whose entry for the order 2 is [None]. *)
Definition entry_none_weighting : gmap string (option WeightInfo) :=
  {[ "k2" := None ]}.

(** [set(...)] keeps exactly the elements of its argument. *)
Definition set_of_spec (set_of : list Z -> list Z) : Prop :=
  forall l x, In x (set_of l) <-> In x l.

(** An iteration order for sets of ints: ascending. *)
Definition set_ascending (l : list Z) : list Z :=
  sorted_Z (remove_dups l).

(** A structure with one hydrogen atom in a unit cell. *)
Definition example_system : System :=
  mkSystem [1%Z] [(0, 0, 0)%R] [(0, 0, 0)%R]
           ((1, 0, 0), (0, 1, 0), (0, 0, 1))%R true 1%R
           [1%R] [[0%R]] [[(0, 0, 0)%R]]
           ((1, 0, 0), (0, 1, 0), (0, 0, 1))%R
           ((1, 0, 0), (0, 1, 0), (0, 0, 1))%R.

(** The structure container's constructor, for a unit cell: fractional and
    Cartesian coordinates coincide, the other derived data are not used. *)
Definition unit_cell_System (pos : list vec3) (num : list Z) (c : mat3)
    (periodic_flag : bool) : System :=
  mkSystem num pos pos c periodic_flag 1%R (map IZR num) [] [] c c.

(** A wrapper that finds no combination at all. *)
Definition no_k1 (_ : list vec3) (_ : list Z) (_ : gmap Z nat) (_ : option nat)
    : gmap nat (list R) * gmap nat (list R) := (∅, ∅).
Definition no_k2 (_ : list vec3) (_ : list Z) (_ : gmap Z nat) (_ : option nat)
    (_ : string) (_ : option (R * R))
    : gmap (nat * nat) (list R) * gmap (nat * nat) (list R) := (∅, ∅).
Definition no_k3 (_ : list vec3) (_ : list Z) (_ : gmap Z nat) (_ : option nat)
    (_ : string) (_ : option (R * R))
    : gmap (nat * nat * nat) (list R) * gmap (nat * nat * nat) (list R) := (∅, ∅).


(** A structure with one oxygen atom in a unit cell. *)
Definition oxygen_system : System :=
  mkSystem [8%Z] [(0, 0, 0)%R] [(0, 0, 0)%R]
           ((1, 0, 0), (0, 1, 0), (0, 0, 1))%R false 1%R
           [8%R] [[0%R]] [[(0, 0, 0)%R]]
           ((1, 0, 0), (0, 1, 0), (0, 0, 1))%R
           ((1, 0, 0), (0, 1, 0), (0, 0, 1))%R.

(** The matrix that [sort_and_pad] builds, entry by entry: inside the
    leading [n x n] block the entry of the matrix with its diagonal set, read
    at the sorted indices, and zero elsewhere. *)
Definition sorted_padded (argsort : list R -> list nat) (n_atoms_max : nat)
    (q : list R) (mat : matrix) : matrix :=
  let n := length q in
  let filled := fill_diagonal n mat (map (fun z => (5 / 10 * pow_2_4 z)%R) q) in
  let idx := rev (argsort (norms_axis1 filled)) in
  tabulate n_atoms_max n_atoms_max
    (fun i j => if (i <? n)%nat && (j <? n)%nat
                then entry filled (nth i idx 0%nat) (nth j idx 0%nat) else 0%R).

(** "M[i][j] = M[j][i] for all i, j". *)
Definition symmetric (m : matrix) : Prop :=
  forall i j, entry m i j = entry m j i.

(** "||row_i|| >= ||row_{i+1}|| for every i". *)
Definition rows_descending (m : matrix) : Prop :=
  forall i, (S i < length m)%nat ->
    (row_norm (nth (S i) m []) <= row_norm (nth i m []))%R.

(** "The displacement tensor is odd under index swap". *)
Definition vneg (v : vec3) : vec3 :=
  let '(x, y, z) := v in ((- x)%R, (- y)%R, (- z)%R).
Definition antisymmetric_tensor (t : list (list vec3)) : Prop :=
  forall i j, nth j (nth i t []) (0, 0, 0)%R = vneg (nth i (nth j t []) (0, 0, 0)%R).

(** The values and the weights of a combination can be multiplied row by
    row: equally many, or a single one of either. *)
Definition broadcastable (centers weights : list R) : Prop :=
  length centers = length weights \/ length weights = 1%nat \/
  length centers = 1%nat.

(** The wrapper's contract on a pair (geoms, weights): every combination
    with geometry values has weights that go with the values. *)
Definition covers {K} `{Countable K} (g w : gmap K (list R)) : Prop :=
  forall key vs, g !! key = Some vs ->
    exists ws, w !! key = Some ws /\ broadcastable vs ws.

(** "n_elements*(n_elements+1)/2" and "n_elements*n_elements*(n_elements+1)/2":
    the number of combinations of order 2 and 3 that the flattened output
    has room for. *)
Definition slots2 (n_elem : nat) : nat := (n_elem * (n_elem + 1) / 2)%nat.
Definition slots3 (n_elem : nat) : nat := (n_elem * n_elem * (n_elem + 1) / 2)%nat.

(** A method call that returns: it ends in a state and a value that satisfy
    the postcondition [Q]. *)
Definition returns {A} (m : M A) (s : MBTR) (Q : A -> MBTR -> Prop) : Prop :=
  exists s' a, m s = (s', inr a) /\ Q a s'.




(** The cached geometry values of an order are there and fit the tensor. *)
Definition k1_ready (s : MBTR) : Prop :=
  exists g w,
    k1_geoms (call s) = Some g /\ k1_weights (call s) = Some w /\ covers g w /\
    forall i, is_Some (g !! i) -> (i < n_elements (derived s))%nat.

Definition k2_ready (s : MBTR) : Prop :=
  exists g w,
    k2_geoms (call s) = Some g /\ k2_weights (call s) = Some w /\ covers g w /\
    (size g <= slots2 (n_elements (derived s)))%nat /\
    forall i j, is_Some (g !! (i, j)) ->
      (i < n_elements (derived s))%nat /\ (j < n_elements (derived s))%nat.

Definition k3_ready (s : MBTR) : Prop :=
  exists g w,
    k3_geoms (call s) = Some g /\ k3_weights (call s) = Some w /\ covers g w /\
    (size g <= slots3 (n_elements (derived s)))%nat /\
    forall i j k, is_Some (g !! (i, j, k)) ->
      (i < n_elements (derived s))%nat /\ (j < n_elements (derived s))%nat /\
      (k < n_elements (derived s))%nat.

(** The grid of an order has its four fields. *)
Definition complete_grid (info : GridInfo) : Prop :=
  exists min_k max_k sigma n,
    g_min info = Some min_k /\ g_max info = Some max_k /\
    g_sigma info = Some sigma /\ g_n info = Some n.

(** The two divisions of [gaussian_sum] are defined on a grid: [n] is not
    1, and [sigma] is not 0 unless the Gaussians are normalised. *)
Definition divisions_defined (normalize : bool) (info : GridInfo) : Prop :=
  g_n info <> Some 1%nat /\ (normalize = true \/ g_sigma info <> Some 0%R).

(** A grid on which [gaussian_sum] returns. *)
Definition usable_grid (normalize : bool) (info : GridInfo) : Prop :=
  complete_grid info /\ divisions_defined normalize info.

(** The number of grid points of an order, 0 when the grid has no [n]. *)
Definition grid_n (order : Z) (self : MBTR) : nat :=
  match g_n (settings_of order self) with
  | Some n => n
  | None => 0
  end.

(** "n_elements*n for order 1, n_elements*(n_elements+1)/2*n for order 2,
    and n_elements*n_elements*(n_elements+1)/2*n for order 3": the
    contribution of an order to the feature count, 0 when the order is not
    requested. *)
Definition contribution (order : Z) (self : MBTR) : nat :=
  if k_contains order (k (cfg self)) then
    match order with
    | 1%Z => n_elements (derived self) * grid_n 1 self
    | 2%Z => slots2 (n_elements (derived self)) * grid_n 2 self
    | _ => slots3 (n_elements (derived self)) * grid_n 3 self
    end
  else 0.

(** The shape of the dense array of an order. *)
Definition dense_shape (order : Z) (self : MBTR) : list nat :=
  let n_elem := n_elements (derived self) in
  match order with
  | 1%Z => [n_elem; grid_n 1 self]
  | 2%Z => [n_elem; n_elem; grid_n 2 self]
  | _ => [n_elem; n_elem; n_elem; grid_n 3 self]
  end.

(** The requested orders, ascending. *)
Definition requested_orders (self : MBTR) : list Z :=
  List.filter (fun order => k_contains order (k (cfg self))) [1; 2; 3]%Z.

(** "The product of the dense shape". *)
Definition shape_product (sh : list nat) : nat := fold_right Nat.mul 1%nat sh.

(** The width of the flattened tensor of an order. *)
Definition tensor_width (order : Z) (self : MBTR) : nat :=
  match order with
  | 1%Z => n_elements (derived self) * grid_n 1 self
  | 2%Z => slots2 (n_elements (derived self)) * grid_n 2 self
  | _ => slots3 (n_elements (derived self)) * grid_n 3 self
  end.

(** A tensor built for [order] has the shape and the number of entries of the
    output mode. *)
Definition part_fits (self : MBTR) (order : Z) (t : ndarray) : Prop :=
  if flatten (cfg self)
  then shape t = [1%nat; tensor_width order self] /\
       length (data t) = tensor_width order self
  else shape t = dense_shape order self /\
       length (data t) = shape_product (shape t).

(** [s'] differs from [s] in the axes and the log only. *)
Definition same_inputs (s s' : MBTR) : Prop :=
  cfg s' = cfg s /\ derived s' = derived s /\
  system (call s') = system (call s) /\
  k1_geoms (call s') = k1_geoms (call s) /\
  k1_weights (call s') = k1_weights (call s) /\
  k2_geoms (call s') = k2_geoms (call s) /\
  k2_weights (call s') = k2_weights (call s) /\
  k3_geoms (call s') = k3_geoms (call s) /\
  k3_weights (call s') = k3_weights (call s).

(** The total of the three contributions. *)
Definition total_features (self : MBTR) : nat :=
  contribution 1 self + contribution 2 self + contribution 3 self.

(** What [describe] hands back: one row of [total_features] entries when
    flattened, else one array per requested order with its dense shape. *)
Definition output_fits (self : MBTR) (out : output) : Prop :=
  match out with
  | Flat v =>
      flatten (cfg self) = true /\
      shape v = [1%nat; total_features self] /\
      length (data v) = total_features self
  | Dense parts =>
      flatten (cfg self) = false /\
      map shape parts = map (fun order => dense_shape order self) (requested_orders self) /\
      Forall (fun t => length (data t) = shape_product (shape t)) parts
  end.


(** An object for the orders [{2}] over hydrogen and carbon with the dense
    output and a grid of two points. *)
Definition two_point_grid : GridInfo :=
  {| g_min := Some 0%R; g_max := Some 1%R; g_sigma := Some (1 / 10)%R;
     g_n := Some 2%nat |}.
Definition dense_config : Config :=
  mkConfig (K_iterable [2%Z]) [1%Z; 6%Z] (Some {[ "k2" := two_point_grid ]}) None
           false false true false.

(** "Ascending lexicographic order over all non-decreasing element-index
    tuples": the pairs [(i, j)] with [i <= j] and the triples [(i, j, k)]
    with [i <= j <= k] below [n_elem], in that order, and the rank of a
    tuple among them. *)
Definition all_pairs (n_elem : nat) : list (nat * nat) :=
  flat_map (fun i => map (fun j => (i, j)) (seq i (n_elem - i))) (seq 0 n_elem).

Definition all_triples (n_elem : nat) : list (nat * nat * nat) :=
  flat_map (fun i =>
    flat_map (fun j => map (fun k => (i, j, k)) (seq j (n_elem - j)))
             (seq i (n_elem - i)))
    (seq 0 n_elem).

Fixpoint rank_of {A} `{EqDecision A} (x : A) (l : list A) : option nat :=
  match l with
  | [] => None
  | y :: t => if decide (x = y) then Some 0%nat else option_map S (rank_of x t)
  end.

(** "Columns [[m*n, (m+1)*n)]" of a row. *)
Definition columns (m n : nat) (row : list R) : list R :=
  firstn n (skipn (m * n) row).

(** An object for two declared elements with the flattened output, after
    the wrapper found the combinations of the maps [g] and [w]. *)
Definition flat_config : Config :=
  mkConfig (K_iterable [2%Z; 3%Z]) [1%Z; 6%Z] None None false false true true.
Definition two_elements : Derived :=
  mkDerived 2 (index_map [1%Z; 6%Z]) (reverse_index_map [1%Z; 6%Z]) 6 1.
Definition pairs_self (g w : gmap (nat * nat) (list R)) : MBTR :=
  mkMBTR flat_config two_elements (set_k2 (g, w) empty_call) [].
Definition triples_self (g w : gmap (nat * nat * nat) (list R)) : MBTR :=
  mkMBTR flat_config two_elements (set_k3 (g, w) empty_call) [].

(** A periodic object for the order 2 with the weighting [exp(-x)] and the
    cutoff 0.3. *)
Definition expansion_weighting : gmap string (option WeightInfo) :=
  {[ "k2" := Some (mkWeightInfo (Some "exponential") (Some 1%R) (Some (3 / 10)%R)) ]}.
Definition expansion_config : Config :=
  mkConfig (K_iterable [2%Z]) [1%Z] None (Some expansion_weighting)
           true false true true.
Definition expansion_self : MBTR :=
  mkMBTR expansion_config empty_derived empty_call [].

(** The structure container keeps the atoms, the cell and the flag it is
    built from. *)
Definition System_new_spec
    (System_new : list vec3 -> list Z -> mat3 -> bool -> System) : Prop :=
  forall pos num c flag,
    positions (System_new pos num c flag) = pos /\
    numbers (System_new pos num c flag) = num /\
    cell (System_new pos num c flag) = c /\
    pbc (System_new pos num c flag) = flag.


(** Methods that leave the configuration and the derived scalars alone. *)
Definition frame_cfg {A} (m : M A) : Prop :=
  forall s, cfg (fst (m s)) = cfg s /\ derived (fst (m s)) = derived s.

(** A periodic object for the order 2 whose cutoff is zero. *)
Definition endless_weighting : gmap string (option WeightInfo) :=
  {[ "k2" := Some (mkWeightInfo (Some "exponential") (Some 1%R) (Some 0%R)) ]}.
Definition endless_self : MBTR :=
  mkMBTR (mkConfig (K_iterable [2%Z]) [1%Z] None (Some endless_weighting)
                   true false true true)
         empty_derived empty_call [].

(** The distance that the weighting function is applied to for an image
    atom at [p] and an atom of the original cell at [q]. *)
Definition image_distance (term_number : Z) (p q : vec3) : R :=
  if (term_number >? 2)%Z then (norm3 (vsub p q) * 2)%R else norm3 (vsub p q).

(** The sum of a list of reals. *)
Definition Rsum (l : list R) : R := fold_right Rplus 0%R l.

(** Every weight multiplied by [c]. *)
Definition scale_weights (c : R) (pairs : list (R * R)) : list (R * R) :=
  map (fun vw => (fst vw, (c * snd vw)%R)) pairs.

(** An object for two declared elements with the flattened output, after
    the wrapper counted the atoms of each element. *)
Definition elements_self (g w : gmap nat (list R)) : MBTR :=
  mkMBTR flat_config two_elements (set_k1 (g, w) empty_call) [].

(** The sequence that [gaussian_sum] returns, empty when it raises. *)
Definition broadened (r : res (list R)) : list R :=
  match r with
  | inr pdf => pdf
  | inl _ => []
  end.

(** Cached values of a structure with carbon only: one atom count, one pair
    and one triple. *)
Definition carbon_counts : gmap nat (list R) := {[ 1%nat := [6%R] ]}.
Definition carbon_count_weights : gmap nat (list R) := {[ 1%nat := [1%R] ]}.
Definition carbon_pairs : gmap (nat * nat) (list R) :=
  {[ (1%nat, 1%nat) := [(1 / 2)%R] ]}.
Definition carbon_pair_weights : gmap (nat * nat) (list R) :=
  {[ (1%nat, 1%nat) := [1%R] ]}.
Definition carbon_triples : gmap (nat * nat * nat) (list R) :=
  {[ (1%nat, 1%nat, 1%nat) := [(1 / 2)%R] ]}.
Definition carbon_triple_weights : gmap (nat * nat * nat) (list R) :=
  {[ (1%nat, 1%nat, 1%nat) := [1%R] ]}.

(** An object for two declared elements with the dense output. *)
Definition dense_pairs_self (g w : gmap (nat * nat) (list R)) : MBTR :=
  mkMBTR dense_config two_elements (set_k2 (g, w) empty_call) [].
Definition dense_triples_self (g w : gmap (nat * nat * nat) (list R)) : MBTR :=
  mkMBTR dense_config two_elements (set_k3 (g, w) empty_call) [].





(** An object with the cached values of the carbon pair and the dense
    output, and a grid of three points for the order 2. *)
Definition regrid_self : MBTR :=
  dense_pairs_self carbon_pairs carbon_pair_weights.

(** The object with [normalize_by_volume] switched on. *)
Definition by_volume (s : MBTR) : MBTR :=
  set_cfg (mkConfig (k (cfg s)) (atomic_numbers (cfg s)) (grid (cfg s))
                    (weighting (cfg s)) (periodic (cfg s)) true
                    (normalize_gaussians (cfg s)) (flatten (cfg s))) s.

(** Every value of an output divided by [volume]. *)
Definition divide_array (volume : R) (a : ndarray) : ndarray :=
  mkArray (shape a) (map (fun v => (v / volume)%R) (data a)).
Definition divide_output (volume : R) (out : output) : output :=
  match out with
  | Flat v => Flat (divide_array volume v)
  | Dense parts => Dense (map (divide_array volume) parts)
  end.

(** The object of the carbon pair once it has seen a structure. *)
Definition volume_self : MBTR :=
  mkMBTR dense_config two_elements
         (set_k2 (carbon_pairs, carbon_pair_weights)
                 (reset_call example_system empty_call)) [].

(** A structure with an oxygen and a hydrogen atom, one length unit apart
    along x, in a cubic cell of edge 2. *)
Definition hydroxyl_system : System :=
  mkSystem [8%Z; 1%Z] [(0, 0, 0)%R; (1, 0, 0)%R]
           [(0, 0, 0)%R; (1 / 2, 0, 0)%R]
           ((2, 0, 0), (0, 2, 0), (0, 0, 2))%R false 8%R
           [8%R; 1%R]
           [[0%R; 1%R]; [1%R; 0%R]]
           [[(0, 0, 0)%R; (-1, 0, 0)%R]; [(1, 0, 0)%R; (0, 0, 0)%R]]
           ((2, 0, 0), (0, 2, 0), (0, 0, 2))%R
           ((1 / 2, 0, 0), (0, 1 / 2, 0), (0, 0, 1 / 2))%R.

(** The entry that the padded matrix holds at row [i] and column [j] when
    row [i] is atom [a] and row [j] is atom [b]. *)
Definition expected_entry (q : list R) (pair : matrix) (i j a b : nat) : R :=
  if (i =? j)%nat then (5 / 10 * pow_2_4 (item q a))%R
  else (item q a * item q b * entry pair a b)%R.

(** The amended sixth claim in its own words. The image of an atom at the
    fractional position [rel] in the copy [(i, j, k)] of the cell. *)
Definition image_position (cell : mat3) (copy : Z * Z * Z) (rel : vec3) : vec3 :=
  let '(i, j, k) := copy in
  vec_mat (vsub (vsub (vsub rel (vscale (IZR i) (1, 0, 0)%R))
                      (vscale (IZR j) (0, 1, 0)%R))
                (vscale (IZR k) (0, 0, 1)%R))
          cell.

(** "The weight of the image towards some atom of the input reaches the
    cutoff". *)
Definition reaches_cutoff (function : R -> R) (cutoff : R) (term_number : Z)
    (cartesian_pos : list vec3) (p : vec3) : bool :=
  existsb (fun q => Rgeb (function (image_distance term_number p q)) cutoff)
          cartesian_pos.

(** The copies of the cell within the copy counts, the cell itself left
    out, in the order of the triple loop. *)
Definition image_cells (n_copies_axis : list Z) : list (Z * Z * Z) :=
  let nc (axis : nat) : Z := nth axis n_copies_axis 0%Z in
  flat_map (fun i =>
    flat_map (fun j =>
      flat_map (fun k =>
        if ((i =? 0) && (j =? 0) && (k =? 0))%Z then [] else [(i, j, k)])
        (zrange (- nc 2%nat) (nc 2%nat + 1)))
      (zrange (- nc 1%nat) (nc 1%nat + 1)))
    (zrange (- nc 0%nat) (nc 0%nat + 1)).

(** "The kept image atoms": copy by copy, the images of the atoms of the
    input, in the order of the input, that reach the cutoff; each with its
    atomic number. *)
Definition kept_atoms (function : R -> R) (cutoff : R) (term_number : Z)
    (n_copies_axis : list Z) (sys : System) : list (vec3 * Z) :=
  flat_map (fun copy =>
    List.filter
      (fun atom => reaches_cutoff function cutoff term_number (positions sys)
                                  (fst atom))
      (map (fun rz => (image_position (cell sys) copy (fst rz), snd rz))
           (combine (scaled_positions sys) (numbers sys))))
    (image_cells n_copies_axis).

(** * Properties *)

(** ** The copy-count search of [create_extended_system] *)

Lemma copies_loop_sound fuel function cutoff length0 term n0 c :
  copies_loop fuel function cutoff length0 term n0 = ok c ->
  (n0 < c)%Z /\
  (weight_at function term length0 c < cutoff)%R /\
  forall c', (n0 < c' < c)%Z -> ~ (weight_at function term length0 c' < cutoff)%R.
Proof.
  revert n0. induction fuel as [|fuel IH]; intros n0; simpl; [discriminate|].
  destruct (Rlt_dec _ cutoff) as [Hlt|Hge].
  - intros [= <-]. split; [lia|]. split; [exact Hlt|]. intros c' Hc'. lia.
  - intros H. apply IH in H as (H1 & H2 & H3).
    split; [lia|]. split; [exact H2|].
    intros c' Hc'. destruct (Z.eq_dec c' (n0 + 1)%Z) as [->|Hne].
    + exact Hge.
    + apply H3. lia.
Qed.

Lemma copies_loop_complete function cutoff length0 term c :
  forall fuel n0,
  (n0 < c)%Z ->
  (weight_at function term length0 c < cutoff)%R ->
  (forall c', (n0 < c' < c)%Z -> ~ (weight_at function term length0 c' < cutoff)%R) ->
  (Z.to_nat (c - n0) <= fuel)%nat ->
  copies_loop fuel function cutoff length0 term n0 = ok c.
Proof.
  induction fuel as [|fuel IH]; intros n0 Hlt Hw Hmin Hfuel; [lia|].
  simpl. destruct (Rlt_dec _ cutoff) as [Hlt'|Hge].
  - destruct (Z.eq_dec (n0 + 1)%Z c) as [->|Hne]; [reflexivity|].
    exfalso. apply (Hmin (n0 + 1)%Z); [lia|exact Hlt'].
  - destruct (Z.eq_dec (n0 + 1)%Z c) as [Heq|Hne].
    + subst c. contradiction.
    + apply IH; try lia; auto. intros c' Hc'. apply Hmin. lia.
Qed.


Lemma exp_1_gt_2 : (2 < exp 1)%R.
Proof. pose proof (exp_ineq1 1) as H. lra. Qed.

Lemma exp_minus_1_ge : (3 / 10 <= exp (- 1))%R.
Proof.
  replace (-1)%R with (Ropp 1) by lra.
  rewrite exp_Ropp. pose proof exp_le_3. pose proof exp_1_gt_2.
  apply Rle_trans with (/ 3)%R; [lra|].
  apply Rinv_le_contravar; lra.
Qed.

Lemma exp_minus_2_lt : (exp (- 2) < 3 / 10)%R.
Proof.
  replace (-2)%R with (Ropp (1 + 1)) by lra.
  rewrite exp_Ropp, exp_plus. pose proof exp_1_gt_2.
  apply Rlt_trans with (/ 4)%R; [|lra].
  apply Rinv_lt_contravar; nra.
Qed.

Lemma norm3_axis_x a : (0 <= a)%R -> norm3 (a, 0, 0)%R = a.
Proof.
  intros Ha. unfold norm3.
  replace (a * a + 0 * 0 + 0 * 0)%R with (a * a)%R by ring.
  apply sqrt_square; exact Ha.
Qed.

Lemma norm3_axis_y a : (0 <= a)%R -> norm3 (0, a, 0)%R = a.
Proof.
  intros Ha. unfold norm3.
  replace (0 * 0 + a * a + 0 * 0)%R with (a * a)%R by ring.
  apply sqrt_square; exact Ha.
Qed.

Lemma weight_at_exp1 (c : Z) (len : R) :
  weight_at (exponential_weighting 1) 2 len c = exp (- (IZR c * len)).
Proof.
  unfold weight_at, exponential_weighting. simpl. f_equal. ring.
Qed.

(** C1 (evaluation at the failing input). With cell vectors of lengths
    2, 1, 1, the weighting exp(-x), cutoff 0.3 and order 2, the loop of
    [create_extended_system] bounds every axis by 1 copy: it evaluates the
    weighting function at multiples of the first cell vector's length for
    all three axes. For the second axis, whose own length is 1, the smallest
    copy count whose weight falls below the cutoff is 2, and 1 is not such a
    count. *)
Theorem C1_copy_counts_read_first_axis :
  copy_counts 3 (exponential_weighting 1) c1_cutoff 2 (row_norms c1_cell)
    = ok [1; 1; 1]%Z /\
  nth 1 (row_norms c1_cell) 0%R = 1%R /\
  smallest_copy_count (exponential_weighting 1) c1_cutoff 2 1 2 /\
  ~ smallest_copy_count (exponential_weighting 1) c1_cutoff 2 1 1.
Proof.
  split; [|split; [|split]].
  - assert (Hloop : copies_loop 3 (exponential_weighting 1) c1_cutoff 2 2 (-1)
                    = ok 1%Z).
    { apply copies_loop_complete; try lia.
      - rewrite weight_at_exp1. unfold c1_cutoff.
        replace (- (1 * 2))%R with (-2)%R by lra. exact exp_minus_2_lt.
      - intros c' Hc'. assert (c' = 0%Z) as -> by lia.
        rewrite weight_at_exp1. unfold c1_cutoff.
        replace (- (0 * 2))%R with 0%R by lra. rewrite exp_0. lra. }
    unfold copy_counts, row_norms, c1_cell.
    cbn [nth rmapM]. rewrite norm3_axis_x by lra.
    rewrite Hloop. reflexivity.
  - unfold row_norms, c1_cell. cbn [nth]. apply norm3_axis_y. lra.
  - split; [lia|]. split.
    + rewrite weight_at_exp1. unfold c1_cutoff.
      replace (- (2 * 1))%R with (-2)%R by lra. exact exp_minus_2_lt.
    + intros c' Hc'. rewrite weight_at_exp1. unfold c1_cutoff.
      assert (c' = 0%Z \/ c' = 1%Z) as [-> | ->] by lia.
      * replace (- (0 * 1))%R with 0%R by lra. rewrite exp_0. lra.
      * replace (- (1 * 1))%R with (-1)%R by lra.
        pose proof exp_minus_1_ge. lra.
  - intros (_ & Hw & _). rewrite weight_at_exp1 in Hw. unfold c1_cutoff in Hw.
    replace (- (1 * 1))%R with (-1)%R in Hw by lra.
    pose proof exp_minus_1_ge. lra.
Qed.

(** ** [update] *)

Ltac unfold_M :=
  unfold mbind', mget, mret, mraise, mlift, mmodify, ok, raise; cbv beta iota.

(** What a successful [update] has checked and what it leaves in the object. *)
Lemma update_success set_of self self' :
  update set_of self = (self', inr tt) ->
  exists l mx mn,
    k (cfg self) = K_iterable l /\
    forallb supported_k (set_of l) = true /\
    match weighting (cfg self) with
    | Some w => rfor (set_of l) (check_weighting_info w)
    | None => ok tt
    end = ok tt /\
    (if periodic (cfg self)
     then rfor (set_of l) (check_periodic_weighting (weighting (cfg self)))
     else ok tt) = ok tt /\
    check_grid (set_of l) (grid (cfg self)) = ok tt /\
    py_max (sorted_Z (atomic_numbers (cfg self))) = ok mx /\
    py_min (sorted_Z (atomic_numbers (cfg self))) = ok mn /\
    self' =
      mkMBTR (set_atomic_numbers (sorted_Z (atomic_numbers (cfg self)))
                (set_k (K_iterable (set_of l)) (cfg self)))
             (mkDerived (length (sorted_Z (atomic_numbers (cfg self))))
                        (index_map (sorted_Z (atomic_numbers (cfg self))))
                        (reverse_index_map (sorted_Z (atomic_numbers (cfg self))))
                        mx mn)
             (call self) (log self).
Proof.
  unfold update. unfold_M.
  destruct (k (cfg self)) as [z|l|] eqn:Hk; cbv beta iota; try discriminate.
  destruct (forallb supported_k (set_of l)) eqn:Hs; cbv beta iota; [|discriminate].
  destruct (match weighting (cfg self) with Some w => _ | None => _ end)
    as [e|[]] eqn:Hw; cbv beta iota; [discriminate|].
  destruct (if periodic (cfg self) then _ else _) as [e|[]] eqn:Hp;
    cbv beta iota; [discriminate|].
  destruct (check_grid (set_of l) (grid (cfg self))) as [e|[]] eqn:Hg;
    cbv beta iota; [discriminate|].
  destruct (py_max _) as [e|mx] eqn:Hmx; cbv beta iota; [discriminate|].
  destruct (py_min _) as [e|mn] eqn:Hmn; cbv beta iota; [discriminate|].
  intros H. injection H as <-.
  exists l, mx, mn. repeat split; auto.
Qed.

Lemma fold_left_min_spec t : forall x,
  is_minimum (fold_left Z.min t x) (x :: t).
Proof.
  induction t as [|y t IH]; intros x; simpl.
  - split; [left; reflexivity|]. intros z [<-|[]]. lia.
  - destruct (IH (Z.min x y)) as [Hin Hle]. split.
    + destruct Hin as [Heq|Hin]; [|right; right; exact Hin].
      rewrite <- Heq. destruct (Z.min_spec x y) as [[_ ->]|[_ ->]]; simpl; auto.
    + intros z [<-|[<-|Hz]].
      * etransitivity; [apply Hle; left; reflexivity|lia].
      * etransitivity; [apply Hle; left; reflexivity|lia].
      * apply Hle. right. exact Hz.
Qed.

Lemma fold_left_max_spec t : forall x,
  is_maximum (fold_left Z.max t x) (x :: t).
Proof.
  induction t as [|y t IH]; intros x; simpl.
  - split; [left; reflexivity|]. intros z [<-|[]]. lia.
  - destruct (IH (Z.max x y)) as [Hin Hle]. split.
    + destruct Hin as [Heq|Hin]; [|right; right; exact Hin].
      rewrite <- Heq. destruct (Z.max_spec x y) as [[_ ->]|[_ ->]]; simpl; auto.
    + intros z [<-|[<-|Hz]].
      * etransitivity; [|apply Hle; left; reflexivity]. lia.
      * etransitivity; [|apply Hle; left; reflexivity]. lia.
      * apply Hle. right. exact Hz.
Qed.

Lemma py_min_spec l m : py_min l = ok m -> is_minimum m l.
Proof. destruct l; [discriminate|]. intros [= <-]. apply fold_left_min_spec. Qed.

Lemma py_max_spec l m : py_max l = ok m -> is_maximum m l.
Proof. destruct l; [discriminate|]. intros [= <-]. apply fold_left_max_spec. Qed.

Lemma sorted_Z_In l x : In x (sorted_Z l) <-> In x l.
Proof.
  unfold sorted_Z. split; apply Permutation_in; [|symmetry];
    apply merge_sort_Permutation.
Qed.

Lemma is_minimum_sorted m l : is_minimum m (sorted_Z l) -> is_minimum m l.
Proof.
  intros [H1 H2]. split; [apply sorted_Z_In; exact H1|].
  intros x Hx. apply H2. apply sorted_Z_In. exact Hx.
Qed.

Lemma is_maximum_sorted m l : is_maximum m (sorted_Z l) -> is_maximum m l.
Proof.
  intros [H1 H2]. split; [apply sorted_Z_In; exact H1|].
  intros x Hx. apply H2. apply sorted_Z_In. exact Hx.
Qed.

(** ** Default grids *)

(** [2**(-7)] is 1/128 and [2**(-3.5)] is 1/(8*sqrt(2)). *)
Lemma sigma_k2_default_value : sigma_k2_default = (/ 2 ^ 7)%R.
Proof.
  unfold sigma_k2_default.
  replace (-7)%R with (Ropp (INR 7)) by (simpl; lra).
  rewrite Rpower_Ropp, Rpower_pow by lra. reflexivity.
Qed.

Lemma sigma_k3_default_value : sigma_k3_default = (/ (2 ^ 3 * sqrt 2))%R.
Proof.
  unfold sigma_k3_default.
  replace (-3.5)%R with (Ropp (INR 3 + / 2)) by (simpl; lra).
  rewrite Rpower_Ropp, Rpower_plus, Rpower_pow, Rpower_sqrt by lra. reflexivity.
Qed.

Lemma sqrt2_pos : (0 < sqrt 2)%R.
Proof. apply sqrt_lt_R0. lra. Qed.

Lemma grid_ratio_nonneg a s : (0 <= a)%R -> (0 < s)%R -> (0 <= a / s / 4)%R.
Proof.
  intros Ha Hs. unfold Rdiv.
  apply Rmult_le_pos; [|lra].
  apply Rmult_le_pos; [exact Ha|]. left. apply Rinv_0_lt_compat. exact Hs.
Qed.

Lemma default_n_spec min_k max_k sigma :
  (0 <= max_k - min_k)%R -> (0 < sigma)%R ->
  Z.of_nat (default_n min_k max_k sigma) = spec_n min_k max_k sigma.
Proof.
  intros H Hs. unfold default_n, spec_n.
  assert (0 <= Zceil ((max_k - min_k) / sigma / 4))%Z.
  { apply le_IZR.
    pose proof (Zceil_bound ((max_k - min_k) / sigma / 4)).
    pose proof (grid_ratio_nonneg _ _ H Hs). lra. }
  lia.
Qed.

(** C8. After [update], when the grid dict has no entry for an order, the
    settings of that order are the default grid of the design document:
    order 1 has sigma = 0.1 and the range from the smallest to the largest
    declared atomic number, order 2 has sigma = 2^-7 and the range
    [0, 1/0.7], order 3 has sigma = 2^-3.5 and the range [-1, 1], each range
    widened by sqrt(2)*3*sigma on both sides, and n is
    ceil((max-min)/sigma/4) + 1. *)
Theorem C8_default_grids set_of self self' :
  update set_of self = (self', inr tt) ->
  exists zmin zmax,
    is_minimum zmin (atomic_numbers (cfg self)) /\
    is_maximum zmax (atomic_numbers (cfg self)) /\
    forall order, (1 <= order <= 3)%Z ->
      explicit_grid self' (kkey order) = None ->
      exists n,
        settings_of order self' =
          (let '(min_k, max_k, sigma) := spec_default_range order zmin zmax in
           mkGridInfo (Some min_k) (Some max_k) (Some sigma) (Some n)) /\
        Z.of_nat n =
          (let '(min_k, max_k, sigma) := spec_default_range order zmin zmax in
           spec_n min_k max_k sigma).
Proof.
  intros Hup.
  destruct (update_success _ _ _ Hup)
    as (l & mx & mn & _ & _ & _ & _ & _ & Hmx & Hmn & ->).
  apply py_max_spec, is_maximum_sorted in Hmx.
  apply py_min_spec, is_minimum_sorted in Hmn.
  exists mn, mx. split; [exact Hmn|]. split; [exact Hmx|].
  intros order Horder Hgrid.
  assert (Hle : (IZR mn <= IZR mx)%R).
  { apply IZR_le. apply Hmn. apply Hmx. }
  pose proof sqrt2_pos as Hsqrt.
  assert (order = 1 \/ order = 2 \/ order = 3)%Z as [-> | [-> | ->]] by lia.
  - cbn [settings_of kkey] in *. unfold get_k1_settings. rewrite Hgrid.
    cbn [derived min_atomic_number max_atomic_number spec_default_range].
    eexists. split; [reflexivity|].
    apply default_n_spec; unfold spec_margin, decay_factor in *; nra.
  - cbn [settings_of kkey] in *. unfold get_k2_settings. rewrite Hgrid.
    cbn [spec_default_range]. rewrite sigma_k2_default_value.
    eexists. split; [reflexivity|].
    assert (0 < / 2 ^ 7)%R by (apply Rinv_0_lt_compat; lra).
    apply default_n_spec; unfold spec_margin, decay_factor in *; nra.
  - cbn [settings_of kkey] in *. unfold get_k3_settings. rewrite Hgrid.
    cbn [spec_default_range]. rewrite sigma_k3_default_value.
    eexists. split; [reflexivity|].
    assert (0 < / (2 ^ 3 * sqrt 2))%R by (apply Rinv_0_lt_compat; nra).
    apply default_n_spec; unfold spec_margin, decay_factor in *; nra.
Qed.

Lemma C8_default_grids_witness :
  exists self',
    update (fun l => l) example_self = (self', inr tt) /\
    exists zmin zmax,
      is_minimum zmin (atomic_numbers (cfg example_self)) /\
      is_maximum zmax (atomic_numbers (cfg example_self)) /\
      forall order, (1 <= order <= 3)%Z ->
        explicit_grid self' (kkey order) = None ->
        exists n,
          settings_of order self' =
            (let '(min_k, max_k, sigma) := spec_default_range order zmin zmax in
             mkGridInfo (Some min_k) (Some max_k) (Some sigma) (Some n)) /\
          Z.of_nat n =
            (let '(min_k, max_k, sigma) := spec_default_range order zmin zmax in
             spec_n min_k max_k sigma).
Proof.
  eexists. split; [vm_compute; reflexivity|].
  apply (C8_default_grids (fun l => l) example_self). vm_compute. reflexivity.
Defined.

(** ** [gaussian_sum] *)

Lemma combine_fst_snd {A B} (l : list (A * B)) :
  combine (map fst l) (map snd l) = l.
Proof. induction l as [|[a b] l IH]; simpl; [reflexivity|]. f_equal. exact IH. Qed.

Lemma add_rows (h g : R -> R) (x : list R) :
  map (fun p : R * R => (fst p + snd p)%R) (combine (map h x) (map g x))
  = map (fun xb => (h xb + g xb)%R) x.
Proof. induction x as [|a x IH]; simpl; [reflexivity|]. f_equal. exact IH. Qed.

Lemma fold_add_rows {P} (g : P -> R -> R) (x : list R) (pairs : list P) :
  forall h : R -> R,
  fold_left (fun acc row => map (fun p : R * R => (fst p + snd p)%R) (combine acc row))
            (map (fun cw => map (g cw) x) pairs) (map h x)
  = map (fun xb => (h xb + fold_right Rplus 0 (map (fun cw => g cw xb) pairs))%R) x.
Proof.
  induction pairs as [|a pairs IH]; intros h; simpl.
  - apply map_ext. intros xb. ring.
  - rewrite add_rows. rewrite (IH (fun xb => (h xb + g a xb)%R)).
    apply map_ext. intros xb. ring.
Qed.

Lemma sum_axis0_columns {P} (g : P -> R -> R) (x : list R) (pairs : list P) :
  sum_axis0 (length x) (map (fun cw => map (g cw) x) pairs)
  = map (fun xb => fold_right Rplus 0%R (map (fun cw => g cw xb) pairs)) x.
Proof.
  unfold sum_axis0.
  replace (repeat 0%R (length x)) with (map (fun _ : R => 0%R) x).
  - rewrite fold_add_rows. apply map_ext. intros xb. ring.
  - induction x; simpl; [reflexivity|]. f_equal. assumption.
Qed.

Lemma consecutive_differences (G : nat -> R) (n : nat) : forall s,
  map (fun p : R * R => (fst p - snd p)%R)
      (combine (map G (seq (S s) n)) (map G (seq s n)))
  = map (fun i => (G (S i) - G i)%R) (seq s n).
Proof.
  induction n as [|n IH]; intros s; simpl; [reflexivity|].
  f_equal. apply IH.
Qed.

Lemma roll_and_subtract (G : nat -> R) (n : nat) :
  drop_last (arr_sub (roll_left (map G (seq 0 (S n)))) (map G (seq 0 (S n))))
  = map (fun i => (G (S i) - G i)%R) (seq 0 n).
Proof.
  unfold drop_last, arr_sub.
  assert (Hroll : roll_left (map G (seq 0 (S n))) = map G (seq 1 n) ++ [G 0%nat])
    by reflexivity.
  rewrite Hroll.
  rewrite length_map, length_combine, length_app. cbn [length].
  rewrite !length_map, !length_seq.
  replace (Nat.min (n + 1) (S n) - 1)%nat with n by lia.
  rewrite firstn_map, combine_firstn.
  rewrite firstn_app, length_map, length_seq, Nat.sub_diag.
  cbn [firstn]. rewrite app_nil_r.
  rewrite (firstn_all2 (n := n) (map G (seq 1 n))) by (rewrite length_map, length_seq; lia).
  rewrite firstn_map. rewrite take_seq. rewrite Nat.min_l by lia.
  apply consecutive_differences.
Qed.

Lemma linspace_boundaries start stop n :
  (2 <= n)%nat ->
  let dx := ((stop - start) / (INR n - 1))%R in
  linspace (start - dx / 2) (stop + dx / 2) (n + 1)
  = map (spec_boundary start dx) (seq 0 (n + 1)).
Proof.
  intros Hn dx. unfold linspace. apply map_ext. intros i.
  unfold spec_boundary. f_equal. f_equal.
  rewrite Nat.add_1_r, S_INR.
  assert (Hn1 : (2 <= INR n)%R) by (apply (le_INR 2); exact Hn).
  unfold dx. field. lra.
Qed.

Lemma broadcast_pairs_of_pairs (pairs : list (R * R)) :
  broadcast_pairs (map fst pairs) (map snd pairs) = ok pairs.
Proof.
  unfold broadcast_pairs. rewrite !length_map, Nat.eqb_refl.
  rewrite combine_fst_snd. reflexivity.
Qed.

(** [gaussian_sum] in closed form, for a grid of at least two points and a
    width that is not zero. *)
Lemma gaussian_sum_closed_form (erf : R -> R) (self : MBTR) (settings : GridInfo)
    (min_k max_k sigma : R) (n : nat) (pairs : list (R * R)) :
  g_min settings = Some min_k ->
  g_max settings = Some max_k ->
  g_sigma settings = Some sigma ->
  g_n settings = Some n ->
  (2 <= n)%nat ->
  sigma <> 0%R ->
  gaussian_sum erf self (map fst pairs) (map snd pairs) settings
    = ok (gaussian_sum_spec erf (normalize_gaussians (cfg self))
                            min_k max_k sigma n pairs).
Proof.
  intros Hmin Hmax Hsigma Hn Hn2 Hs0.
  unfold gaussian_sum. rewrite Hmin, Hmax, Hsigma, Hn. cbn [getitem rbind ok].
  destruct (Nat.eqb_spec n 1) as [|_]; [lia|]. cbn [rbind ok].
  rewrite broadcast_pairs_of_pairs. cbn [rbind ok].
  rewrite linspace_boundaries by exact Hn2.
  set (dx := ((max_k - min_k) / (INR n - 1))%R).
  set (x := map (spec_boundary min_k dx) (seq 0 (n + 1))).
  assert (Hlen : length x = (n + 1)%nat)
    by (unfold x; rewrite length_map, length_seq; reflexivity).
  rewrite <- Hlen.
  rewrite (sum_axis0_columns
             (fun (cw : R * R) xb =>
                (snd cw * 1 / 2 * (1 + erf ((xb - fst cw) / (sigma * sqrt 2))))%R)).
  fold (spec_cdf_sum erf sigma pairs).
  unfold gaussian_sum_spec. fold dx.
  unfold x. rewrite Nat.add_1_r.
  destruct (normalize_gaussians (cfg self)).
  - cbn [rbind ok]. unfold ok. f_equal. rewrite map_map.
    rewrite (roll_and_subtract
               (fun i => spec_cdf_sum erf sigma pairs (spec_boundary min_k dx i))).
    rewrite map_map. reflexivity.
  - destruct (Req_dec_T sigma 0) as [|_]; [contradiction|]. cbn [rbind ok].
    unfold ok. f_equal. rewrite !map_map.
    rewrite (roll_and_subtract
               (fun i => (spec_cdf_sum erf sigma pairs (spec_boundary min_k dx i)
                          / (1 / (sigma * sqrt (2 * PI))))%R)).
    rewrite map_map. apply map_ext. intros i. unfold Rdiv. ring.
Qed.

(** C7, amended. For a grid with min < max, n >= 2 and sigma <> 0 and any
    list of (value, weight) pairs, [gaussian_sum] returns the sequence of
    the design document: n values, the i-th being the difference of the
    weighted sums of Gaussian CDFs at consecutive boundary points (n+1
    points spaced by dx from min - dx/2), divided by dx, and divided by
    1/(sigma*sqrt(2*pi)) when normalize_gaussians is false. *)
Theorem C7_gaussian_sum_refines_spec (erf : R -> R) (self : MBTR) (settings : GridInfo)
    (min_k max_k sigma : R) (n : nat) (pairs : list (R * R)) :
  g_min settings = Some min_k ->
  g_max settings = Some max_k ->
  g_sigma settings = Some sigma ->
  g_n settings = Some n ->
  (min_k < max_k)%R ->
  (2 <= n)%nat ->
  sigma <> 0%R ->
  gaussian_sum erf self (map fst pairs) (map snd pairs) settings
    = ok (gaussian_sum_spec erf (normalize_gaussians (cfg self))
                            min_k max_k sigma n pairs)
  /\ length (gaussian_sum_spec erf (normalize_gaussians (cfg self))
                              min_k max_k sigma n pairs) = n.
Proof.
  intros Hmin Hmax Hsigma Hn Hlt Hn2 Hs0. split.
  - apply gaussian_sum_closed_form; assumption.
  - unfold gaussian_sum_spec. rewrite length_map, length_seq. reflexivity.
Qed.

Lemma C7_gaussian_sum_refines_spec_witness :
  gaussian_sum (fun x => x) example_self (map fst example_pairs)
               (map snd example_pairs) example_grid
    = ok (gaussian_sum_spec (fun x => x) (normalize_gaussians (cfg example_self))
                            0 1 1 3 example_pairs)
  /\ length (gaussian_sum_spec (fun x => x) (normalize_gaussians (cfg example_self))
                              0 1 1 3 example_pairs) = 3%nat.
Proof.
  apply (C7_gaussian_sum_refines_spec (fun x => x) example_self example_grid
                                      0 1 1 3 example_pairs);
    try reflexivity; [lra | lia | lra].
Defined.

(** C7 as stated fails: on a grid with min < max and n >= 2 whose sigma is
    0, with normalize_gaussians = False, [gaussian_sum] returns no sequence:
    [1/(sigma*math.sqrt(2*math.pi))] raises ZeroDivisionError. *)
Lemma C7_zero_sigma_raises :
  g_min zero_sigma_grid = Some 0%R /\ g_max zero_sigma_grid = Some 1%R /\
  g_sigma zero_sigma_grid = Some 0%R /\ g_n zero_sigma_grid = Some 3%nat /\
  normalize_gaussians (cfg unnormalised_self) = false /\
  gaussian_sum (fun x => x) unnormalised_self (map fst example_pairs)
               (map snd example_pairs) zero_sigma_grid
  = raise ZeroDivisionError.
Proof.
  do 5 (split; [reflexivity|]).
  unfold gaussian_sum.
  cbn [zero_sigma_grid g_min g_max g_sigma g_n getitem rbind ok Nat.eqb].
  rewrite broadcast_pairs_of_pairs. cbn [rbind ok].
  cbn [unnormalised_self cfg normalize_gaussians].
  destruct (Req_dec_T 0 0) as [_|Hne]; [reflexivity|]. exfalso. apply Hne. reflexivity.
Qed.

(** ** Errors of the configuration checks *)

Lemma rfor_ok {A} (f : A -> res unit) l :
  rfor l f = ok tt <-> forall x, In x l -> f x = ok tt.
Proof.
  unfold rfor. induction l as [|a l IH]; simpl.
  - split; [intros _ x []|reflexivity].
  - destruct (f a) as [e|[]] eqn:Ha; simpl.
    + split; [discriminate|]. intros H. specialize (H a (or_introl eq_refl)).
      rewrite Ha in H. discriminate.
    + rewrite IH. split.
      * intros H x [<-|Hx]; [exact Ha|apply H; exact Hx].
      * intros H x Hx. apply H. right. exact Hx.
Qed.

Lemma rfor_error {A} (f : A -> res unit) l e :
  rfor l f = inl e -> exists x, In x l /\ f x = inl e.
Proof.
  unfold rfor. induction l as [|a l IH]; simpl; [discriminate|].
  destruct (f a) as [e'|[]] eqn:Ha; simpl.
  - intros [= <-]. exists a. split; [left; reflexivity|exact Ha].
  - intros H. destruct (IH H) as (x & Hx & Hfx). exists x. split; [right|]; assumption.
Qed.

Lemma check_weighting_info_error w kk e :
  check_weighting_info w kk = inl e -> configuration_error e.
Proof.
  unfold check_weighting_info.
  destruct (kk >? 1)%Z; [|discriminate].
  destruct (w !! kkey kk) as [[wi|]|]; try (intros [= <-]; constructor).
  destruct (opt_string_eqb (w_function wi) "exponential" || _)%bool;
    [|intros [= <-]; constructor].
  intros H. apply rfor_error in H as (x & _ & Hx).
  destruct (winfo_get wi x); [discriminate|]. injection Hx as <-. constructor.
Qed.

Lemma check_periodic_weighting_error w kk e :
  check_periodic_weighting w kk = inl e -> configuration_error e.
Proof.
  unfold check_periodic_weighting.
  destruct (kk >? 1)%Z; [|discriminate].
  destruct w as [w|]; [|intros [= <-]; constructor].
  destruct (w !! kkey kk) as [[wi|]|]; try (intros [= <-]; constructor).
  destruct (w_function wi) as [f|]; [|intros [= <-]; constructor].
  destruct (String.eqb f "unity"); [intros [= <-]; constructor|discriminate].
Qed.

Lemma check_grid_info_error info e :
  check_grid_info info = inl e -> configuration_error e.
Proof.
  unfold check_grid_info.
  destruct (g_min info); [|intros [= <-]; constructor].
  destruct (g_max info); [|intros [= <-]; constructor].
  destruct (g_sigma info); [|intros [= <-]; constructor].
  destruct (g_n info); [|intros [= <-]; constructor].
  simpl. destruct (Rlt_dec _ _); [discriminate|intros [= <-]; constructor].
Qed.

Lemma check_grid_error ks g e :
  check_grid ks g = inl e -> configuration_error e.
Proof.
  unfold check_grid. destruct g as [g|]; [|discriminate].
  intros H. apply rfor_error in H as (x & _ & Hx).
  destruct (g !! kkey x); [|discriminate].
  eapply check_grid_info_error; eassumption.
Qed.

Lemma py_max_error l e : py_max l = inl e -> configuration_error e.
Proof. destruct l; [intros [= <-]; constructor|discriminate]. Qed.
Lemma py_min_error l e : py_min l = inl e -> configuration_error e.
Proof. destruct l; [intros [= <-]; constructor|discriminate]. Qed.

(** [update] touches neither the log nor the per-call state nor the
    weighting, periodic, grid and flag settings; its errors are configuration errors. *)
Lemma update_frame set_of self :
  let self' := fst (update set_of self) in
  log self' = log self /\ call self' = call self /\
  weighting (cfg self') = weighting (cfg self) /\
  periodic (cfg self') = periodic (cfg self) /\
  grid (cfg self') = grid (cfg self) /\
  flatten (cfg self') = flatten (cfg self) /\
  normalize_by_volume (cfg self') = normalize_by_volume (cfg self) /\
  normalize_gaussians (cfg self') = normalize_gaussians (cfg self) /\
  forall e, snd (update set_of self) = inl e -> configuration_error e.
Proof.
  unfold update. unfold_M.
  destruct (k (cfg self)) as [z|l|] eqn:Hk; cbv beta iota;
    try (cbn; repeat split; auto; intros e [= <-]; constructor).
  destruct (forallb supported_k (set_of l)) eqn:Hs; cbv beta iota;
    [|cbn; repeat split; auto; intros e [= <-]; constructor].
  destruct (match weighting (cfg self) with Some w => _ | None => _ end)
    as [e|[]] eqn:Hw; cbv beta iota.
  { cbn. repeat split; auto. intros e' [= <-].
    destruct (weighting (cfg self)); [|discriminate].
    apply rfor_error in Hw as (x & _ & Hx).
    eapply check_weighting_info_error; eassumption. }
  destruct (if periodic (cfg self) then _ else _) as [e|[]] eqn:Hp;
    cbv beta iota.
  { cbn. repeat split; auto. intros e' [= <-].
    destruct (periodic (cfg self)); [|discriminate].
    apply rfor_error in Hp as (x & _ & Hx).
    eapply check_periodic_weighting_error; eassumption. }
  destruct (check_grid (set_of l) (grid (cfg self))) as [e|[]] eqn:Hg;
    cbv beta iota.
  { cbn. repeat split; auto. intros e' [= <-].
    eapply check_grid_error; eassumption. }
  destruct (py_max _) as [e|mx] eqn:Hmx; cbv beta iota.
  { cbn. repeat split; auto. intros e' [= <-]. eapply py_max_error; eassumption. }
  destruct (py_min _) as [e|mn] eqn:Hmn; cbv beta iota.
  { cbn. repeat split; auto. intros e' [= <-]. eapply py_min_error; eassumption. }
  cbn. repeat split; auto. discriminate.
Qed.

(** [update] only reads the configuration. *)
Lemma update_set_call set_of c self :
  update set_of (set_call c self)
  = (set_call c (fst (update set_of self)), snd (update set_of self)).
Proof.
  unfold update. unfold_M. cbn [cfg set_call].
  destruct (k (cfg self)) as [z|l|] eqn:Hk; cbv beta iota; try reflexivity.
  destruct (forallb supported_k (set_of l)) eqn:Hs; cbv beta iota; [|reflexivity].
  destruct (match weighting (cfg self) with Some w => _ | None => _ end)
    as [e|[]] eqn:Hw; cbv beta iota; [reflexivity|].
  destruct (if periodic (cfg self) then _ else _) as [e|[]] eqn:Hp;
    cbv beta iota; [reflexivity|].
  destruct (check_grid (set_of l) (grid (cfg self))) as [e|[]] eqn:Hg;
    cbv beta iota; [reflexivity|].
  destruct (py_max _) as [e|mx] eqn:Hmx; cbv beta iota; [reflexivity|].
  destruct (py_min _) as [e|mn] eqn:Hmn; cbv beta iota; reflexivity.
Qed.

Lemma mbind_ok {A B} (m : M A) (f : A -> M B) s s' a :
  m s = (s', inr a) -> mbind' m f s = f a s'.
Proof. intros H. unfold mbind'. rewrite H. reflexivity. Qed.

Lemma mbind_error {A B} (m : M A) (f : A -> M B) s s' e :
  m s = (s', inl e) -> mbind' m f s = (s', inl e).
Proof. intros H. unfold mbind'. rewrite H. reflexivity. Qed.

Section Describe_errors.
Variable set_of : list Z -> list Z.
Variable erf : R -> R.
Variable System_new : list vec3 -> list Z -> mat3 -> bool -> System.
Variable cmbtr_k1 :
  list vec3 -> list Z -> gmap Z nat -> option nat ->
  gmap nat (list R) * gmap nat (list R).
Variable cmbtr_k2 :
  list vec3 -> list Z -> gmap Z nat -> option nat -> string -> option (R * R) ->
  gmap (nat * nat) (list R) * gmap (nat * nat) (list R).
Variable cmbtr_k3 :
  list vec3 -> list Z -> gmap Z nat -> option nat -> string -> option (R * R) ->
  gmap (nat * nat * nat) (list R) * gmap (nat * nat * nat) (list R).

(** An error of [update] is the error of [describe], raised before any
    collaborator is called. *)
Lemma describe_update_error fuel sys self e :
  snd (update set_of self) = inl e ->
  describe set_of erf System_new cmbtr_k1 cmbtr_k2 cmbtr_k3 fuel sys self
  = (set_call (reset_call sys (call self)) (fst (update set_of self)), inl e).
Proof.
  intros He. unfold describe.
  apply mbind_error. unfold initialize_scalars.
  erewrite mbind_ok by reflexivity.
  apply mbind_error. rewrite update_set_call. rewrite He. reflexivity.
Qed.

End Describe_errors.

Lemma rfor_raises {A} (f : A -> res unit) l x e :
  In x l -> f x = inl e ->
  (forall y, In y l -> f y = ok tt \/ f y = inl e) ->
  rfor l f = inl e.
Proof.
  unfold rfor. induction l as [|a l IH]; simpl; [intros []|].
  intros Hin Hx Hall.
  destruct (Hall a (or_introl eq_refl)) as [Ha|Ha]; rewrite Ha; simpl;
    [|reflexivity].
  destruct Hin as [<-|Hin]; [unfold ok in Ha; congruence|].
  apply IH; [exact Hin|exact Hx|]. intros y Hy. apply Hall. right. exact Hy.
Qed.

(** After the first loop of [update] has accepted an order, the second
    loop accepts it or raises its ValueError. *)
Lemma check_periodic_weighting_after w order :
  check_weighting_info w order = ok tt ->
  check_periodic_weighting (Some w) order = ok tt \/
  check_periodic_weighting (Some w) order = inl ValueError_periodic_weighting.
Proof.
  unfold check_weighting_info, check_periodic_weighting.
  destruct (order >? 1)%Z; [|left; reflexivity].
  destruct (w !! kkey order) as [[wi|]|]; try discriminate.
  intros _. destruct (w_function wi) as [f|]; [|right; reflexivity].
  destruct (String.eqb f "unity"); [right|left]; reflexivity.
Qed.

(** What [update] raises on a periodic configuration whose weighting for a
    requested order above 1 is missing, when the entries of the other
    requested orders pass the first loop. *)
Lemma update_raises_missing_weighting set_of self l order :
  set_of_spec set_of ->
  k (cfg self) = K_iterable l -> periodic (cfg self) = true ->
  forallb supported_k (set_of l) = true ->
  In order l -> (1 < order)%Z ->
  (forall w o, weighting (cfg self) = Some w -> In o l -> o <> order ->
               check_weighting_info w o = ok tt) ->
  weighting_missing (weighting (cfg self)) order ->
  snd (update set_of self)
  = inl (missing_weighting_exception (weighting (cfg self)) order).
Proof.
  intros Hset Hk Hper Hs Hin Hord Hothers Hmiss.
  apply (proj2 (Hset l order)) in Hin.
  assert (Hgt : (order >? 1)%Z = true) by (apply Z.gtb_lt; lia).
  unfold update. unfold_M. rewrite Hk. cbv beta iota. rewrite Hs. cbv beta iota.
  rewrite Hper.
  unfold weighting_missing, missing_weighting_exception in *.
  destruct (weighting (cfg self)) as [w|] eqn:Hw.
  - assert (Hrest : forall y, In y (set_of l) -> y <> order ->
                      check_weighting_info w y = ok tt).
    { intros y Hy Hne. apply (Hothers w y eq_refl); [apply Hset; exact Hy|exact Hne]. }
    destruct (w !! kkey order) as [[wi|]|] eqn:Hentry.
    + (* the entry names the function "unity" *)
      assert (Hfirst : rfor (set_of l) (check_weighting_info w) = ok tt).
      { apply rfor_ok. intros y Hy.
        destruct (Z.eq_dec y order) as [->|Hne]; [|apply Hrest; assumption].
        unfold check_weighting_info. rewrite Hgt, Hentry, Hmiss. reflexivity. }
      unfold ok in Hfirst. rewrite Hfirst. cbv beta iota.
      rewrite (rfor_raises _ (set_of l) order ValueError_periodic_weighting);
        [reflexivity|exact Hin| |].
      * unfold check_periodic_weighting. rewrite Hgt, Hentry, Hmiss. reflexivity.
      * intros y Hy. apply check_periodic_weighting_after.
        apply (proj1 (rfor_ok _ _) Hfirst y Hy).
    + (* the entry is None *)
      rewrite (rfor_raises _ (set_of l) order AttributeError_None);
        [reflexivity|exact Hin| |].
      * unfold check_weighting_info. rewrite Hgt, Hentry. reflexivity.
      * intros y Hy. destruct (Z.eq_dec y order) as [->|Hne].
        -- right. unfold check_weighting_info. rewrite Hgt, Hentry. reflexivity.
        -- left. apply Hrest; assumption.
    + (* no entry *)
      rewrite (rfor_raises _ (set_of l) order (KeyError_weighting (kkey order)));
        [reflexivity|exact Hin| |].
      * unfold check_weighting_info. rewrite Hgt, Hentry. reflexivity.
      * intros y Hy. destruct (Z.eq_dec y order) as [->|Hne].
        -- right. unfold check_weighting_info. rewrite Hgt, Hentry. reflexivity.
        -- left. apply Hrest; assumption.
  - (* no weighting dict *)
    cbv beta iota.
    rewrite (rfor_raises _ (set_of l) order ValueError_periodic_weighting);
      [reflexivity|exact Hin| |].
    + unfold check_periodic_weighting. rewrite Hgt. reflexivity.
    + intros y Hy. unfold check_periodic_weighting.
      destruct (y >? 1)%Z; [right|left]; reflexivity.
Qed.

Section Periodic_weighting.
Variable set_of : list Z -> list Z.
Variable erf : R -> R.
Variable System_new : list vec3 -> list Z -> mat3 -> bool -> System.
Variable cmbtr_k1 :
  list vec3 -> list Z -> gmap Z nat -> option nat ->
  gmap nat (list R) * gmap nat (list R).
Variable cmbtr_k2 :
  list vec3 -> list Z -> gmap Z nat -> option nat -> string -> option (R * R) ->
  gmap (nat * nat) (list R) * gmap (nat * nat) (list R).
Variable cmbtr_k3 :
  list vec3 -> list Z -> gmap Z nat -> option nat -> string -> option (R * R) ->
  gmap (nat * nat * nat) (list R) * gmap (nat * nat * nat) (list R).
Hypothesis set_of_elements : set_of_spec set_of.

(** C4 fails on the code for two of its three cases. Take a periodic
    configuration with supported orders in which the weighting of a
    requested order above 1 is absent, None or "unity" and the entries of
    the other requested orders pass the first check. The constructor and
    every [describe] call raise one and the same exception, before any
    collaborator is called (the log is unchanged): the ValueError
    "Periodic systems will need to have a weighting function ..." when
    there is no weighting dict or the function is "unity"; but the KeyError
    of [self.weighting["k2"]] when the dict has no entry for the order, and
    the AttributeError of [None.get("function")] when the entry is None.
    The branch [if weight_info is None: raise error] of the second loop is
    never reached. *)
Theorem C4_periodic_weighting_errors (l : list Z) (order : Z)
    (w : option (gmap string (option WeightInfo))) :
  In order l -> (1 < order)%Z ->
  forallb supported_k (set_of l) = true ->
  (forall w' o, w = Some w' -> In o l -> o <> order ->
                check_weighting_info w' o = ok tt) ->
  weighting_missing w order ->
  exists e,
    (forall atomic_numbers grid nbv ng flat,
       init set_of atomic_numbers (K_iterable l) true grid w nbv ng flat = inl e) /\
    (forall self fuel sys,
       k (cfg self) = K_iterable l -> periodic (cfg self) = true ->
       weighting (cfg self) = w ->
       exists self',
         describe set_of erf System_new cmbtr_k1 cmbtr_k2 cmbtr_k3 fuel sys self
           = (self', inl e) /\
         log self' = log self) /\
    match w with
    | None => e = ValueError_periodic_weighting
    | Some w' =>
        match w' !! kkey order with
        | None => e = KeyError_weighting (kkey order)
        | Some None => e = AttributeError_None
        | Some (Some _) => e = ValueError_periodic_weighting
        end
    end.
Proof.
  intros Hin Hord Hs Hothers Hmiss.
  exists (missing_weighting_exception w order). split; [|split].
  - intros atomic_numbers grid nbv ng flat. unfold init.
    set (self := mkMBTR _ _ _ _).
    pose proof (update_raises_missing_weighting set_of self l order
                  set_of_elements eq_refl eq_refl Hs Hin Hord Hothers Hmiss)
      as He.
    destruct (update set_of self) as [s' r]. cbn [snd] in He. rewrite He.
    reflexivity.
  - intros self fuel sys Hk Hper Hwe. subst w.
    pose proof (update_raises_missing_weighting set_of self l order
                  set_of_elements Hk Hper Hs Hin Hord Hothers Hmiss) as He.
    eexists. split.
    + apply describe_update_error. exact He.
    + cbn [log set_call]. apply update_frame.
  - unfold missing_weighting_exception.
    destruct w as [w'|]; [|reflexivity].
    destruct (w' !! kkey order) as [[wi|]|]; reflexivity.
Qed.
End Periodic_weighting.

Lemma set_ascending_spec : set_of_spec set_ascending.
Proof.
  intros l x. unfold set_ascending. rewrite sorted_Z_In.
  rewrite <- !list_elem_of_In. apply elem_of_remove_dups.
Qed.

Lemma C4_periodic_weighting_errors_witness :
  exists e,
    (forall atomic_numbers grid nbv ng flat,
       init set_ascending atomic_numbers (K_iterable [2%Z]) true grid
            (Some entry_none_weighting) nbv ng flat = inl e) /\
    (forall self fuel sys,
       k (cfg self) = K_iterable [2%Z] -> periodic (cfg self) = true ->
       weighting (cfg self) = Some entry_none_weighting ->
       exists self',
         describe set_ascending (fun x => x) unit_cell_System no_k1 no_k2 no_k3
                  fuel sys self = (self', inl e) /\
         log self' = log self) /\
    e = AttributeError_None.
Proof.
  destruct (C4_periodic_weighting_errors set_ascending (fun x => x)
              unit_cell_System no_k1 no_k2 no_k3 set_ascending_spec
              [2%Z] 2%Z (Some entry_none_weighting))
    as (e & Hinit & Hdescribe & He).
  - left. reflexivity.
  - lia.
  - reflexivity.
  - intros w' o _ [<-|[]] Hne. contradiction.
  - exact I.
  - exists e. split; [exact Hinit|]. split; [exact Hdescribe|exact He].
Defined.

(** ** The element index map and the frame of the methods *)

Lemma index_map_fold_None (l : list Z) : forall (s : nat) (m0 : gmap Z nat) x,
  fold_left (fun (m : gmap Z nat) (p : nat * Z) => <[snd p := fst p]> m)
            (combine (seq s (length l)) l) m0 !! x = None
  <-> m0 !! x = None /\ ~ In x l.
Proof.
  induction l as [|a l IH]; intros s m0 x; simpl.
  - tauto.
  - rewrite IH. cbn [fst snd]. rewrite lookup_insert_None. tauto.
Qed.

Lemma index_map_None l x : index_map l !! x = None <-> ~ In x l.
Proof.
  unfold index_map, enumerate. rewrite index_map_fold_None.
  rewrite lookup_empty. tauto.
Qed.

Lemma index_map_fold_bound (l : list Z) : forall (s : nat) (m0 : gmap Z nat) x i,
  fold_left (fun (m : gmap Z nat) (p : nat * Z) => <[snd p := fst p]> m)
            (combine (seq s (length l)) l) m0 !! x = Some i ->
  m0 !! x = Some i \/ (s <= i < s + length l)%nat.
Proof.
  induction l as [|a l IH]; intros s m0 x i; simpl.
  - auto.
  - intros H. apply IH in H as [H|H]; [|right; lia].
    cbn [fst snd] in H. apply lookup_insert_Some in H as [[_ <-]|[_ H]]; [right; lia|left; exact H].
Qed.

Lemma index_map_bound l x i : index_map l !! x = Some i -> (i < length l)%nat.
Proof.
  unfold index_map, enumerate. intros H.
  apply index_map_fold_bound in H as [H|H]; [|lia].
  rewrite lookup_empty in H. discriminate.
Qed.

Lemma mbind_assoc {A B C} (m : M A) (f : A -> M B) (g : B -> M C) s :
  mbind' (mbind' m f) g s = mbind' m (fun a => mbind' (f a) g) s.
Proof. unfold mbind'. destruct (m s) as [s' [e|a]]; reflexivity. Qed.

Lemma frame_ret {A} (a : A) : frame_cfg (mret a).
Proof. intros s. split; reflexivity. Qed.
Lemma frame_raise {A} e : frame_cfg (@mraise A e).
Proof. intros s. split; reflexivity. Qed.
Lemma frame_lift {A} (r : res A) : frame_cfg (mlift r).
Proof. intros s. split; reflexivity. Qed.
Lemma frame_get : frame_cfg mget.
Proof. intros s. split; reflexivity. Qed.
Lemma frame_modify_call (f : MBTR -> CallState) :
  frame_cfg (mmodify (fun s => set_call (f s) s)).
Proof. intros s. split; reflexivity. Qed.
Lemma frame_modify_event e : frame_cfg (mmodify (add_event e)).
Proof. intros s. split; reflexivity. Qed.
Lemma frame_bind {A B} (m : M A) (f : A -> M B) :
  frame_cfg m -> (forall a, frame_cfg (f a)) -> frame_cfg (mbind' m f).
Proof.
  intros Hm Hf s. unfold mbind'. specialize (Hm s).
  destruct (m s) as [s' [e|a]]; simpl in *; [exact Hm|].
  destruct (Hf a s') as [H1 H2]. destruct Hm as [H3 H4].
  split; congruence.
Qed.
Lemma frame_mfor {A} (l : list A) (body : A -> M unit) :
  (forall a, frame_cfg (body a)) -> frame_cfg (mfor l body).
Proof.
  intros Hb. induction l as [|a l IH]; simpl.
  - apply frame_ret.
  - apply frame_bind; [apply Hb|intros _; exact IH].
Qed.

Ltac frame_step :=
  first
    [ apply frame_ret | apply frame_raise | apply frame_lift | apply frame_get
    | apply frame_modify_call | apply frame_modify_event
    | apply frame_bind; [|intros ?]
    | apply frame_mfor; intros ?
    | progress cbv zeta
    | match goal with
      | |- frame_cfg (match ?x with _ => _ end) => destruct x
      | |- frame_cfg (let '(_, _) := ?x in _) => destruct x
      end ].
Ltac frame := repeat frame_step.

Lemma frame_check_present_number z : frame_cfg (check_present_number z).
Proof. unfold check_present_number. frame. Qed.

Section Frames.
Variable set_of : list Z -> list Z.
Variable erf : R -> R.
Variable System_new : list vec3 -> list Z -> mat3 -> bool -> System.
Variable cmbtr_k1 :
  list vec3 -> list Z -> gmap Z nat -> option nat ->
  gmap nat (list R) * gmap nat (list R).
Variable cmbtr_k2 :
  list vec3 -> list Z -> gmap Z nat -> option nat -> string -> option (R * R) ->
  gmap (nat * nat) (list R) * gmap (nat * nat) (list R).
Variable cmbtr_k3 :
  list vec3 -> list Z -> gmap Z nat -> option nat -> string -> option (R * R) ->
  gmap (nat * nat * nat) (list R) * gmap (nat * nat * nat) (list R).

Lemma frame_K1 settings : frame_cfg (K1 erf settings).
Proof. unfold K1. frame. Qed.
Lemma frame_K2 settings : frame_cfg (K2 erf settings).
Proof. unfold K2. frame. Qed.
Lemma frame_K3 settings : frame_cfg (K3 erf settings).
Proof. unfold K3. frame. Qed.
Lemma frame_k1_geoms_and_weights sys : frame_cfg (k1_geoms_and_weights cmbtr_k1 sys).
Proof. unfold k1_geoms_and_weights. frame. Qed.
Lemma frame_k2_geoms_and_weights sys : frame_cfg (k2_geoms_and_weights cmbtr_k2 sys).
Proof. unfold k2_geoms_and_weights. frame. Qed.
Lemma frame_k3_geoms_and_weights sys : frame_cfg (k3_geoms_and_weights cmbtr_k3 sys).
Proof. unfold k3_geoms_and_weights. frame. Qed.

Lemma frame_create_with_grid : frame_cfg (create_with_grid erf None).
Proof.
  unfold create_with_grid. frame;
    first [apply frame_K1 | apply frame_K2 | apply frame_K3].
Qed.
End Frames.

Lemma loop_undeclared ns : forall s,
  (exists x, In x ns /\ atomic_number_to_index (derived s) !! x = None) ->
  exists z s',
    mfor ns check_present_number s = (s', inl (KeyError_element z)) /\
    In z ns /\ atomic_number_to_index (derived s) !! z = None /\
    log s' = log s.
Proof.
  induction ns as [|a ns IH]; intros s (x & Hx & Hnone); [destruct Hx|].
  simpl. unfold mbind' at 1. unfold check_present_number at 1.
  unfold mbind', mget, ok. cbv beta iota.
  destruct (atomic_number_to_index (derived s) !! a) as [i|] eqn:Ha.
  - destruct Hx as [->|Hx]; [congruence|].
    unfold mmodify. cbv beta iota.
    match goal with
    | |- context [mfor ns check_present_number ?s0] =>
        destruct (IH s0) as (z & s' & Hrun & Hz & Hzn & Hlog)
    end.
    { exists x. split; [exact Hx|exact Hnone]. }
    exists z, s'. rewrite Hrun. repeat split; auto.
  - exists a, s. unfold mraise, raise. repeat split; auto.
Qed.

Lemma py_max_nonempty l : l <> [] -> exists m, py_max l = ok m.
Proof. destruct l; [congruence|]. intros _. eexists. reflexivity. Qed.
Lemma py_min_nonempty l : l <> [] -> exists m, py_min l = ok m.
Proof. destruct l; [congruence|]. intros _. eexists. reflexivity. Qed.

Lemma update_succeeds set_of self l :
  k (cfg self) = K_iterable l ->
  forallb supported_k (set_of l) = true ->
  match weighting (cfg self) with
  | Some w => rfor (set_of l) (check_weighting_info w)
  | None => ok tt
  end = ok tt ->
  (if periodic (cfg self)
   then rfor (set_of l) (check_periodic_weighting (weighting (cfg self)))
   else ok tt) = ok tt ->
  check_grid (set_of l) (grid (cfg self)) = ok tt ->
  atomic_numbers (cfg self) <> [] ->
  snd (update set_of self) = inr tt.
Proof.
  intros Hk Hs Hw Hp Hg Hne.
  assert (Hne' : sorted_Z (atomic_numbers (cfg self)) <> []).
  { destruct (atomic_numbers (cfg self)) as [|a t] eqn:E; [congruence|].
    intros H. assert (Hin : In a (sorted_Z (a :: t))) by (apply sorted_Z_In; left; reflexivity).
    rewrite H in Hin. destruct Hin. }
  destruct (py_max_nonempty _ Hne') as [mx Hmx].
  destruct (py_min_nonempty _ Hne') as [mn Hmn].
  unfold update. unfold_M. rewrite Hk. cbv beta iota.
  rewrite Hs. cbv beta iota.
  unfold ok in Hw, Hp, Hg, Hmx, Hmn.
  rewrite Hw. cbv beta iota. rewrite Hp. cbv beta iota.
  rewrite Hg. cbv beta iota. rewrite Hmx. cbv beta iota. rewrite Hmn.
  reflexivity.
Qed.

Lemma rfor_ok_subset {A} (f : A -> res unit) l l' :
  (forall x, In x l' -> In x l) -> rfor l f = ok tt -> rfor l' f = ok tt.
Proof. rewrite !rfor_ok. intros Hsub H x Hx. apply H, Hsub, Hx. Qed.

(** A configuration that passed [update] passes it again, also after
    [update] has replaced [k] by a set and sorted the atomic numbers. *)
Lemma update_again set_of self self1 self2 :
  set_of_spec set_of ->
  update set_of self = (self1, inr tt) ->
  cfg self2 = cfg self1 ->
  snd (update set_of self2) = inr tt.
Proof.
  intros Hset Hup Hcfg.
  apply update_success in Hup
    as (l & mx & mn & Hk & Hs & Hw & Hp & Hg & Hmx & Hmn & ->).
  cbn [cfg] in Hcfg.
  assert (Hsub : forall x, In x (set_of (set_of l)) -> In x (set_of l))
    by (intros x; apply Hset).
  apply (update_succeeds set_of self2 (set_of l)); rewrite ?Hcfg;
    cbn [k weighting periodic grid atomic_numbers set_k set_atomic_numbers].
  - reflexivity.
  - rewrite forallb_forall in *. intros x Hx. apply Hs, Hsub, Hx.
  - destruct (weighting (cfg self)); [|reflexivity].
    eapply rfor_ok_subset; eassumption.
  - destruct (periodic (cfg self)); [|reflexivity].
    eapply rfor_ok_subset; eassumption.
  - unfold check_grid in *. destruct (grid (cfg self)); [|reflexivity].
    eapply rfor_ok_subset; eassumption.
  - intros H. rewrite H in Hmx. discriminate.
Qed.

Section Unknown_element.
Variable set_of : list Z -> list Z.
Variable erf : R -> R.
Variable System_new : list vec3 -> list Z -> mat3 -> bool -> System.
Variable cmbtr_k1 :
  list vec3 -> list Z -> gmap Z nat -> option nat ->
  gmap nat (list R) * gmap nat (list R).
Variable cmbtr_k2 :
  list vec3 -> list Z -> gmap Z nat -> option nat -> string -> option (R * R) ->
  gmap (nat * nat) (list R) * gmap (nat * nat) (list R).
Variable cmbtr_k3 :
  list vec3 -> list Z -> gmap Z nat -> option nat -> string -> option (R * R) ->
  gmap (nat * nat * nat) (list R) * gmap (nat * nat * nat) (list R).
Hypothesis set_of_elements : set_of_spec set_of.

(** [describe] once [update] has passed: the rest of [initialize_scalars]
    and [create_with_grid] run on the updated object. *)
Lemma describe_after_update fuel sys self self1 :
  update set_of self = (self1, inr tt) ->
  describe set_of erf System_new cmbtr_k1 cmbtr_k2 cmbtr_k3 fuel sys self
  = mbind'
      (do* mmodify (fun s => set_call (set_n_atoms_in_cell (length (numbers sys)) (call s)) s) in
       do* mmodify (fun s => set_call (set_present_indices ∅ (call s)) s) in
       do* mfor (set_of (numbers sys)) check_present_number in
       let* self := mget in
       do* (if k_contains 1 (k (cfg self)) then k1_geoms_and_weights cmbtr_k1 sys else mret tt) in
       do* (if k_contains 2 (k (cfg self)) then
              let* system_k2 :=
                if periodic (cfg self) then
                  do* mmodify (add_event (Ev_extend 2)) in
                  mlift (create_extended_system System_new fuel self sys 2)
                else mret sys in
              k2_geoms_and_weights cmbtr_k2 system_k2
            else mret tt) in
       if k_contains 3 (k (cfg self)) then
         let* system_k3 :=
           if periodic (cfg self) then
             do* mmodify (add_event (Ev_extend 3)) in
             mlift (create_extended_system System_new fuel self sys 3)
           else mret sys in
         k3_geoms_and_weights cmbtr_k3 system_k3
       else mret tt)
      (fun _ => create_with_grid erf None)
      (set_call (reset_call sys (call self)) self1).
Proof.
  intros Hup. unfold describe, initialize_scalars.
  rewrite mbind_assoc. erewrite mbind_ok by reflexivity.
  rewrite mbind_assoc. erewrite mbind_ok; [reflexivity|].
  rewrite update_set_call, Hup. reflexivity.
Qed.

Lemma describe_cfg fuel sys self self1 :
  update set_of self = (self1, inr tt) ->
  cfg (fst (describe set_of erf System_new cmbtr_k1 cmbtr_k2 cmbtr_k3 fuel sys self))
  = cfg self1.
Proof.
  intros Hup. rewrite (describe_after_update _ _ _ _ Hup).
  match goal with
  | |- cfg (fst (?m ?s)) = _ => assert (Hf : frame_cfg m)
  end.
  { frame. }
  etransitivity; [apply Hf|reflexivity].
Qed.

Lemma unknown_element_error fuel sys self z :
  snd (update set_of self) = inr tt ->
  In z (numbers sys) -> ~ In z (atomic_numbers (cfg self)) ->
  exists z' self',
    describe set_of erf System_new cmbtr_k1 cmbtr_k2 cmbtr_k3 fuel sys self
      = (self', inl (KeyError_element z')) /\
    In z' (numbers sys) /\ ~ In z' (atomic_numbers (cfg self)) /\
    log self' = log self.
Proof.
  intros Hup Hz Hnz.
  destruct (update set_of self) as [self1 r] eqn:Hup1. simpl in Hup. subst r.
  rewrite (describe_after_update _ _ _ _ Hup1).
  pose proof (update_frame set_of self) as Hfr. rewrite Hup1 in Hfr.
  cbn [fst] in Hfr. destruct Hfr as (Hlog & _).
  apply update_success in Hup1
    as (l & mx & mn & Hk & Hs & Hw & Hp & Hg & Hmx & Hmn & ->).
  rewrite mbind_assoc. erewrite mbind_ok by reflexivity.
  rewrite mbind_assoc. erewrite mbind_ok by reflexivity.
  rewrite mbind_assoc.
  match goal with
  | |- context [mbind' (mfor ?ns check_present_number) _ ?s0] =>
      destruct (loop_undeclared ns s0) as (z' & s' & Hrun & Hz' & Hnone & Hlog')
  end.
  { exists z. split; [apply set_of_elements; exact Hz|].
    cbn [derived set_call atomic_number_to_index].
    apply index_map_None. rewrite sorted_Z_In. exact Hnz. }
  exists z', s'. split; [apply mbind_error; exact Hrun|].
  split; [apply set_of_elements; exact Hz'|]. split.
  - cbn [derived set_call atomic_number_to_index] in Hnone.
    apply index_map_None in Hnone. rewrite sorted_Z_In in Hnone. exact Hnone.
  - rewrite Hlog'. reflexivity.
Qed.
(** C5. On an object whose configuration passes [update], [describe] of a
    structure that contains an undeclared atomic number raises the KeyError
    that names an atomic number of the structure which is not declared (the
    undeclared number itself when it is the only one), with the log of
    collaborator calls unchanged; and it does so again on the object left
    by a previous successful [describe] call. *)
Theorem C5_unknown_element_named fuel sys self z :
  snd (update set_of self) = inr tt ->
  In z (numbers sys) -> ~ In z (atomic_numbers (cfg self)) ->
  (exists z' self',
     describe set_of erf System_new cmbtr_k1 cmbtr_k2 cmbtr_k3 fuel sys self
       = (self', inl (KeyError_element z')) /\
     In z' (numbers sys) /\ ~ In z' (atomic_numbers (cfg self)) /\
     ((forall x, In x (numbers sys) -> ~ In x (atomic_numbers (cfg self)) -> x = z)
      -> z' = z) /\
     log self' = log self) /\
  (forall fuel0 sys0 self0 out,
     describe set_of erf System_new cmbtr_k1 cmbtr_k2 cmbtr_k3 fuel0 sys0 self
       = (self0, inr out) ->
     exists z' self',
       describe set_of erf System_new cmbtr_k1 cmbtr_k2 cmbtr_k3 fuel sys self0
         = (self', inl (KeyError_element z')) /\
       In z' (numbers sys) /\ ~ In z' (atomic_numbers (cfg self)) /\
       ((forall x, In x (numbers sys) -> ~ In x (atomic_numbers (cfg self)) -> x = z)
        -> z' = z) /\
       log self' = log self0).
Proof.
  intros Hup Hz Hnz. split.
  - destruct (unknown_element_error fuel sys self z Hup Hz Hnz)
      as (z' & self' & Hrun & Hz' & Hnz' & Hlog).
    exists z', self'. repeat split; auto.
  - intros fuel0 sys0 self0 out Hrun0.
    destruct (update set_of self) as [self1 r] eqn:Hup1. simpl in Hup. subst r.
    pose proof (describe_cfg fuel0 sys0 self self1 Hup1) as Hcfg.
    rewrite Hrun0 in Hcfg. cbn [fst] in Hcfg.
    pose proof (update_again set_of self self1 self0 set_of_elements Hup1 Hcfg)
      as Hup0.
    assert (Hnum : forall x, In x (atomic_numbers (cfg self0))
                             <-> In x (atomic_numbers (cfg self))).
    { intros x. rewrite Hcfg.
      apply update_success in Hup1
        as (l & mx & mn & _ & _ & _ & _ & _ & _ & _ & ->).
      cbn [cfg atomic_numbers set_atomic_numbers]. apply sorted_Z_In. }
    destruct (unknown_element_error fuel sys self0 z Hup0 Hz)
      as (z' & self' & Hrun & Hz' & Hnz' & Hlog).
    { rewrite Hnum. exact Hnz. }
    exists z', self'. rewrite Hnum in Hnz'. repeat split; auto.
Qed.

End Unknown_element.

Lemma C5_unknown_element_named_witness :
  (exists z' self',
     describe set_ascending (fun x => x) unit_cell_System no_k1 no_k2 no_k3
              0 oxygen_system example_self
       = (self', inl (KeyError_element z')) /\
     In z' (numbers oxygen_system) /\
     ~ In z' (atomic_numbers (cfg example_self)) /\
     ((forall x, In x (numbers oxygen_system) ->
                 ~ In x (atomic_numbers (cfg example_self)) -> x = 8%Z)
      -> z' = 8%Z) /\
     log self' = log example_self) /\
  (forall fuel0 sys0 self0 out,
     describe set_ascending (fun x => x) unit_cell_System no_k1 no_k2 no_k3
              fuel0 sys0 example_self = (self0, inr out) ->
     exists z' self',
       describe set_ascending (fun x => x) unit_cell_System no_k1 no_k2 no_k3
                0 oxygen_system self0
         = (self', inl (KeyError_element z')) /\
       In z' (numbers oxygen_system) /\
       ~ In z' (atomic_numbers (cfg example_self)) /\
       ((forall x, In x (numbers oxygen_system) ->
                   ~ In x (atomic_numbers (cfg example_self)) -> x = 8%Z)
        -> z' = 8%Z) /\
       log self' = log self0).
Proof.
  apply (C5_unknown_element_named set_ascending (fun x => x) unit_cell_System
           no_k1 no_k2 no_k3 set_ascending_spec 0 oxygen_system example_self 8%Z).
  - vm_compute. reflexivity.
  - simpl. left. reflexivity.
  - simpl. intros [H|[H|[]]]; discriminate.
Defined.

(** ** SortedCoulombMatrix and SortedSineMatrix *)

Lemma length_tabulate rows cols f : length (tabulate rows cols f) = rows.
Proof. unfold tabulate. rewrite length_map, length_seq. reflexivity. Qed.

Lemma nth_tabulate rows cols f i :
  (i < rows)%nat -> nth i (tabulate rows cols f) [] = map (f i) (seq 0 cols).
Proof.
  intros Hi. unfold tabulate.
  rewrite (nth_indep _ [] ((fun i => map (fun j => f i j) (seq 0 cols)) 0%nat))
    by (rewrite length_map, length_seq; exact Hi).
  rewrite (map_nth (fun i => map (fun j => f i j) (seq 0 cols))).
  rewrite seq_nth by exact Hi. reflexivity.
Qed.

Lemma nth_map_seq (g : nat -> R) n j :
  (j < n)%nat -> nth j (map g (seq 0 n)) 0%R = g j.
Proof.
  intros Hj. rewrite (nth_indep _ 0%R (g 0%nat)) by (rewrite length_map, length_seq; exact Hj).
  rewrite (map_nth g). rewrite seq_nth by exact Hj. reflexivity.
Qed.

Lemma entry_tabulate rows cols f i j :
  (i < rows)%nat -> (j < cols)%nat -> entry (tabulate rows cols f) i j = f i j.
Proof.
  intros Hi Hj. unfold entry. rewrite nth_tabulate by exact Hi.
  apply nth_map_seq. exact Hj.
Qed.

Lemma entry_tabulate_outside rows cols f i j :
  (rows <= i)%nat \/ (cols <= j)%nat -> entry (tabulate rows cols f) i j = 0%R.
Proof.
  intros H. unfold entry.
  destruct (Nat.lt_ge_cases i rows) as [Hi|Hi].
  - rewrite nth_tabulate by exact Hi. destruct H as [H|H]; [lia|].
    apply nth_overflow. rewrite length_map, length_seq. exact H.
  - rewrite (nth_overflow (tabulate rows cols f)) by (rewrite length_tabulate; exact Hi).
    destruct j; reflexivity.
Qed.

Lemma map_nth_seq (row : list R) :
  map (fun j => nth j row 0%R) (seq 0 (length row)) = row.
Proof.
  induction row as [|a row IH]; [reflexivity|].
  cbn [length seq map nth]. f_equal.
  rewrite <- seq_shift, map_map. exact IH.
Qed.

Lemma sum_squares_Permutation l l' :
  Permutation l l' -> sum_squares l = sum_squares l'.
Proof.
  induction 1; simpl; lra.
Qed.

Lemma sum_squares_app l l' :
  sum_squares (l ++ l') = (sum_squares l + sum_squares l')%R.
Proof. induction l as [|a l IH]; simpl; [lra|]. rewrite IH. lra. Qed.

Lemma sum_squares_zeros {A} (l : list A) :
  sum_squares (map (fun _ => 0%R) l) = 0%R.
Proof. induction l as [|a l IH]; simpl; [reflexivity|]. rewrite IH. lra. Qed.

Lemma row_norm_nonneg row : (0 <= row_norm row)%R.
Proof. apply sqrt_pos. Qed.

(** Reading a row at a permutation of its columns keeps its norm. *)
Lemma row_norm_take (row : list R) (idx : list nat) :
  Permutation idx (seq 0 (length row)) ->
  row_norm (map (fun j => nth j row 0%R) idx) = row_norm row.
Proof.
  intros Hp. unfold row_norm. f_equal.
  transitivity (sum_squares (map (fun j => nth j row 0%R) (seq 0 (length row)))).
  - apply sum_squares_Permutation. apply Permutation_map. exact Hp.
  - rewrite map_nth_seq. reflexivity.
Qed.

Lemma StronglySorted_nth {A} (Rel : A -> A -> Prop) (l : list A) d :
  StronglySorted Rel l ->
  forall i j, (i < j)%nat -> (j < length l)%nat -> Rel (nth i l d) (nth j l d).
Proof.
  induction 1 as [|a l Hs IH Hall]; intros i j Hij Hj; [simpl in Hj; lia|].
  destruct j as [|j]; [lia|]. simpl in Hj. destruct i as [|i]; simpl.
  - rewrite List.Forall_forall in Hall. apply Hall. apply nth_In. lia.
  - apply IH; lia.
Qed.

Lemma tabulate_ext rows cols f g :
  (forall i j, (i < rows)%nat -> (j < cols)%nat -> f i j = g i j) ->
  tabulate rows cols f = tabulate rows cols g.
Proof.
  intros H. unfold tabulate. apply map_ext_in. intros i Hi.
  apply map_ext_in. intros j Hj. apply in_seq in Hi, Hj. apply H; lia.
Qed.

Lemma nth_map_default {A B} (g : A -> B) (l : list A) i d d' :
  (i < length l)%nat -> nth i (map g l) d' = g (nth i l d).
Proof.
  intros Hi. rewrite (nth_indep _ d' (g d)) by (rewrite length_map; exact Hi).
  apply map_nth.
Qed.

Lemma map_nth_index (idx : list nat) :
  map (fun j => nth j idx 0%nat) (seq 0 (length idx)) = idx.
Proof.
  induction idx as [|a idx IH]; [reflexivity|].
  cbn [length seq map nth]. f_equal.
  rewrite <- seq_shift, map_map. exact IH.
Qed.

Lemma length_fill_diagonal n m vals : length (fill_diagonal n m vals) = n.
Proof. apply length_tabulate. Qed.

Lemma length_row_fill_diagonal n m vals a :
  (a < n)%nat -> length (nth a (fill_diagonal n m vals) []) = n.
Proof.
  intros Ha. unfold fill_diagonal. rewrite nth_tabulate by exact Ha.
  rewrite length_map, length_seq. reflexivity.
Qed.

Lemma has_shape_tabulate rows cols f : has_shape rows cols (tabulate rows cols f) = true.
Proof.
  unfold has_shape, tabulate.
  rewrite length_map, length_seq, Nat.eqb_refl. cbn [andb].
  apply forallb_forall. intros row Hrow. apply in_map_iff in Hrow as (i & <- & _).
  rewrite length_map, length_seq. apply Nat.eqb_refl.
Qed.

Lemma has_shape_map {A B} (g : A -> B) rows cols (m : list (list A)) :
  has_shape rows cols m = true -> has_shape rows cols (map (map g) m) = true.
Proof.
  unfold has_shape. intros H. apply andb_true_iff in H as [H1 H2].
  rewrite length_map, H1. cbn [andb].
  rewrite forallb_forall in *. intros row Hrow.
  apply in_map_iff in Hrow as (r & <- & Hr). rewrite length_map. apply H2, Hr.
Qed.

Lemma has_shape_concat rows cols (m : matrix) :
  has_shape rows cols m = true -> length (concat m) = (rows * cols)%nat.
Proof.
  unfold has_shape. intros H. apply andb_true_iff in H as [H1 H2].
  apply Nat.eqb_eq in H1. subst rows. rewrite forallb_forall in H2.
  induction m as [|row m IH]; [reflexivity|].
  cbn [concat length]. rewrite length_app, IH.
  - rewrite (proj1 (Nat.eqb_eq _ _) (H2 row (or_introl eq_refl))). lia.
  - intros r Hr. apply H2. right. exact Hr.
Qed.

Lemma has_shape_rows {A} rows cols (m : list (list A)) a :
  has_shape rows cols m = true -> (a < rows)%nat ->
  length m = rows /\ length (nth a m []) = cols.
Proof.
  unfold has_shape. intros H Ha. apply andb_true_iff in H as [H1 H2].
  apply Nat.eqb_eq in H1. split; [exact H1|].
  rewrite forallb_forall in H2. apply Nat.eqb_eq. apply H2.
  apply nth_In. lia.
Qed.

Lemma matrix_number_of_features_square n : matrix_number_of_features n = Z.of_nat (n * n).
Proof. unfold matrix_number_of_features. lia. Qed.

Lemma sine_phi_vneg B B_inv d : sine_phi B B_inv (vneg d) = sine_phi B B_inv d.
Proof.
  destruct d as [[x y] z]. destruct B_inv as [[[[a0 b0] c0] [[a1 b1] c1]] [[a2 b2] c2]].
  unfold sine_phi, vneg, vec_mat, vscale.
  assert (Hsq : forall t, (sin (- t) * sin (- t) = sin t * sin t)%R)
    by (intros t; rewrite sin_neg; ring).
  replace (PI * (- x * a0 + - y * a1 + - z * a2))%R
    with (- (PI * (x * a0 + y * a1 + z * a2)))%R by ring.
  replace (PI * (- x * b0 + - y * b1 + - z * b2))%R
    with (- (PI * (x * b0 + y * b1 + z * b2)))%R by ring.
  replace (PI * (- x * c0 + - y * c1 + - z * c2))%R
    with (- (PI * (x * c0 + y * c1 + z * c2)))%R by ring.
  rewrite !Hsq. reflexivity.
Qed.

Lemma entry_outer_charges q a b :
  (a < length q)%nat -> (b < length q)%nat ->
  entry (outer_charges q) a b = (item q b * item q a)%R.
Proof. intros Ha Hb. unfold outer_charges. apply entry_tabulate; assumption. Qed.

Section Sorted_matrices.
Variable argsort : list R -> list nat.
Hypothesis argsort_permutation :
  forall norms, Permutation (argsort norms) (seq 0 (length norms)).
Hypothesis argsort_ascending :
  forall norms, Sorted (fun i j => (item norms i <= item norms j)%R) (argsort norms).

Lemma length_argsort norms : length (argsort norms) = length norms.
Proof.
  rewrite (Permutation_length (argsort_permutation norms)). apply length_seq.
Qed.

Lemma argsort_in_range norms i :
  (i < length norms)%nat -> (nth i (rev (argsort norms)) 0 < length norms)%nat.
Proof.
  intros Hi.
  assert (Hin : In (nth i (rev (argsort norms)) 0%nat) (seq 0 (length norms))).
  { apply (Permutation_in _ (argsort_permutation norms)).
    apply in_rev. apply nth_In.
    rewrite length_rev, length_argsort. exact Hi. }
  apply in_seq in Hin. lia.
Qed.

Lemma argsort_descending norms i j :
  (i < j)%nat -> (j < length norms)%nat ->
  (item norms (nth j (rev (argsort norms)) 0%nat)
   <= item norms (nth i (rev (argsort norms)) 0%nat))%R.
Proof.
  intros Hij Hj.
  assert (Hs : StronglySorted (fun a b => (item norms a <= item norms b)%R)
                              (argsort norms)).
  { apply Sorted_StronglySorted; [|apply argsort_ascending].
    intros a b c Hab Hbc. lra. }
  pose proof (length_argsort norms) as Hlen.
  rewrite !rev_nth by lia.
  apply (StronglySorted_nth _ _ 0%nat Hs); lia.
Qed.

Lemma sort_and_pad_closed_form n_atoms_max q mat :
  (length q <= n_atoms_max)%nat ->
  sort_and_pad argsort n_atoms_max q mat = ok (sorted_padded argsort n_atoms_max q mat).
Proof.
  intros Hn. unfold sort_and_pad, sorted_padded.
  set (n := length q).
  set (filled := fill_diagonal n mat _).
  set (idx := rev (argsort (norms_axis1 filled))).
  assert (Hlen : length idx = n).
  { unfold idx. rewrite length_rev, length_argsort. unfold norms_axis1.
    rewrite length_map. apply length_fill_diagonal. }
  unfold pad_zeros.
  assert (Hrows : length (take_cols (take_rows filled idx) idx) = n).
  { unfold take_cols, take_rows. rewrite !length_map. exact Hlen. }
  assert (Hcols : length (nth 0 (take_cols (take_rows filled idx) idx) []) = n).
  { unfold take_cols, take_rows. rewrite map_map.
    destruct (Nat.eq_dec n 0) as [Hz|Hnz].
    - destruct idx; [simpl; lia|simpl in Hlen; lia].
    - rewrite (nth_map_default _ idx 0%nat 0%nat) by lia.
      rewrite length_map. exact Hlen. }
  rewrite Hrows, Hcols.
  destruct (Nat.leb_spec n n_atoms_max) as [_|]; [|lia]. cbn [andb].
  unfold ok. f_equal. apply tabulate_ext. intros i j Hi Hj.
  destruct (Nat.ltb_spec i n) as [Hin|]; [|reflexivity].
  destruct (Nat.ltb_spec j n) as [Hjn|]; [|reflexivity]. cbn [andb].
  unfold entry, take_cols, take_rows. rewrite map_map.
  rewrite (nth_map_default _ idx i 0%nat) by lia.
  rewrite (nth_map_default _ idx j 0%nat) by lia. reflexivity.
Qed.
Lemma sorted_padded_shape n_atoms_max q mat :
  has_shape n_atoms_max n_atoms_max (sorted_padded argsort n_atoms_max q mat) = true.
Proof.
  unfold sorted_padded, has_shape, tabulate.
  rewrite length_map, length_seq, Nat.eqb_refl. cbn [andb].
  apply forallb_forall. intros row Hrow. apply in_map_iff in Hrow as (i & <- & _).
  rewrite length_map, length_seq. apply Nat.eqb_refl.
Qed.

Lemma item_norms_axis1 m a : item (norms_axis1 m) a = row_norm (nth a m []).
Proof.
  unfold item, norms_axis1.
  destruct (Nat.lt_ge_cases a (length m)) as [Ha|Ha].
  - apply nth_map_default. exact Ha.
  - rewrite !nth_overflow by (rewrite ?length_map; exact Ha).
    unfold row_norm. simpl. symmetry. apply sqrt_0.
Qed.

Lemma row_norm_sorted_padded n_atoms_max q mat i :
  (length q <= n_atoms_max)%nat -> (i < n_atoms_max)%nat ->
  let filled := fill_diagonal (length q) mat (map (fun z => (5 / 10 * pow_2_4 z)%R) q) in
  let norms := norms_axis1 filled in
  row_norm (nth i (sorted_padded argsort n_atoms_max q mat) [])
  = if (i <? length q)%nat then item norms (nth i (rev (argsort norms)) 0%nat) else 0%R.
Proof.
  intros Hn Hi filled norms. unfold sorted_padded. fold filled. fold norms.
  set (n := length q) in *. set (idx := rev (argsort norms)).
  assert (Hnorms : length norms = n).
  { unfold norms, norms_axis1. rewrite length_map. apply length_fill_diagonal. }
  assert (Hlen : length idx = n).
  { unfold idx. rewrite length_rev, length_argsort. exact Hnorms. }
  rewrite nth_tabulate by exact Hi.
  replace n_atoms_max with (n + (n_atoms_max - n))%nat at 1 by lia.
  rewrite seq_app, map_app. unfold row_norm at 1. rewrite sum_squares_app.
  rewrite (map_ext_in _ (fun _ => 0%R) (seq (0 + n) (n_atoms_max - n))).
  2:{ intros j Hj. apply in_seq in Hj.
      destruct (Nat.ltb_spec j n); [lia|]. rewrite andb_false_r. reflexivity. }
  rewrite sum_squares_zeros, Rplus_0_r.
  destruct (Nat.ltb_spec i n) as [Hin|Hin]; cbn [andb].
  - rewrite (map_ext_in _ (fun j => nth (nth j idx 0%nat)
                                        (nth (nth i idx 0%nat) filled []) 0%R)
                        (seq 0 n)).
    2:{ intros j Hj. apply in_seq in Hj.
        destruct (Nat.ltb_spec j n); [reflexivity|lia]. }
    rewrite <- (map_map (fun j => nth j idx 0%nat)
                        (fun c => nth c (nth (nth i idx 0%nat) filled []) 0%R)).
    rewrite <- Hlen at 1. rewrite map_nth_index.
    assert (Ha : (nth i idx 0 < n)%nat).
    { unfold idx. rewrite <- Hnorms. apply argsort_in_range. lia. }
    fold (row_norm (map (fun c => nth c (nth (nth i idx 0%nat) filled []) 0%R) idx)).
    rewrite row_norm_take.
    + symmetry. apply item_norms_axis1.
    + unfold filled at 1. rewrite length_row_fill_diagonal by exact Ha.
      unfold idx. rewrite <- Hnorms.
      apply Permutation_trans with (argsort norms);
        [symmetry; apply Permutation_rev|apply argsort_permutation].
  - rewrite sum_squares_zeros. apply sqrt_0.
Qed.

Lemma sorted_padded_descending n_atoms_max q mat :
  (length q <= n_atoms_max)%nat ->
  rows_descending (sorted_padded argsort n_atoms_max q mat).
Proof.
  intros Hn i Hi.
  assert (Hlen : length (sorted_padded argsort n_atoms_max q mat) = n_atoms_max)
    by apply length_tabulate.
  rewrite Hlen in Hi.
  rewrite !row_norm_sorted_padded by lia. cbv zeta.
  set (norms := norms_axis1 _).
  assert (Hnorms : length norms = length q).
  { unfold norms, norms_axis1. rewrite length_map. apply length_fill_diagonal. }
  destruct (Nat.ltb_spec (S i) (length q)) as [H1|H1];
    destruct (Nat.ltb_spec i (length q)) as [H2|H2]; try lia.
  - apply argsort_descending; lia.
  - unfold norms. rewrite item_norms_axis1. apply row_norm_nonneg.
  - lra.
Qed.

Lemma sorted_padded_symmetric n_atoms_max q mat :
  (forall a b, (a < length q)%nat -> (b < length q)%nat ->
               entry mat a b = entry mat b a) ->
  symmetric (sorted_padded argsort n_atoms_max q mat).
Proof.
  intros Hsym i j. unfold sorted_padded.
  set (n := length q) in *. set (filled := fill_diagonal n mat _).
  set (idx := rev (argsort (norms_axis1 filled))).
  assert (Hf : forall a b, entry filled a b = entry filled b a).
  { intros a b. unfold filled, fill_diagonal.
    destruct (Nat.lt_ge_cases a n) as [Ha|Ha];
      destruct (Nat.lt_ge_cases b n) as [Hb|Hb].
    - rewrite !entry_tabulate by assumption.
      destruct (Nat.eqb_spec a b) as [->|Hab].
      + rewrite Nat.eqb_refl. reflexivity.
      + destruct (Nat.eqb_spec b a) as [->|_]; [congruence|]. apply Hsym; assumption.
    - rewrite !entry_tabulate_outside by auto. reflexivity.
    - rewrite !entry_tabulate_outside by auto. reflexivity.
    - rewrite !entry_tabulate_outside by auto. reflexivity. }
  destruct (Nat.lt_ge_cases i n_atoms_max) as [Hi|Hi];
    destruct (Nat.lt_ge_cases j n_atoms_max) as [Hj|Hj].
  - rewrite !entry_tabulate by assumption.
    rewrite (andb_comm (j <? n)%nat). destruct (_ && _)%bool; [apply Hf|reflexivity].
  - rewrite !entry_tabulate_outside by auto. reflexivity.
  - rewrite !entry_tabulate_outside by auto. reflexivity.
  - rewrite !entry_tabulate_outside by auto. reflexivity.
Qed.
Lemma coulomb_matrix_closed_form n_atoms_max sys :
  (length (charges sys) <= n_atoms_max)%nat ->
  has_shape (length (charges sys)) (length (charges sys))
            (inverse_distance_matrix sys) = true ->
  coulomb_matrix argsort n_atoms_max sys
  = ok (sorted_padded argsort n_atoms_max (charges sys)
          (tabulate (length (charges sys)) (length (charges sys))
             (fun i j => (entry (outer_charges (charges sys)) i j
                          * entry (inverse_distance_matrix sys) i j)%R))).
Proof.
  intros Hn Hshape. unfold coulomb_matrix, mat_times.
  unfold outer_charges at 1. rewrite has_shape_tabulate, Hshape. cbn [andb rbind ok].
  apply sort_and_pad_closed_form; assumption.
Qed.

Lemma sine_matrix_closed_form n_atoms_max sys :
  (length (charges sys) <= n_atoms_max)%nat ->
  has_shape (length (charges sys)) (length (charges sys))
            (displacement_tensor sys) = true ->
  sine_matrix argsort n_atoms_max sys
  = ok (sorted_padded argsort n_atoms_max (charges sys)
          (tabulate (length (charges sys)) (length (charges sys))
             (fun i j => (entry (outer_charges (charges sys)) i j
                          * entry (map (map (sine_phi (lattice_matrix sys)
                                                      (lattice_inv_matrix sys)))
                                       (displacement_tensor sys)) i j)%R))).
Proof.
  intros Hn Hshape. unfold sine_matrix, mat_times.
  unfold outer_charges at 1.
  rewrite has_shape_tabulate, (has_shape_map _ _ _ _ Hshape). cbn [andb rbind ok].
  apply sort_and_pad_closed_form; assumption.
Qed.

(** C9. For a system with at most n_atoms_max particles (and pairwise data
    of the matching shape), [describe] of SortedCoulombMatrix and of
    SortedSineMatrix returns an n_atoms_max x n_atoms_max matrix, flattened
    to n_atoms_max^2 values when flatten is set, whose row norms are
    descending (the zero rows of the padding last), and
    [get_number_of_features] is n_atoms_max^2. *)
Theorem C9_sorted_matrices_shape_and_order n_atoms_max flatten sys :
  (length (charges sys) <= n_atoms_max)%nat ->
  (has_shape (length (charges sys)) (length (charges sys))
             (inverse_distance_matrix sys) = true ->
   exists m,
     coulomb_describe argsort n_atoms_max flatten sys
       = ok (if flatten then Matrix1D (concat m) else Matrix2D m) /\
     has_shape n_atoms_max n_atoms_max m = true /\
     length (concat m) = (n_atoms_max * n_atoms_max)%nat /\
     rows_descending m) /\
  (has_shape (length (charges sys)) (length (charges sys))
             (displacement_tensor sys) = true ->
   exists m,
     sine_describe argsort n_atoms_max flatten sys
       = ok (if flatten then Matrix1D (concat m) else Matrix2D m) /\
     has_shape n_atoms_max n_atoms_max m = true /\
     length (concat m) = (n_atoms_max * n_atoms_max)%nat /\
     rows_descending m) /\
  matrix_number_of_features n_atoms_max = Z.of_nat (n_atoms_max * n_atoms_max).
Proof.
  intros Hn. split; [|split].
  - intros Hshape. eexists. unfold coulomb_describe.
    rewrite (coulomb_matrix_closed_form _ _ Hn Hshape). cbn [rbind ok].
    split; [destruct flatten; reflexivity|].
    split; [apply sorted_padded_shape|].
    split; [apply has_shape_concat, sorted_padded_shape|].
    apply sorted_padded_descending; assumption.
  - intros Hshape. eexists. unfold sine_describe.
    rewrite (sine_matrix_closed_form _ _ Hn Hshape). cbn [rbind ok].
    split; [destruct flatten; reflexivity|].
    split; [apply sorted_padded_shape|].
    split; [apply has_shape_concat, sorted_padded_shape|].
    apply sorted_padded_descending; assumption.
  - apply matrix_number_of_features_square.
Qed.

(** C10. When the inverse-distance matrix is symmetric (Coulomb), resp. the
    displacement tensor is odd under index swap (Sine), the unflattened
    matrix that [describe] returns is symmetric. *)
Theorem C10_sorted_matrices_symmetric n_atoms_max sys :
  (length (charges sys) <= n_atoms_max)%nat ->
  (has_shape (length (charges sys)) (length (charges sys))
             (inverse_distance_matrix sys) = true ->
   symmetric (inverse_distance_matrix sys) ->
   exists m,
     coulomb_describe argsort n_atoms_max false sys = ok (Matrix2D m) /\
     symmetric m) /\
  (has_shape (length (charges sys)) (length (charges sys))
             (displacement_tensor sys) = true ->
   antisymmetric_tensor (displacement_tensor sys) ->
   exists m,
     sine_describe argsort n_atoms_max false sys = ok (Matrix2D m) /\
     symmetric m).
Proof.
  intros Hn. split.
  - intros Hshape Hsym. eexists. unfold coulomb_describe.
    rewrite (coulomb_matrix_closed_form _ _ Hn Hshape). cbn [rbind ok].
    split; [reflexivity|].
    apply sorted_padded_symmetric. intros a b Ha Hb.
    rewrite !entry_tabulate by assumption.
    rewrite !entry_outer_charges by assumption. rewrite (Hsym a b). ring.
  - intros Hshape Hanti. eexists. unfold sine_describe.
    rewrite (sine_matrix_closed_form _ _ Hn Hshape). cbn [rbind ok].
    split; [reflexivity|].
    apply sorted_padded_symmetric. intros a b Ha Hb.
    rewrite !entry_tabulate by assumption.
    rewrite !entry_outer_charges by assumption.
    assert (Hphi : forall u v, (u < length (charges sys))%nat ->
                     (v < length (charges sys))%nat ->
                     entry (map (map (sine_phi (lattice_matrix sys)
                                               (lattice_inv_matrix sys)))
                                (displacement_tensor sys)) u v
                     = sine_phi (lattice_matrix sys) (lattice_inv_matrix sys)
                                (nth v (nth u (displacement_tensor sys) []) (0, 0, 0)%R)).
    { intros u v Hu Hv.
      destruct (has_shape_rows _ _ _ u Hshape Hu) as [Hl Hr].
      unfold entry. rewrite (nth_map_default _ _ u []) by lia.
      apply nth_map_default. lia. }
    rewrite (Hphi a b Ha Hb), (Hphi b a Hb Ha).
    rewrite (Hanti a b), sine_phi_vneg. ring.
Qed.
End Sorted_matrices.

Lemma insert_index_permutation norms i s :
  Permutation (insert_index norms i s) (i :: s).
Proof.
  induction s as [|j s IH]; simpl; [reflexivity|].
  destruct (Rle_dec _ _); [reflexivity|].
  rewrite IH. apply perm_swap.
Qed.

Lemma argsort_insertion_permutation norms :
  Permutation (argsort_insertion norms) (seq 0 (length norms)).
Proof.
  unfold argsort_insertion. induction (seq 0 (length norms)) as [|i l IH]; simpl.
  - reflexivity.
  - rewrite insert_index_permutation. apply perm_skip. exact IH.
Qed.

Lemma insert_index_sorted norms i s :
  Sorted (fun a b => (item norms a <= item norms b)%R) s ->
  Sorted (fun a b => (item norms a <= item norms b)%R) (insert_index norms i s).
Proof.
  induction 1 as [|j s Hs IH Hhd]; simpl.
  - repeat constructor.
  - destruct (Rle_dec (item norms i) (item norms j)) as [Hle|Hgt].
    + constructor; [constructor; assumption|constructor; exact Hle].
    + constructor; [exact IH|].
      destruct s as [|j' s']; simpl.
      * constructor. lra.
      * destruct (Rle_dec (item norms i) (item norms j')).
        -- constructor. lra.
        -- constructor. inversion Hhd; assumption.
Qed.

Lemma argsort_insertion_ascending norms :
  Sorted (fun a b => (item norms a <= item norms b)%R) (argsort_insertion norms).
Proof.
  unfold argsort_insertion. induction (seq 0 (length norms)) as [|i l IH]; simpl.
  - constructor.
  - apply insert_index_sorted. exact IH.
Qed.

Lemma C9_sorted_matrices_shape_and_order_witness :
  (exists m,
     coulomb_describe argsort_insertion 2 true example_system
       = ok (Matrix1D (concat m)) /\
     has_shape 2 2 m = true /\
     length (concat m) = (2 * 2)%nat /\
     rows_descending m) /\
  (exists m,
     sine_describe argsort_insertion 2 true example_system
       = ok (Matrix1D (concat m)) /\
     has_shape 2 2 m = true /\
     length (concat m) = (2 * 2)%nat /\
     rows_descending m) /\
  matrix_number_of_features 2 = Z.of_nat (2 * 2).
Proof.
  destruct (C9_sorted_matrices_shape_and_order argsort_insertion
              argsort_insertion_permutation argsort_insertion_ascending
              2 true example_system) as (H1 & H2 & H3).
  - simpl. lia.
  - split; [apply H1; reflexivity|]. split; [apply H2; reflexivity|exact H3].
Defined.

Lemma C10_sorted_matrices_symmetric_witness :
  (exists m,
     coulomb_describe argsort_insertion 2 false example_system = ok (Matrix2D m) /\
     symmetric m) /\
  (exists m,
     sine_describe argsort_insertion 2 false example_system = ok (Matrix2D m) /\
     symmetric m).
Proof.
  destruct (C10_sorted_matrices_symmetric argsort_insertion
              argsort_insertion_permutation 2 example_system) as (H1 & H2).
  - simpl. lia.
  - split.
    + apply H1; [reflexivity|]. intros [|[|i]] [|[|j]]; reflexivity.
    + apply H2; [reflexivity|].
      intros [|[|i]] [|[|j]]; simpl; try (f_equal; [f_equal|]; lra).
Defined.

(** ** The tensors [K1], [K2], [K3] *)

Lemma sum_axis0_length cols (y : list (list R)) :
  (forall row, In row y -> length row = cols) ->
  length (sum_axis0 cols y) = cols.
Proof.
  unfold sum_axis0.
  assert (H : forall acc, length acc = cols ->
            (forall row, In row y -> length row = cols) ->
            length (fold_left (fun acc row =>
                       map (fun p : R * R => (fst p + snd p)%R) (combine acc row))
                     y acc) = cols).
  { induction y as [|row y IH]; intros acc Hacc Hrows; simpl; [exact Hacc|].
    apply IH.
    - rewrite length_map, length_combine, Hacc, (Hrows row (or_introl eq_refl)).
      apply Nat.min_id.
    - intros r Hr. apply Hrows. right. exact Hr. }
  intros Hrows. apply H; [apply repeat_length|exact Hrows].
Qed.

Lemma length_roll_left f : length (roll_left f) = length f.
Proof. destruct f; simpl; [reflexivity|]. rewrite length_app. simpl. lia. Qed.

Lemma length_linspace a b num : length (linspace a b num) = num.
Proof. unfold linspace. rewrite length_map, length_seq. reflexivity. Qed.

Lemma broadcast_pairs_defined centers weights :
  broadcastable centers weights ->
  exists pairs, broadcast_pairs centers weights = ok pairs.
Proof.
  unfold broadcastable, broadcast_pairs. intros H.
  destruct (Nat.eqb_spec (length centers) (length weights)); [eauto|].
  destruct (Nat.eqb_spec (length weights) 1); [eauto|].
  destruct (Nat.eqb_spec (length centers) 1); [eauto|].
  exfalso. destruct H as [H|[H|H]]; contradiction.
Qed.

(** [gaussian_sum] returns [n] values on a grid with its four fields on
    which its two divisions are defined, for values and weights that go
    together. *)
Lemma gaussian_sum_length erf self centers weights settings min_k max_k sigma n :
  g_min settings = Some min_k -> g_max settings = Some max_k ->
  g_sigma settings = Some sigma -> g_n settings = Some n ->
  n <> 1%nat -> (normalize_gaussians (cfg self) = true \/ sigma <> 0%R) ->
  broadcastable centers weights ->
  exists pdf, gaussian_sum erf self centers weights settings = ok pdf /\
              length pdf = n.
Proof.
  intros Hmin Hmax Hsigma Hn Hn1 Hs0 Hb. unfold gaussian_sum.
  rewrite Hmin, Hmax, Hsigma, Hn. cbn [getitem rbind ok].
  destruct (Nat.eqb_spec n 1) as [|_]; [contradiction|]. cbn [rbind ok].
  destruct (broadcast_pairs_defined _ _ Hb) as [pairs ->]. cbn [rbind ok].
  set (x := linspace _ _ (n + 1)).
  set (y := map _ pairs).
  assert (Hf : length (sum_axis0 (n + 1) y) = (n + 1)%nat).
  { apply sum_axis0_length. intros row Hrow. unfold y in Hrow.
    apply in_map_iff in Hrow as (cw & <- & _).
    rewrite length_map. apply length_linspace. }
  assert (Hdiff : forall f, length f = (n + 1)%nat ->
            length (drop_last (arr_sub (roll_left f) f)) = n).
  { intros f Hlen. unfold drop_last, arr_sub.
    rewrite length_firstn, length_map, length_combine, length_roll_left. lia. }
  destruct (normalize_gaussians (cfg self)).
  - cbn [rbind ok]. eexists. split; [reflexivity|].
    rewrite length_map. apply Hdiff. exact Hf.
  - destruct Hs0 as [Hs0|Hs0]; [discriminate|].
    destruct (Req_dec_T sigma 0) as [|_]; [contradiction|]. cbn [rbind ok].
    eexists. split; [reflexivity|].
    rewrite length_map. apply Hdiff. rewrite length_map. exact Hf.
Qed.

Lemma assign_slice_length buf start vals buf' :
  assign_slice buf start vals = ok buf' -> length buf' = length buf.
Proof.
  unfold assign_slice. destruct (Nat.leb_spec (start + length vals) (length buf)); [|discriminate].
  intros [= <-]. rewrite !length_app, length_firstn, length_skipn. lia.
Qed.

Lemma assign_block_ok buf start n vals :
  length vals = n -> (start + n <= length buf)%nat ->
  assign_block buf start n vals
  = ok (firstn start buf ++ vals ++ skipn (start + n) buf).
Proof.
  intros Hv Hb. unfold assign_block, assign_slice.
  rewrite (proj2 (Nat.eqb_eq _ _) Hv). rewrite Hv.
  destruct (Nat.leb_spec (start + n) (length buf)); [reflexivity|lia].
Qed.

Lemma assign_block_length buf start n vals :
  length vals = n -> (start + n <= length buf)%nat ->
  exists buf', assign_block buf start n vals = ok buf' /\ length buf' = length buf.
Proof.
  intros Hv Hb. eexists. split; [apply assign_block_ok; assumption|].
  rewrite !length_app, length_firstn, length_skipn. lia.
Qed.

Lemma in_enumerate {A} (l : list A) m x :
  In (m, x) (enumerate l) -> (m < length l)%nat /\ In x l.
Proof.
  unfold enumerate. intros H. split.
  - apply in_combine_l in H. apply in_seq in H. lia.
  - apply in_combine_r in H. exact H.
Qed.

Lemma rfold_invariant {A S} (P : S -> Prop) (body : S -> A -> res S) l :
  (forall s a, P s -> In a l -> exists s', body s a = ok s' /\ P s') ->
  forall s, P s -> exists s', rfold body l s = ok s' /\ P s'.
Proof.
  induction l as [|a l IH]; intros Hbody s Hs; simpl.
  - exists s. split; [reflexivity|exact Hs].
  - destruct (Hbody s a Hs (or_introl eq_refl)) as (s1 & -> & Hs1). simpl.
    apply IH; [|exact Hs1]. intros s' a' Hs' Ha'. apply Hbody; [exact Hs'|right; exact Ha'].
Qed.

Lemma sorted_keys1_spec {V} (m : gmap nat V) key :
  In key (sorted_keys1 m) <-> is_Some (m !! key).
Proof.
  unfold sorted_keys1.
  rewrite <- list_elem_of_In, merge_sort_Permutation, list_elem_of_fmap.
  split.
  - intros ([k v] & -> & H). apply elem_of_map_to_list in H. eauto.
  - intros [v H]. exists (key, v). split; [reflexivity|]. apply elem_of_map_to_list. exact H.
Qed.
Lemma sorted_keys2_spec {V} (m : gmap (nat * nat) V) key :
  In key (sorted_keys2 m) <-> is_Some (m !! key).
Proof.
  unfold sorted_keys2.
  rewrite <- list_elem_of_In, merge_sort_Permutation, list_elem_of_fmap.
  split.
  - intros ([k v] & -> & H). apply elem_of_map_to_list in H. eauto.
  - intros [v H]. exists (key, v). split; [reflexivity|]. apply elem_of_map_to_list. exact H.
Qed.
Lemma sorted_keys3_spec {V} (m : gmap (nat * nat * nat) V) key :
  In key (sorted_keys3 m) <-> is_Some (m !! key).
Proof.
  unfold sorted_keys3.
  rewrite <- list_elem_of_In, merge_sort_Permutation, list_elem_of_fmap.
  split.
  - intros ([k v] & -> & H). apply elem_of_map_to_list in H. eauto.
  - intros [v H]. exists (key, v). split; [reflexivity|]. apply elem_of_map_to_list. exact H.
Qed.

Lemma length_sorted_keys2 {V} (m : gmap (nat * nat) V) :
  length (sorted_keys2 m) = size m.
Proof.
  unfold sorted_keys2.
  rewrite (Permutation_length (merge_sort_Permutation _ _)), length_map.
  apply length_map_to_list.
Qed.
Lemma length_sorted_keys3 {V} (m : gmap (nat * nat * nat) V) :
  length (sorted_keys3 m) = size m.
Proof.
  unfold sorted_keys3.
  rewrite (Permutation_length (merge_sort_Permutation _ _)), length_map.
  apply length_map_to_list.
Qed.

Lemma py_int_inject_Z q z : (q == inject_Z z)%Q -> py_int q = z.
Proof.
  intros H. unfold py_int. destruct (Qlt_le_dec q 0).
  - rewrite (Qceiling_comp _ _ H). apply Qceiling_Z.
  - rewrite (Qfloor_comp _ _ H). apply Qfloor_Z.
Qed.

Lemma half_product_exact (a b n : Z) :
  (exists t, a * b = 2 * t)%Z ->
  (inject_Z (a * b) / 2 * inject_Z n == inject_Z (a * b / 2 * n))%Q.
Proof.
  intros [t Ht]. rewrite Ht.
  replace (2 * t / 2)%Z with t by (symmetry; rewrite Z.mul_comm; apply Z.div_mul; lia).
  rewrite !inject_Z_mult. field.
Qed.

Lemma consecutive_even (a : Z) : exists t, (a * (a + 1) = 2 * t)%Z.
Proof.
  destruct (Z.Even_or_Odd a) as [[m ->]|[m ->]].
  - exists (m * (2 * m + 1))%Z. ring.
  - exists ((2 * m + 1) * (m + 1))%Z. ring.
Qed.

Lemma width2_value (n_elem n : nat) :
  Z.to_nat (py_int (inject_Z (Z.of_nat n_elem * (Z.of_nat n_elem + 1)) / 2
                    * inject_Z (Z.of_nat n))%Q)
  = (slots2 n_elem * n)%nat.
Proof.
  rewrite (py_int_inject_Z _ (Z.of_nat n_elem * (Z.of_nat n_elem + 1) / 2 * Z.of_nat n)).
  - unfold slots2. rewrite Z2Nat.inj_mul, Nat2Z.id; try lia.
    + f_equal. rewrite Z2Nat.inj_div by lia.
      rewrite Z2Nat.inj_mul by lia. rewrite Z2Nat.inj_add by lia.
      rewrite Nat2Z.id. reflexivity.
    + apply Z.div_pos; lia.
  - apply half_product_exact. apply consecutive_even.
Qed.

Lemma width3_value (n_elem n : nat) :
  Z.to_nat (py_int (inject_Z (Z.of_nat n_elem * Z.of_nat n_elem
                              * (Z.of_nat n_elem + 1)) / 2
                    * inject_Z (Z.of_nat n))%Q)
  = (slots3 n_elem * n)%nat.
Proof.
  rewrite (py_int_inject_Z _ (Z.of_nat n_elem * Z.of_nat n_elem
                              * (Z.of_nat n_elem + 1) / 2 * Z.of_nat n)).
  - unfold slots3. rewrite Z2Nat.inj_mul, Nat2Z.id; try lia.
    + f_equal. rewrite Z2Nat.inj_div by lia.
      rewrite !Z2Nat.inj_mul by lia. rewrite Z2Nat.inj_add by lia.
      rewrite Nat2Z.id. reflexivity.
    + apply Z.div_pos; lia.
  - rewrite <- Z.mul_assoc. apply half_product_exact.
    destruct (consecutive_even (Z.of_nat n_elem)) as [t Ht].
    exists (Z.of_nat n_elem * t)%Z. rewrite Ht. ring.
Qed.

Lemma dense_offset2 (N n i j : nat) :
  (i < N)%nat -> (j < N)%nat -> ((i * N + j) * n + n <= N * N * n)%nat.
Proof.
  intros Hi Hj. assert (H : (i * N + j + 1 <= N * N)%nat) by nia.
  apply (Nat.mul_le_mono_r _ _ n) in H. lia.
Qed.

Lemma dense_offset3 (N n i j k : nat) :
  (i < N)%nat -> (j < N)%nat -> (k < N)%nat ->
  (((i * N + j) * N + k) * n + n <= N * N * N * n)%nat.
Proof.
  intros Hi Hj Hk.
  assert (H1 : (i * N + j + 1 <= N * N)%nat) by nia.
  assert (H : ((i * N + j) * N + k + 1 <= N * N * N)%nat) by nia.
  apply (Nat.mul_le_mono_r _ _ n) in H. lia.
Qed.

Section K_methods.
Variable erf : R -> R.

Lemma K2_returns settings min_k max_k sigma n self g w :
  g_min settings = Some min_k -> g_max settings = Some max_k ->
  g_sigma settings = Some sigma -> g_n settings = Some n ->
  n <> 1%nat -> (normalize_gaussians (cfg self) = true \/ sigma <> 0%R) ->
  k2_geoms (call self) = Some g -> k2_weights (call self) = Some w ->
  covers g w ->
  (if flatten (cfg self) then (size g <= slots2 (n_elements (derived self)))%nat
   else forall i j, is_Some (g !! (i, j)) ->
          (i < n_elements (derived self))%nat /\ (j < n_elements (derived self))%nat) ->
  exists buf,
    K2 erf settings self
    = (set_call (set_axis_k2 (linspace min_k max_k n) (call self)) self,
       ok (mkArray (if flatten (cfg self)
                    then [1%nat; (slots2 (n_elements (derived self)) * n)%nat]
                    else [n_elements (derived self); n_elements (derived self); n])
                   buf)) /\
    length buf = (if flatten (cfg self)
                  then slots2 (n_elements (derived self)) * n
                  else n_elements (derived self) * n_elements (derived self) * n)%nat.
Proof.
  intros Hmin Hmax Hsigma Hn Hn1 Hs0 Hg Hw Hcov Hkeys.
  unfold K2. unfold mbind', mlift, mmodify, mget, mret, mraise.
  rewrite Hmin, Hmax, Hn. cbn [getitem ok]. cbv beta iota.
  cbn [call cfg derived set_call set_axis_k2 k2_geoms k2_weights].
  rewrite Hg, Hw. cbv beta iota. rewrite width2_value.
  set (N := n_elements (derived self)) in *.
  set (W := (if flatten (cfg self) then slots2 N * n else N * N * n)%nat).
  unfold ok. cbv beta iota.
  match goal with
  | |- exists buf, ?lhs = _ /\ _ =>
      match lhs with
      | context [rfold ?body ?l ?b0] =>
          destruct (rfold_invariant (fun buf => length buf = W) body l) with (s := b0)
            as (buf & Hrun & Hlen)
      end
  end.
  - intros buf [m [i j]] Hbuf Hin. cbn [fst snd].
    apply in_enumerate in Hin as [Hm Hkey].
    rewrite length_sorted_keys2 in Hm. apply sorted_keys2_spec in Hkey.
    destruct Hkey as [geoms Hgeoms]. destruct (Hcov _ _ Hgeoms) as (weights & Hweights & Hbc).
    unfold cached_lookup. rewrite Hgeoms, Hweights. cbn [rbind ok].
    destruct (gaussian_sum_length erf
                (set_call (set_axis_k2 (linspace min_k max_k n) (call self)) self)
                geoms weights settings _ _ _ _ Hmin Hmax Hsigma Hn Hn1 Hs0 Hbc)
      as (pdf & -> & Hpdf).
    cbn [rbind ok]. unfold W in *. rewrite <- Hbuf. destruct (flatten (cfg self)).
    + apply assign_block_length; [exact Hpdf|]. rewrite Hbuf. nia.
    + destruct (Hkeys i j (ex_intro _ _ Hgeoms)) as [Hi Hj].
      destruct (Nat.ltb_spec i N); [|lia]. destruct (Nat.ltb_spec j N); [|lia].
      cbn [andb]. apply assign_block_length; [exact Hpdf|]. rewrite Hbuf.
      apply dense_offset2; assumption.
  - unfold W. destruct (flatten (cfg self)); apply repeat_length.
  - exists buf. unfold ok in Hrun. rewrite Hrun. split; [reflexivity|exact Hlen].
Qed.

Lemma K1_returns settings min_k max_k sigma n self g w :
  g_min settings = Some min_k -> g_max settings = Some max_k ->
  g_sigma settings = Some sigma -> g_n settings = Some n ->
  n <> 1%nat -> (normalize_gaussians (cfg self) = true \/ sigma <> 0%R) ->
  k1_geoms (call self) = Some g -> k1_weights (call self) = Some w ->
  covers g w ->
  (forall i, is_Some (g !! i) -> (i < n_elements (derived self))%nat) ->
  exists buf,
    K1 erf settings self
    = (set_call (set_axis_k1 (linspace min_k max_k n) (call self)) self,
       ok (mkArray (if flatten (cfg self)
                    then [1%nat; (n_elements (derived self) * n)%nat]
                    else [n_elements (derived self); n])
                   buf)) /\
    length buf = (n_elements (derived self) * n)%nat.
Proof.
  intros Hmin Hmax Hsigma Hn Hn1 Hs0 Hg Hw Hcov Hkeys.
  unfold K1. unfold mbind', mlift, mmodify, mget, mret, mraise.
  rewrite Hmin, Hmax, Hn. cbn [getitem ok]. cbv beta iota.
  cbn [call cfg derived set_call set_axis_k1 k1_geoms k1_weights].
  rewrite Hg, Hw. cbv beta iota.
  set (N := n_elements (derived self)) in *.
  unfold ok. cbv beta iota.
  match goal with
  | |- exists buf, ?lhs = _ /\ _ =>
      match lhs with
      | context [rfold ?body ?l ?b0] =>
          destruct (rfold_invariant (fun buf => length buf = (N * n)%nat) body l)
            with (s := b0) as (buf & Hrun & Hlen)
      end
  end.
  - intros buf [m i] Hbuf Hin. cbn [fst snd].
    apply in_enumerate in Hin as [Hm Hkey]. apply sorted_keys1_spec in Hkey.
    destruct Hkey as [geoms Hgeoms].
    destruct (Hcov _ _ Hgeoms) as (weights & Hweights & Hbc).
    pose proof (Hkeys i (ex_intro _ _ Hgeoms)) as Hi.
    unfold cached_lookup. rewrite Hgeoms, Hweights. cbn [rbind ok].
    destruct (gaussian_sum_length erf
                (set_call (set_axis_k1 (linspace min_k max_k n) (call self)) self)
                geoms weights settings _ _ _ _ Hmin Hmax Hsigma Hn Hn1 Hs0 Hbc)
      as (pdf & -> & Hpdf).
    cbn [rbind ok]. rewrite <- Hbuf.
    destruct (Nat.ltb_spec i N); [|lia].
    destruct (flatten (cfg self));
      (apply assign_block_length; [exact Hpdf|]; rewrite Hbuf; nia).
  - apply repeat_length.
  - exists buf. unfold ok in Hrun. rewrite Hrun. split; [reflexivity|exact Hlen].
Qed.

Lemma K3_returns settings min_k max_k sigma n self g w :
  g_min settings = Some min_k -> g_max settings = Some max_k ->
  g_sigma settings = Some sigma -> g_n settings = Some n ->
  n <> 1%nat -> (normalize_gaussians (cfg self) = true \/ sigma <> 0%R) ->
  k3_geoms (call self) = Some g -> k3_weights (call self) = Some w ->
  covers g w ->
  (if flatten (cfg self) then (size g <= slots3 (n_elements (derived self)))%nat
   else forall i j k, is_Some (g !! (i, j, k)) ->
          (i < n_elements (derived self))%nat /\ (j < n_elements (derived self))%nat
          /\ (k < n_elements (derived self))%nat) ->
  exists buf,
    K3 erf settings self
    = (set_call (set_axis_k3 (linspace min_k max_k n) (call self)) self,
       ok (mkArray (if flatten (cfg self)
                    then [1%nat; (slots3 (n_elements (derived self)) * n)%nat]
                    else [n_elements (derived self); n_elements (derived self);
                          n_elements (derived self); n])
                   buf)) /\
    length buf = (if flatten (cfg self)
                  then slots3 (n_elements (derived self)) * n
                  else n_elements (derived self) * n_elements (derived self)
                       * n_elements (derived self) * n)%nat.
Proof.
  intros Hmin Hmax Hsigma Hn Hn1 Hs0 Hg Hw Hcov Hkeys.
  unfold K3. unfold mbind', mlift, mmodify, mget, mret, mraise.
  rewrite Hmin, Hmax, Hn. cbn [getitem ok]. cbv beta iota.
  cbn [call cfg derived set_call set_axis_k3 k3_geoms k3_weights].
  rewrite Hg, Hw. cbv beta iota. rewrite width3_value.
  set (N := n_elements (derived self)) in *.
  set (W := (if flatten (cfg self) then slots3 N * n else N * N * N * n)%nat).
  unfold ok. cbv beta iota.
  match goal with
  | |- exists buf, ?lhs = _ /\ _ =>
      match lhs with
      | context [rfold ?body ?l ?b0] =>
          destruct (rfold_invariant (fun buf => length buf = W) body l) with (s := b0)
            as (buf & Hrun & Hlen)
      end
  end.
  - intros buf [m [[i j] k]] Hbuf Hin. cbn [fst snd].
    apply in_enumerate in Hin as [Hm Hkey].
    rewrite length_sorted_keys3 in Hm. apply sorted_keys3_spec in Hkey.
    destruct Hkey as [geoms Hgeoms].
    destruct (Hcov _ _ Hgeoms) as (weights & Hweights & Hbc).
    unfold cached_lookup. rewrite Hgeoms, Hweights. cbn [rbind ok].
    destruct (gaussian_sum_length erf
                (set_call (set_axis_k3 (linspace min_k max_k n) (call self)) self)
                geoms weights settings _ _ _ _ Hmin Hmax Hsigma Hn Hn1 Hs0 Hbc)
      as (pdf & -> & Hpdf).
    cbn [rbind ok]. unfold W in *. rewrite <- Hbuf. destruct (flatten (cfg self)).
    + apply assign_block_length; [exact Hpdf|]. rewrite Hbuf. nia.
    + destruct (Hkeys i j k (ex_intro _ _ Hgeoms)) as (Hi & Hj & Hk).
      destruct (Nat.ltb_spec i N); [|lia]. destruct (Nat.ltb_spec j N); [|lia].
      destruct (Nat.ltb_spec k N); [|lia].
      cbn [andb]. apply assign_block_length; [exact Hpdf|]. rewrite Hbuf.
      apply dense_offset3; assumption.
  - unfold W. destruct (flatten (cfg self)); apply repeat_length.
  - exists buf. unfold ok in Hrun. rewrite Hrun. split; [reflexivity|exact Hlen].
Qed.
End K_methods.

(** ** [describe] returns, with the announced sizes *)


Lemma returns_ret {A} (a : A) s (Q : A -> MBTR -> Prop) :
  Q a s -> returns (mret a) s Q.
Proof. intros H. exists s, a. split; [reflexivity|exact H]. Qed.

Lemma returns_modify f s (Q : unit -> MBTR -> Prop) :
  Q tt (f s) -> returns (mmodify f) s Q.
Proof. intros H. exists (f s), tt. split; [reflexivity|exact H]. Qed.

Lemma returns_get s (Q : MBTR -> MBTR -> Prop) :
  Q s s -> returns mget s Q.
Proof. intros H. exists s, s. split; [reflexivity|exact H]. Qed.

Lemma returns_lift {A} (r : res A) a s (Q : A -> MBTR -> Prop) :
  r = ok a -> Q a s -> returns (mlift r) s Q.
Proof. intros -> H. exists s, a. split; [reflexivity|exact H]. Qed.



Lemma index_map_Some l x : In x l -> is_Some (index_map l !! x).
Proof.
  intros Hx. destruct (index_map l !! x) eqn:E; [eauto|].
  apply index_map_None in E. contradiction.
Qed.




Lemma divisions_defined_fields normalize info sigma n :
  g_sigma info = Some sigma -> g_n info = Some n ->
  divisions_defined normalize info ->
  n <> 1%nat /\ (normalize = true \/ sigma <> 0%R).
Proof.
  intros Hs Hn [H1 H2]. rewrite Hn in H1. rewrite Hs in H2. split.
  - intros ->. apply H1. reflexivity.
  - destruct H2 as [H2|H2]; [left; exact H2|right]. intros ->. apply H2. reflexivity.
Qed.





Lemma k_contains_In x l : k_contains x (K_iterable l) = true <-> In x l.
Proof.
  unfold k_contains. cbn [k_iter]. rewrite existsb_exists. split.
  - intros (y & Hy & Heq). apply Z.eqb_eq in Heq. subst. exact Hy.
  - intros H. exists x. split; [exact H|apply Z.eqb_refl].
Qed.

Section Describe_returns.
Variable set_of : list Z -> list Z.
Variable erf : R -> R.
Variable System_new : list vec3 -> list Z -> mat3 -> bool -> System.
Variable cmbtr_k1 :
  list vec3 -> list Z -> gmap Z nat -> option nat ->
  gmap nat (list R) * gmap nat (list R).
Variable cmbtr_k2 :
  list vec3 -> list Z -> gmap Z nat -> option nat -> string -> option (R * R) ->
  gmap (nat * nat) (list R) * gmap (nat * nat) (list R).
Variable cmbtr_k3 :
  list vec3 -> list Z -> gmap Z nat -> option nat -> string -> option (R * R) ->
  gmap (nat * nat * nat) (list R) * gmap (nat * nat * nat) (list R).
Hypothesis set_of_elements : set_of_spec set_of.




End Describe_returns.

Lemma same_inputs_refl s : same_inputs s s.
Proof. unfold same_inputs. repeat split. Qed.

Lemma requested_orders_split s :
  requested_orders s
  = (if k_contains 1 (k (cfg s)) then [1%Z] else [])
    ++ (if k_contains 2 (k (cfg s)) then [2%Z] else [])
    ++ (if k_contains 3 (k (cfg s)) then [3%Z] else []).
Proof.
  unfold requested_orders. cbn [List.filter].
  destruct (k_contains 1 _), (k_contains 2 _), (k_contains 3 _); reflexivity.
Qed.

Lemma total_features_widths s :
  total_features s
  = list_sum (map (fun order => tensor_width order s) (requested_orders s)).
Proof.
  unfold total_features, contribution, requested_orders. cbn [List.filter].
  destruct (k_contains 1 _), (k_contains 2 _), (k_contains 3 _);
    unfold list_sum; cbn [map fold_right tensor_width]; lia.
Qed.

Lemma flatten_fold (mbtr : list ndarray) : forall len datas,
  fold_left (fun (acc : nat * list (list R)) (tensor : ndarray) =>
               let size := nth 1 (shape tensor) 0%nat in
               ((fst acc + size)%nat, snd acc ++ [data tensor]))
            mbtr (len, datas)
  = ((len + list_sum (map (fun t => nth 1 (shape t) 0%nat) mbtr))%nat,
     datas ++ map data mbtr).
Proof.
  induction mbtr as [|t mbtr IH]; intros len datas; unfold list_sum; cbn [fold_left map fold_right].
  - rewrite Nat.add_0_r, app_nil_r. reflexivity.
  - unfold list_sum in IH. rewrite IH. cbn [fst snd]. rewrite <- app_assoc. f_equal. lia.
Qed.

Lemma parts_flat s orders mbtr :
  flatten (cfg s) = true ->
  Forall2 (part_fits s) orders mbtr ->
  list_sum (map (fun t => nth 1 (shape t) 0%nat) mbtr)
  = list_sum (map (fun order => tensor_width order s) orders) /\
  length (concat (map data mbtr))
  = list_sum (map (fun order => tensor_width order s) orders).
Proof.
  intros Hf. induction 1 as [|o t orders mbtr Hfit _ [IH1 IH2]]; [split; reflexivity|].
  unfold part_fits in Hfit. rewrite Hf in Hfit. destruct Hfit as [Hsh Hlen].
  unfold list_sum in *. cbn [map fold_right concat nth].
  rewrite length_app, Hsh, Hlen, IH1, IH2. cbn [nth]. split; reflexivity.
Qed.

Lemma parts_dense s orders mbtr :
  flatten (cfg s) = false ->
  Forall2 (part_fits s) orders mbtr ->
  map shape mbtr = map (fun order => dense_shape order s) orders /\
  Forall (fun t => length (data t) = shape_product (shape t)) mbtr.
Proof.
  intros Hf. induction 1 as [|o t orders mbtr Hfit _ [IH1 IH2]]; [split; constructor|].
  unfold part_fits in Hfit. rewrite Hf in Hfit. destruct Hfit as [Hsh Hlen].
  cbn [map]. rewrite Hsh, IH1. split; [reflexivity|]. constructor; assumption.
Qed.

Section Create_with_grid.
Variable erf : R -> R.

Lemma K1_stage s s' orders mbtr :
  same_inputs s s' ->
  (k_contains 1 (k (cfg s)) = true ->
   k1_ready s /\ usable_grid (normalize_gaussians (cfg s)) (get_k1_settings s)) ->
  Forall2 (part_fits s) orders mbtr ->
  returns (if k_contains 1 (k (cfg s))
           then mbind' (K1 erf (get_k1_settings s)) (fun k1 => mret (mbtr ++ [k1]))
           else mret mbtr) s'
    (fun mbtr' s'' =>
       same_inputs s s'' /\
       Forall2 (part_fits s)
               (orders ++ (if k_contains 1 (k (cfg s)) then [1%Z] else [])) mbtr').
Proof.
  intros Hsame Hreq Hparts. destruct (k_contains 1 (k (cfg s))).
  2:{ apply returns_ret. rewrite app_nil_r. split; assumption. }
  destruct (Hreq eq_refl) as [(g & w & Hg & Hw & Hcov & Hkeys)
                               [(min_k & max_k & sigma & n & Hmin & Hmax & Hsigma & Hn)
                                  Hdiv]].
  destruct (divisions_defined_fields _ _ _ _ Hsigma Hn Hdiv) as [Hn1 Hs0].
  destruct Hsame as (Hc & Hd & Hsys & H1g & H1w & H2g & H2w & H3g & H3w).
  destruct (K1_returns erf _ _ _ _ _ s' g w Hmin Hmax Hsigma Hn Hn1)
    as (buf & Hrun & Hlen);
    [rewrite Hc; exact Hs0|congruence|congruence|exact Hcov| |].
  { intros i Hi. rewrite Hd. apply Hkeys, Hi. }
  unfold returns, mbind'. rewrite Hrun. unfold ok, mret.
  eexists _, _. split; [reflexivity|]. split.
  - unfold same_inputs. cbn. repeat split; assumption.
  - apply Forall2_app; [exact Hparts|]. constructor; [|constructor].
    unfold part_fits. rewrite <- Hc. cbn [shape data].
    unfold tensor_width, dense_shape, grid_n. cbn [settings_of]. rewrite Hn, <- Hd.
    destruct (flatten (cfg s')).
    + split; [reflexivity|exact Hlen].
    + split; [reflexivity|]. rewrite Hlen. cbn [shape_product fold_right]. lia.
Qed.

Lemma K2_stage s s' orders mbtr :
  same_inputs s s' ->
  (k_contains 2 (k (cfg s)) = true ->
   k2_ready s /\ usable_grid (normalize_gaussians (cfg s)) (get_k2_settings s)) ->
  Forall2 (part_fits s) orders mbtr ->
  returns (if k_contains 2 (k (cfg s))
           then mbind' (K2 erf (get_k2_settings s)) (fun k2 => mret (mbtr ++ [k2]))
           else mret mbtr) s'
    (fun mbtr' s'' =>
       same_inputs s s'' /\
       Forall2 (part_fits s)
               (orders ++ (if k_contains 2 (k (cfg s)) then [2%Z] else [])) mbtr').
Proof.
  intros Hsame Hreq Hparts. destruct (k_contains 2 (k (cfg s))).
  2:{ apply returns_ret. rewrite app_nil_r. split; assumption. }
  destruct (Hreq eq_refl) as [(g & w & Hg & Hw & Hcov & Hsize & Hkeys)
                               [(min_k & max_k & sigma & n & Hmin & Hmax & Hsigma & Hn)
                                  Hdiv]].
  destruct (divisions_defined_fields _ _ _ _ Hsigma Hn Hdiv) as [Hn1 Hs0].
  destruct Hsame as (Hc & Hd & Hsys & H1g & H1w & H2g & H2w & H3g & H3w).
  destruct (K2_returns erf _ _ _ _ _ s' g w Hmin Hmax Hsigma Hn Hn1)
    as (buf & Hrun & Hlen);
    [rewrite Hc; exact Hs0|congruence|congruence|exact Hcov| |].
  { rewrite Hd. destruct (flatten (cfg s')); assumption. }
  unfold returns, mbind'. rewrite Hrun. unfold ok, mret.
  eexists _, _. split; [reflexivity|]. split.
  - unfold same_inputs. cbn. repeat split; assumption.
  - apply Forall2_app; [exact Hparts|]. constructor; [|constructor].
    unfold part_fits. rewrite <- Hc. cbn [shape data].
    unfold tensor_width, dense_shape, grid_n. cbn [settings_of]. rewrite Hn, <- Hd.
    destruct (flatten (cfg s')).
    + split; [reflexivity|exact Hlen].
    + split; [reflexivity|]. rewrite Hlen. cbn [shape_product fold_right]. lia.
Qed.

Lemma K3_stage s s' orders mbtr :
  same_inputs s s' ->
  (k_contains 3 (k (cfg s)) = true ->
   k3_ready s /\ usable_grid (normalize_gaussians (cfg s)) (get_k3_settings s)) ->
  Forall2 (part_fits s) orders mbtr ->
  returns (if k_contains 3 (k (cfg s))
           then mbind' (K3 erf (get_k3_settings s)) (fun k3 => mret (mbtr ++ [k3]))
           else mret mbtr) s'
    (fun mbtr' s'' =>
       same_inputs s s'' /\
       Forall2 (part_fits s)
               (orders ++ (if k_contains 3 (k (cfg s)) then [3%Z] else [])) mbtr').
Proof.
  intros Hsame Hreq Hparts. destruct (k_contains 3 (k (cfg s))).
  2:{ apply returns_ret. rewrite app_nil_r. split; assumption. }
  destruct (Hreq eq_refl) as [(g & w & Hg & Hw & Hcov & Hsize & Hkeys)
                               [(min_k & max_k & sigma & n & Hmin & Hmax & Hsigma & Hn)
                                  Hdiv]].
  destruct (divisions_defined_fields _ _ _ _ Hsigma Hn Hdiv) as [Hn1 Hs0].
  destruct Hsame as (Hc & Hd & Hsys & H1g & H1w & H2g & H2w & H3g & H3w).
  destruct (K3_returns erf _ _ _ _ _ s' g w Hmin Hmax Hsigma Hn Hn1)
    as (buf & Hrun & Hlen);
    [rewrite Hc; exact Hs0|congruence|congruence|exact Hcov| |].
  { rewrite Hd. destruct (flatten (cfg s')); assumption. }
  unfold returns, mbind'. rewrite Hrun. unfold ok, mret.
  eexists _, _. split; [reflexivity|]. split.
  - unfold same_inputs. cbn. repeat split; assumption.
  - apply Forall2_app; [exact Hparts|]. constructor; [|constructor].
    unfold part_fits. rewrite <- Hc. cbn [shape data].
    unfold tensor_width, dense_shape, grid_n. cbn [settings_of]. rewrite Hn, <- Hd.
    destruct (flatten (cfg s')).
    + split; [reflexivity|exact Hlen].
    + split; [reflexivity|]. rewrite Hlen. cbn [shape_product fold_right]. lia.
Qed.

(** [create_with_grid()] on an object whose cached values are ready: it
    returns, and the output has the announced sizes. *)
Lemma create_with_grid_returns s :
  (k_contains 1 (k (cfg s)) = true ->
   k1_ready s /\ usable_grid (normalize_gaussians (cfg s)) (get_k1_settings s)) ->
  (k_contains 2 (k (cfg s)) = true ->
   k2_ready s /\ usable_grid (normalize_gaussians (cfg s)) (get_k2_settings s)) ->
  (k_contains 3 (k (cfg s)) = true ->
   k3_ready s /\ usable_grid (normalize_gaussians (cfg s)) (get_k3_settings s)) ->
  (normalize_by_volume (cfg s) = true -> is_Some (system (call s))) ->
  (requested_orders s <> [] \/ flatten (cfg s) = false) ->
  returns (create_with_grid erf None) s
    (fun out s' => same_inputs s s' /\ output_fits s out).
Proof.
  intros H1 H2 H3 Hvol Hne. unfold create_with_grid, returns.
  rewrite (mbind_ok _ _ s s tt eq_refl). cbv zeta.
  rewrite (mbind_ok mget _ s s s eq_refl).
  destruct (K1_stage s s [] [] (same_inputs_refl s) H1 (List.Forall2_nil _))
    as (s1 & m1 & Hrun1 & Hs1 & Hp1).
  rewrite (mbind_ok _ _ _ _ _ Hrun1).
  destruct (K2_stage s s1 _ m1 Hs1 H2 Hp1) as (s2 & m2 & Hrun2 & Hs2 & Hp2).
  rewrite (mbind_ok _ _ _ _ _ Hrun2).
  destruct (K3_stage s s2 _ m2 Hs2 H3 Hp2) as (s3 & m3 & Hrun3 & Hs3 & Hp3).
  rewrite (mbind_ok _ _ _ _ _ Hrun3).
  rewrite (mbind_ok mget _ s3 s3 s3 eq_refl).
  cbn [app] in Hp3. rewrite <- app_assoc, <- requested_orders_split in Hp3.
  assert (Hc : cfg s3 = cfg s) by apply Hs3.
  assert (Hsys : system (call s3) = system (call s)) by apply Hs3.
  rewrite Hc.
  destruct (flatten (cfg s)) eqn:Hflat.
  - rewrite flatten_fold. cbn [app].
    destruct (parts_flat s _ _ Hflat Hp3) as [Hsum Hlen].
    rewrite <- total_features_widths in Hsum, Hlen.
    destruct (map data m3) as [|d ds] eqn:Hdatas.
    { destruct Hne as [Hne|Hne]; [|discriminate].
      destruct m3; [|discriminate]. inversion Hp3 as [Hreq|]. congruence. }
    cbv beta iota. rewrite <- Hdatas in Hlen |- *. cbn [Nat.add]. rewrite Hsum.
    destruct (normalize_by_volume (cfg s)) eqn:Hnorm.
    + destruct (Hvol eq_refl) as [sys Hsome].
      unfold get_volume. rewrite Hsys, Hsome.
      eexists _, _. split; [reflexivity|]. split; [exact Hs3|].
      cbn [output_fits shape data]. rewrite length_map. auto.
    + eexists _, _. split; [reflexivity|]. split; [exact Hs3|].
      cbn [output_fits shape data]. auto.
  - destruct (parts_dense s _ _ Hflat Hp3) as [Hshape Hall].
    destruct (normalize_by_volume (cfg s)) eqn:Hnorm.
    + destruct (Hvol eq_refl) as [sys Hsome].
      unfold get_volume. rewrite Hsys, Hsome.
      eexists _, _. split; [reflexivity|]. split; [exact Hs3|].
      cbn [output_fits]. split; [exact Hflat|]. split.
      * rewrite map_map. cbn [shape]. exact Hshape.
      * apply Forall_map. cbn [shape data].
        eapply Forall_impl; [exact Hall|]. intros t Ht. cbn beta.
        rewrite length_map. exact Ht.
    + eexists _, _. split; [reflexivity|]. split; [exact Hs3|].
      cbn [output_fits]. auto.
Qed.
End Create_with_grid.






Section Describe_stages.
Variable set_of : list Z -> list Z.
Variable erf : R -> R.
Variable System_new : list vec3 -> list Z -> mat3 -> bool -> System.
Variable cmbtr_k1 :
  list vec3 -> list Z -> gmap Z nat -> option nat ->
  gmap nat (list R) * gmap nat (list R).
Variable cmbtr_k2 :
  list vec3 -> list Z -> gmap Z nat -> option nat -> string -> option (R * R) ->
  gmap (nat * nat) (list R) * gmap (nat * nat) (list R).
Variable cmbtr_k3 :
  list vec3 -> list Z -> gmap Z nat -> option nat -> string -> option (R * R) ->
  gmap (nat * nat * nat) (list R) * gmap (nat * nat * nat) (list R).
Hypothesis set_of_elements : set_of_spec set_of.





End Describe_stages.




Section Describe_total.
Variable set_of : list Z -> list Z.
Variable erf : R -> R.
Variable System_new : list vec3 -> list Z -> mat3 -> bool -> System.
Variable cmbtr_k1 :
  list vec3 -> list Z -> gmap Z nat -> option nat ->
  gmap nat (list R) * gmap nat (list R).
Variable cmbtr_k2 :
  list vec3 -> list Z -> gmap Z nat -> option nat -> string -> option (R * R) ->
  gmap (nat * nat) (list R) * gmap (nat * nat) (list R).
Variable cmbtr_k3 :
  list vec3 -> list Z -> gmap Z nat -> option nat -> string -> option (R * R) ->
  gmap (nat * nat * nat) (list R) * gmap (nat * nat * nat) (list R).
Hypothesis set_of_elements : set_of_spec set_of.

End Describe_total.

(** ** The feature count and the sizes of the output *)






(** ** The column blocks of the flattened tensors *)

Lemma gaussian_sum_reads_cfg erf a b centers weights settings :
  cfg a = cfg b ->
  gaussian_sum erf a centers weights settings
  = gaussian_sum erf b centers weights settings.
Proof. intros H. unfold gaussian_sum. rewrite H. reflexivity. Qed.

Lemma sorted_keys2_singleton {V} key (v : V) :
  sorted_keys2 ({[ key := v ]} : gmap (nat * nat) V) = [key].
Proof. unfold sorted_keys2. rewrite map_to_list_singleton. reflexivity. Qed.

Lemma sorted_keys3_singleton {V} key (v : V) :
  sorted_keys3 ({[ key := v ]} : gmap (nat * nat * nat) V) = [key].
Proof. unfold sorted_keys3. rewrite map_to_list_singleton. reflexivity. Qed.

Lemma sorted_keys2_two {V} (v0 v1 : V) :
  sorted_keys2 ({[ (0%nat, 0%nat) := v0; (1%nat, 1%nat) := v1 ]}
                : gmap (nat * nat) V)
  = [(0%nat, 0%nat); (1%nat, 1%nat)].
Proof. vm_compute. reflexivity. Qed.

Section Flattened_blocks.
Variable erf : R -> R.

Lemma K2_only_last_pair gs ws :
  broadcastable gs ws ->
  exists a b,
    gaussian_sum erf (pairs_self {[ (1%nat, 1%nat) := gs ]} {[ (1%nat, 1%nat) := ws ]})
                 gs ws two_point_grid = ok [a; b] /\
    snd (K2 erf two_point_grid
            (pairs_self {[ (1%nat, 1%nat) := gs ]} {[ (1%nat, 1%nat) := ws ]}))
    = ok (mkArray [1%nat; 6%nat] [a; b; 0; 0; 0; 0]%R).
Proof.
  intros Hb. set (self := pairs_self _ _).
  destruct (gaussian_sum_length erf self gs ws two_point_grid 0 1 (1 / 10) 2
              eq_refl eq_refl eq_refl eq_refl ltac:(lia) ltac:(right; lra) Hb)
    as (pdf & Hpdf & Hlen).
  destruct pdf as [|a [|b [|c pdf]]]; try discriminate.
  exists a, b. split; [exact Hpdf|].
  unfold K2. unfold mbind', mlift, mmodify, mget, mret, mraise.
  cbn [getitem ok two_point_grid g_min g_max g_n]. cbv beta iota.
  rewrite width2_value.
  cbn [self pairs_self call cfg derived set_call set_axis_k2 set_k2 k2_geoms
       k2_weights fst snd flat_config flatten two_elements n_elements].
  unfold ok. cbv beta iota. rewrite sorted_keys2_singleton.
  cbn [enumerate length seq combine rfold fst snd cached_lookup].
  rewrite !lookup_singleton. rewrite !decide_True by reflexivity.
  unfold ok. cbn [rbind].
  rewrite (gaussian_sum_reads_cfg erf _ self) by reflexivity.
  unfold ok in Hpdf. rewrite Hpdf. reflexivity.
Qed.

Lemma K2_both_pairs gs ws gs0 ws0 :
  broadcastable gs ws -> broadcastable gs0 ws0 ->
  exists a b a0 b0,
    gaussian_sum erf (pairs_self {[ (1%nat, 1%nat) := gs ]} {[ (1%nat, 1%nat) := ws ]})
                 gs ws two_point_grid = ok [a; b] /\
    snd (K2 erf two_point_grid
            (pairs_self {[ (0%nat, 0%nat) := gs0; (1%nat, 1%nat) := gs ]}
                        {[ (0%nat, 0%nat) := ws0; (1%nat, 1%nat) := ws ]}))
    = ok (mkArray [1%nat; 6%nat] [a0; b0; a; b; 0; 0]%R).
Proof.
  intros Hb Hb0.
  set (self1 := pairs_self {[ (1%nat, 1%nat) := gs ]} {[ (1%nat, 1%nat) := ws ]}).
  set (self := pairs_self _ _).
  destruct (gaussian_sum_length erf self gs ws two_point_grid 0 1 (1 / 10) 2
              eq_refl eq_refl eq_refl eq_refl ltac:(lia) ltac:(right; lra) Hb)
    as (pdf & Hpdf & Hlen).
  destruct pdf as [|a [|b [|c pdf]]]; try discriminate.
  destruct (gaussian_sum_length erf self gs0 ws0 two_point_grid 0 1 (1 / 10) 2
              eq_refl eq_refl eq_refl eq_refl ltac:(lia) ltac:(right; lra) Hb0)
    as (pdf0 & Hpdf0 & Hlen0).
  destruct pdf0 as [|a0 [|b0 [|c0 pdf0]]]; try discriminate.
  exists a, b, a0, b0. split.
  { rewrite (gaussian_sum_reads_cfg erf _ self) by reflexivity. exact Hpdf. }
  unfold K2. unfold mbind', mlift, mmodify, mget, mret, mraise.
  cbn [getitem ok two_point_grid g_min g_max g_n]. cbv beta iota.
  rewrite width2_value.
  cbn [self pairs_self call cfg derived set_call set_axis_k2 set_k2 k2_geoms
       k2_weights fst snd flat_config flatten two_elements n_elements].
  unfold ok. cbv beta iota. rewrite sorted_keys2_two.
  cbn [enumerate length seq combine rfold fst snd cached_lookup].
  assert (L0 : forall (u v : list R),
             ({[ (0%nat, 0%nat) := u; (1%nat, 1%nat) := v ]}
              : gmap (nat * nat) (list R)) !! (0%nat, 0%nat) = Some u)
    by (intros; vm_compute; reflexivity).
  assert (L1 : forall (u v : list R),
             ({[ (0%nat, 0%nat) := u; (1%nat, 1%nat) := v ]}
              : gmap (nat * nat) (list R)) !! (1%nat, 1%nat) = Some v)
    by (intros; vm_compute; reflexivity).
  rewrite !L0, !L1. unfold ok. cbn [rbind].
  rewrite (gaussian_sum_reads_cfg erf _ self gs0 ws0) by reflexivity.
  unfold ok in Hpdf, Hpdf0. rewrite Hpdf0. cbn [rbind].
  change (assign_block (repeat 0%R (slots2 2 * 2)) (0 * 2) 2 [a0; b0])
    with (inr [a0; b0; 0; 0; 0; 0]%R : res (list R)).
  cbn [rbind].
  rewrite (gaussian_sum_reads_cfg erf _ self gs ws) by reflexivity.
  rewrite Hpdf. reflexivity.
Qed.

Lemma K3_only_last_triple gs ws :
  broadcastable gs ws ->
  exists a b,
    gaussian_sum erf (pairs_self {[ (1%nat, 1%nat) := gs ]} {[ (1%nat, 1%nat) := ws ]})
                 gs ws two_point_grid = ok [a; b] /\
    snd (K3 erf two_point_grid
            (triples_self {[ (1%nat, 1%nat, 1%nat) := gs ]}
                          {[ (1%nat, 1%nat, 1%nat) := ws ]}))
    = ok (mkArray [1%nat; 12%nat] [a; b; 0; 0; 0; 0; 0; 0; 0; 0; 0; 0]%R).
Proof.
  intros Hb. set (self := triples_self _ _).
  destruct (gaussian_sum_length erf self gs ws two_point_grid 0 1 (1 / 10) 2
              eq_refl eq_refl eq_refl eq_refl ltac:(lia) ltac:(right; lra) Hb)
    as (pdf & Hpdf & Hlen).
  destruct pdf as [|a [|b [|c pdf]]]; try discriminate.
  exists a, b. split.
  { rewrite (gaussian_sum_reads_cfg erf _ self) by reflexivity. exact Hpdf. }
  unfold K3. unfold mbind', mlift, mmodify, mget, mret, mraise.
  cbn [getitem ok two_point_grid g_min g_max g_n]. cbv beta iota.
  rewrite width3_value.
  cbn [self triples_self call cfg derived set_call set_axis_k3 set_k3 k3_geoms
       k3_weights fst snd flat_config flatten two_elements n_elements].
  unfold ok. cbv beta iota. rewrite sorted_keys3_singleton.
  cbn [enumerate length seq combine rfold fst snd cached_lookup].
  rewrite !lookup_singleton. rewrite !decide_True by reflexivity.
  unfold ok. cbn [rbind].
  rewrite (gaussian_sum_reads_cfg erf _ self) by reflexivity.
  unfold ok in Hpdf. rewrite Hpdf. reflexivity.
Qed.
End Flattened_blocks.

(** C2 fails on the code, for all geometry values and weights that go
    together (equally many, or a single one of either). With two declared
    elements, the rank of the pair [(1, 1)] among the non-decreasing pairs
    is 2 and that of the triple [(1, 1, 1)] among the non-decreasing
    triples is 3. When [(1, 1)] is the only combination of the structure,
    the flattened [K2] writes its broadened sequence at columns [[0, n)]
    and leaves columns [[2n, 3n)] zero; when [(0, 0)] is present too, the
    same sequence is at columns [[n, 2n)]. The flattened [K3] writes the
    sequence of the only triple [(1, 1, 1)] at columns [[0, n)] and leaves
    columns [[3n, 4n)] zero. *)
Theorem C2_flattened_block_is_rank_among_present
    (erf : R -> R) (gs ws gs0 ws0 : list R) :
  broadcastable gs ws -> broadcastable gs0 ws0 ->
  exists pdf row_alone row_both row_triple,
    gaussian_sum erf (pairs_self {[ (1%nat, 1%nat) := gs ]} {[ (1%nat, 1%nat) := ws ]})
                 gs ws two_point_grid = ok pdf /\
    length pdf = 2%nat /\
    rank_of (1%nat, 1%nat) (all_pairs 2) = Some 2%nat /\
    rank_of (1%nat, 1%nat, 1%nat) (all_triples 2) = Some 3%nat /\
    snd (K2 erf two_point_grid
            (pairs_self {[ (1%nat, 1%nat) := gs ]} {[ (1%nat, 1%nat) := ws ]}))
      = ok (mkArray [1%nat; 6%nat] row_alone) /\
    columns 0 2 row_alone = pdf /\
    columns 2 2 row_alone = [0; 0]%R /\
    snd (K2 erf two_point_grid
            (pairs_self {[ (0%nat, 0%nat) := gs0; (1%nat, 1%nat) := gs ]}
                        {[ (0%nat, 0%nat) := ws0; (1%nat, 1%nat) := ws ]}))
      = ok (mkArray [1%nat; 6%nat] row_both) /\
    columns 1 2 row_both = pdf /\
    columns 2 2 row_both = [0; 0]%R /\
    snd (K3 erf two_point_grid
            (triples_self {[ (1%nat, 1%nat, 1%nat) := gs ]}
                          {[ (1%nat, 1%nat, 1%nat) := ws ]}))
      = ok (mkArray [1%nat; 12%nat] row_triple) /\
    columns 0 2 row_triple = pdf /\
    columns 3 2 row_triple = [0; 0]%R.
Proof.
  intros Hb Hb0.
  destruct (K2_only_last_pair erf gs ws Hb) as (a & b & Hpdf & Halone).
  destruct (K2_both_pairs erf gs ws gs0 ws0 Hb Hb0)
    as (a' & b' & a0 & b0 & Hpdf' & Hboth).
  destruct (K3_only_last_triple erf gs ws Hb) as (a'' & b'' & Hpdf'' & Htriple).
  rewrite Hpdf in Hpdf', Hpdf''.
  injection Hpdf' as <- <-. injection Hpdf'' as <- <-.
  exists [a; b], [a; b; 0; 0; 0; 0]%R, [a0; b0; a; b; 0; 0]%R,
         [a; b; 0; 0; 0; 0; 0; 0; 0; 0; 0; 0]%R.
  repeat split; try assumption; reflexivity.
Qed.

Lemma C2_flattened_block_is_rank_among_present_witness :
  exists pdf row_alone row_both row_triple,
    gaussian_sum (fun x => x)
                 (pairs_self {[ (1%nat, 1%nat) := [1%R] ]}
                             {[ (1%nat, 1%nat) := [2%R] ]})
                 [1%R] [2%R] two_point_grid = ok pdf /\
    length pdf = 2%nat /\
    rank_of (1%nat, 1%nat) (all_pairs 2) = Some 2%nat /\
    rank_of (1%nat, 1%nat, 1%nat) (all_triples 2) = Some 3%nat /\
    snd (K2 (fun x => x) two_point_grid
            (pairs_self {[ (1%nat, 1%nat) := [1%R] ]}
                        {[ (1%nat, 1%nat) := [2%R] ]}))
      = ok (mkArray [1%nat; 6%nat] row_alone) /\
    columns 0 2 row_alone = pdf /\
    columns 2 2 row_alone = [0; 0]%R /\
    snd (K2 (fun x => x) two_point_grid
            (pairs_self {[ (0%nat, 0%nat) := [(1 / 2)%R]; (1%nat, 1%nat) := [1%R] ]}
                        {[ (0%nat, 0%nat) := [1%R]; (1%nat, 1%nat) := [2%R] ]}))
      = ok (mkArray [1%nat; 6%nat] row_both) /\
    columns 1 2 row_both = pdf /\
    columns 2 2 row_both = [0; 0]%R /\
    snd (K3 (fun x => x) two_point_grid
            (triples_self {[ (1%nat, 1%nat, 1%nat) := [1%R] ]}
                          {[ (1%nat, 1%nat, 1%nat) := [2%R] ]}))
      = ok (mkArray [1%nat; 12%nat] row_triple) /\
    columns 0 2 row_triple = pdf /\
    columns 3 2 row_triple = [0; 0]%R.
Proof.
  apply (C2_flattened_block_is_rank_among_present
           (fun x => x) [1%R] [2%R] [(1 / 2)%R] [1%R]);
    left; reflexivity.
Defined.


(** ** Running the periodic expansion twice *)

Lemma length_concat_In {A} (x : list A) (l : list (list A)) :
  In x l -> (length x <= length (concat l))%nat.
Proof.
  induction l as [|y l IH]; intros Hin; [destruct Hin|].
  cbn [concat]. rewrite length_app. destruct Hin as [->|Hin]; [lia|].
  specialize (IH Hin). lia.
Qed.

(** An image of the first atom that is close enough to the first atom is
    kept. *)
Lemma valid_images_keeps_first function cutoff term n0 ns r0 rs c0 cs cell i j k :
  (let shifted :=
     vsub (vsub (vsub r0 (vscale (IZR i) (1, 0, 0)%R)) (vscale (IZR j) (0, 1, 0)%R))
          (vscale (IZR k) (0, 0, 1)%R) in
   let d := norm3 (vsub (vec_mat shifted cell) c0) in
   function (if (term >? 2)%Z then d * 2 else d) >= cutoff)%R ->
  exists rest,
    snd (valid_images function cutoff term (n0 :: ns) (r0 :: rs) (c0 :: cs) cell i j k)
    = n0 :: rest.
Proof.
  cbv zeta. intros Hw. unfold valid_images. cbn [snd].
  destruct (term >? 2)%Z; cbn [map existsb]; unfold Rgeb at 1;
    (destruct (Rge_dec _ cutoff) as [_|Hn]; [|contradiction]);
    cbn [orb]; unfold mask_select; cbn [combine List.filter fst map snd];
    eexists; reflexivity.
Qed.

Lemma unit_cell_copy_counts :
  copy_counts 3 (exponential_weighting 1) (3 / 10) 2
              (row_norms ((1, 0, 0), (0, 1, 0), (0, 0, 1))%R)
  = ok [2; 2; 2]%Z.
Proof.
  assert (Hloop : copies_loop 3 (exponential_weighting 1) (3 / 10) 1 2 (-1)
                  = ok 2%Z).
  { apply copies_loop_complete; try lia.
    - rewrite weight_at_exp1. replace (- (2 * 1))%R with (-2)%R by lra.
      exact exp_minus_2_lt.
    - intros c' Hc'. rewrite weight_at_exp1.
      assert (c' = 0%Z \/ c' = 1%Z) as [-> | ->] by lia.
      + replace (- (0 * 1))%R with 0%R by lra. rewrite exp_0. lra.
      + replace (- (1 * 1))%R with (-1)%R by lra.
        pose proof exp_minus_1_ge. lra. }
  unfold copy_counts, row_norms. cbn [nth rmapM]. rewrite norm3_axis_x by lra.
  rewrite Hloop. reflexivity.
Qed.

Section Expansion.
Variable System_new : list vec3 -> list Z -> mat3 -> bool -> System.

(** What [create_extended_system] returns: the atoms of the input followed
    by the kept atoms of the images, in the input's cell, not periodic. *)
Lemma create_extended_system_result fuel self sys order ext :
  create_extended_system System_new fuel self sys order = ok ext ->
  exists images : list (list vec3 * list Z),
    ext = System_new (concat (positions sys :: map fst images))
                     (concat (numbers sys :: map snd images))
                     (cell sys) false.
Proof.
  unfold create_extended_system.
  destruct (weighting (cfg self)) as [w|]; [|discriminate]. cbn [rbind ok].
  destruct (w !! kkey order) as [[wi|]|]; try discriminate. cbn [rbind ok].
  destruct (w_function wi) as [f|]; [|discriminate]. cbn [getitem rbind ok].
  destruct (w_cutoff wi) as [cutoff|]; [|discriminate]. cbn [getitem rbind ok].
  destruct (String.eqb f "exponential"); [|discriminate].
  destruct (w_scale wi) as [scale|]; [|discriminate]. cbn [getitem rbind ok].
  destruct (copy_counts _ _ _ _ _) as [e|counts]; [discriminate|].
  cbn [rbind ok]. intros [= <-]. eexists. reflexivity.
Qed.

(** Whether [create_extended_system] returns depends on the cell only. *)
Lemma create_extended_system_again fuel self sys sys' order ext :
  cell sys' = cell sys ->
  create_extended_system System_new fuel self sys order = ok ext ->
  exists ext', create_extended_system System_new fuel self sys' order = ok ext'.
Proof.
  intros Hcell. unfold create_extended_system. rewrite Hcell.
  destruct (weighting (cfg self)) as [w|]; [|discriminate]. cbn [rbind ok].
  destruct (w !! kkey order) as [[wi|]|]; try discriminate. cbn [rbind ok].
  destruct (w_function wi) as [f|]; [|discriminate]. cbn [getitem rbind ok].
  destruct (w_cutoff wi) as [cutoff|]; [|discriminate]. cbn [getitem rbind ok].
  destruct (String.eqb f "exponential"); [|discriminate].
  destruct (w_scale wi) as [scale|]; [|discriminate]. cbn [getitem rbind ok].
  destruct (copy_counts _ _ _ _ _) as [e|counts]; [discriminate|].
  cbn [rbind ok]. intros _. eexists. reflexivity.
Qed.

Hypothesis System_new_keeps : System_new_spec System_new.

Lemma create_extended_system_appends fuel self sys order ext :
  create_extended_system System_new fuel self sys order = ok ext ->
  (exists added, positions ext = positions sys ++ added) /\
  (exists added, numbers ext = numbers sys ++ added) /\
  cell ext = cell sys /\ pbc ext = false.
Proof.
  intros H. apply create_extended_system_result in H as [images ->].
  destruct (System_new_keeps (concat (positions sys :: map fst images))
              (concat (numbers sys :: map snd images)) (cell sys) false)
    as (-> & -> & -> & ->).
  cbn [concat]. split; [eexists; reflexivity|].
  split; [eexists; reflexivity|]. split; reflexivity.
Qed.

End Expansion.

Lemma existsb_map {A B} (g : B -> bool) (h : A -> B) l :
  existsb g (map h l) = existsb (fun x => g (h x)) l.
Proof. induction l as [|a l IH]; simpl; [reflexivity|]. rewrite IH. reflexivity. Qed.

Lemma mask_select_map_fst {A B C} (g : A -> C) (h : C -> bool)
    (l : list A) (nums : list B) :
  length l = length nums ->
  mask_select (map (fun x => h (g x)) l) (map g l)
  = map fst (List.filter (fun a : C * B => h (fst a))
                         (map (fun rz => (g (fst rz), snd rz)) (combine l nums))).
Proof.
  unfold mask_select. revert nums.
  induction l as [|a l IH]; intros [|z nums] Hlen; try discriminate; [reflexivity|].
  injection Hlen as Hlen. cbn [map combine List.filter fst snd].
  destruct (h (g a)); cbn [map fst snd]; rewrite (IH nums Hlen); reflexivity.
Qed.

Lemma mask_select_map_snd {A B C} (g : A -> C) (h : C -> bool)
    (l : list A) (nums : list B) :
  mask_select (map (fun x => h (g x)) l) nums
  = map snd (List.filter (fun a : C * B => h (fst a))
                         (map (fun rz => (g (fst rz), snd rz)) (combine l nums))).
Proof.
  unfold mask_select. revert nums.
  induction l as [|a l IH]; intros [|z nums]; try reflexivity.
  cbn [map combine List.filter fst snd].
  destruct (h (g a)); cbn [map fst snd]; rewrite (IH nums); reflexivity.
Qed.

(** The mask of [valid_images] is [reaches_cutoff] of the image. *)
Lemma valid_images_mask function cutoff term (cartesian_pos pcc : list vec3) :
  map (existsb (fun b : bool => b))
      (map (map (fun w => Rgeb w cutoff))
           (map (map function)
                (if (term >? 2)%Z
                 then map (map (fun d => (d * 2)%R))
                          (map (fun p => map (fun q => norm3 (vsub p q)) cartesian_pos)
                               pcc)
                 else map (fun p => map (fun q => norm3 (vsub p q)) cartesian_pos)
                          pcc)))
  = map (reaches_cutoff function cutoff term cartesian_pos) pcc.
Proof.
  unfold reaches_cutoff, image_distance.
  destruct (term >? 2)%Z; rewrite !map_map; apply map_ext; intros p;
    rewrite !map_map, existsb_map; reflexivity.
Qed.

(** [valid_images] keeps the images that reach the cutoff, each with its
    atomic number. *)
Lemma valid_images_filter function cutoff term numbers relative_pos cartesian_pos
    c i j k :
  length relative_pos = length numbers ->
  let kept :=
    List.filter (fun atom : vec3 * Z =>
                   reaches_cutoff function cutoff term cartesian_pos (fst atom))
                (map (fun rz => (image_position c (i, j, k) (fst rz), snd rz))
                     (combine relative_pos numbers)) in
  valid_images function cutoff term numbers relative_pos cartesian_pos c i j k
  = (map fst kept, map snd kept).
Proof.
  intros Hlen. cbv zeta. unfold valid_images.
  rewrite valid_images_mask. rewrite !map_map.
  rewrite <- (mask_select_map_fst (image_position c (i, j, k))
                (reaches_cutoff function cutoff term cartesian_pos)
                relative_pos numbers Hlen).
  rewrite <- (mask_select_map_snd (image_position c (i, j, k))
                (reaches_cutoff function cutoff term cartesian_pos)
                relative_pos numbers).
  reflexivity.
Qed.

Lemma flat_map_singletons {A B} (g : A -> B) (skip : A -> bool) (l : list A) :
  flat_map (fun x => if skip x then [] else [g x]) l
  = map g (flat_map (fun x => if skip x then [] else [x]) l).
Proof.
  induction l as [|a l IH]; simpl; [reflexivity|].
  rewrite IH. destruct (skip a); reflexivity.
Qed.

Lemma map_flat_map {A B C} (g : B -> C) (f : A -> list B) (l : list A) :
  map g (flat_map f l) = flat_map (fun x => map g (f x)) l.
Proof.
  induction l as [|a l IH]; simpl; [reflexivity|].
  rewrite map_app, IH. reflexivity.
Qed.

(** The triple loop of [create_extended_system] visits [image_cells]. *)
Lemma images_over_cells {B} (g : Z -> Z -> Z -> B) (n_copies_axis : list Z) :
  let nc (axis : nat) : Z := nth axis n_copies_axis 0%Z in
  flat_map (fun i =>
    flat_map (fun j =>
      flat_map (fun k =>
        if ((i =? 0) && (j =? 0) && (k =? 0))%Z then [] else [g i j k])
        (zrange (- nc 2%nat) (nc 2%nat + 1)))
      (zrange (- nc 1%nat) (nc 1%nat + 1)))
    (zrange (- nc 0%nat) (nc 0%nat + 1))
  = map (fun copy : Z * Z * Z => let '(i, j, k) := copy in g i j k)
        (image_cells n_copies_axis).
Proof.
  cbv zeta. unfold image_cells.
  rewrite map_flat_map. apply flat_map_ext. intros i.
  rewrite map_flat_map. apply flat_map_ext. intros j.
  rewrite map_flat_map. apply flat_map_ext. intros k.
  destruct ((i =? 0) && (j =? 0) && (k =? 0))%Z; reflexivity.
Qed.

Lemma concat_map_fst_kept {A B C} (K : C -> list (A * B)) (cells : list C) :
  concat (map fst (map (fun c => (map fst (K c), map snd (K c))) cells))
  = map fst (flat_map K cells) /\
  concat (map snd (map (fun c => (map fst (K c), map snd (K c))) cells))
  = map snd (flat_map K cells).
Proof.
  induction cells as [|c cells [IH1 IH2]]; [split; reflexivity|].
  cbn [map concat flat_map fst snd]. rewrite !map_app, IH1, IH2.
  split; reflexivity.
Qed.

Lemma reaches_cutoff_false function cutoff term cartesian_pos p :
  reaches_cutoff function cutoff term cartesian_pos p = false <->
  forall q, In q cartesian_pos ->
    (function (image_distance term p q) < cutoff)%R.
Proof.
  unfold reaches_cutoff. split.
  - intros H q Hq.
    destruct (Rlt_dec (function (image_distance term p q)) cutoff) as [Hlt|Hge];
      [exact Hlt|].
    exfalso. assert (Htrue : existsb (fun q0 => Rgeb (function (image_distance term p q0)) cutoff)
                               cartesian_pos = true).
    { apply existsb_exists. exists q. split; [exact Hq|].
      unfold Rgeb. destruct (Rge_dec _ cutoff) as [_|Hn]; [reflexivity|].
      exfalso. apply Hn. lra. }
    rewrite H in Htrue. discriminate.
  - intros H.
    destruct (existsb _ cartesian_pos) eqn:E; [|reflexivity].
    apply existsb_exists in E as (q & Hq & Hge). specialize (H q Hq).
    unfold Rgeb in Hge. destruct (Rge_dec _ cutoff) as [Hok|]; [|discriminate].
    lra.
Qed.

Lemma filter_nil_iff {A} (h : A -> bool) (l : list A) :
  List.filter h l = [] <-> forall x, In x l -> h x = false.
Proof.
  induction l as [|a l IH]; simpl.
  - split; [intros _ x []|reflexivity].
  - destruct (h a) eqn:Ha.
    + split; [discriminate|]. intros H. specialize (H a (or_introl eq_refl)).
      congruence.
    + rewrite IH. split.
      * intros H x [<-|Hx]; [exact Ha|apply H; exact Hx].
      * intros H x Hx. apply H. right. exact Hx.
Qed.

Lemma flat_map_nil_iff {A B} (f : A -> list B) (l : list A) :
  flat_map f l = [] <-> forall x, In x l -> f x = [].
Proof.
  induction l as [|a l IH]; simpl.
  - split; [intros _ x []|reflexivity].
  - split.
    + intros H. apply app_eq_nil in H as [Ha Hl].
      intros x [<-|Hx]; [exact Ha|]. apply IH; assumption.
    + intros H. rewrite (H a (or_introl eq_refl)). cbn [app].
      apply IH. intros x Hx. apply H. right. exact Hx.
Qed.

Lemma in_combine_partner {A B} (l : list A) (nums : list B) x :
  length l = length nums -> In x l -> exists z, In (x, z) (combine l nums).
Proof.
  revert nums. induction l as [|a l IH]; intros [|z nums] Hlen Hin;
    try discriminate; [destruct Hin|].
  injection Hlen as Hlen. destruct Hin as [<-|Hin].
  - exists z. left. reflexivity.
  - destruct (IH nums Hlen Hin) as [z' Hz']. exists z'. right. exact Hz'.
Qed.

(** No atom is kept exactly when no image reaches the cutoff. *)
Lemma kept_atoms_nil function cutoff term counts sys :
  length (scaled_positions sys) = length (numbers sys) ->
  kept_atoms function cutoff term counts sys = [] <->
  forall copy rel q,
    In copy (image_cells counts) -> In rel (scaled_positions sys) ->
    In q (positions sys) ->
    (function (image_distance term (image_position (cell sys) copy rel) q)
     < cutoff)%R.
Proof.
  intros Hlen. unfold kept_atoms. rewrite flat_map_nil_iff. split.
  - intros H copy rel q Hcopy Hrel Hq.
    specialize (H copy Hcopy). rewrite filter_nil_iff in H.
    destruct (in_combine_partner _ _ rel Hlen Hrel) as [z Hz].
    specialize (H (image_position (cell sys) copy rel, z)).
    cbn [fst] in H. apply reaches_cutoff_false with (q := q) in H; [exact H| |exact Hq].
    apply in_map_iff. exists (rel, z). split; [reflexivity|exact Hz].
  - intros H copy Hcopy. apply filter_nil_iff. intros [p z] Hin.
    apply in_map_iff in Hin as ([rel z'] & [= <- <-] & Hin). cbn [fst snd].
    apply reaches_cutoff_false. intros q Hq.
    apply (H copy rel q Hcopy); [|exact Hq].
    apply in_combine_l in Hin. exact Hin.
Qed.

Section Expansion_kept.
Variable System_new : list vec3 -> list Z -> mat3 -> bool -> System.

(** What [create_extended_system] builds, with the images spelled out. *)
Lemma create_extended_system_kept fuel self sys order ext :
  length (scaled_positions sys) = length (numbers sys) ->
  create_extended_system System_new fuel self sys order = ok ext ->
  exists w weight_info scale cutoff counts,
    weighting (cfg self) = Some w /\
    w !! kkey order = Some (Some weight_info) /\
    w_scale weight_info = Some scale /\
    w_cutoff weight_info = Some cutoff /\
    copy_counts fuel (exponential_weighting scale) cutoff order
                (row_norms (cell sys)) = ok counts /\
    ext = System_new
            (positions sys
             ++ map fst (kept_atoms (exponential_weighting scale) cutoff order
                                    counts sys))
            (numbers sys
             ++ map snd (kept_atoms (exponential_weighting scale) cutoff order
                                    counts sys))
            (cell sys) false.
Proof.
  intros Hlen. unfold create_extended_system.
  destruct (weighting (cfg self)) as [w|] eqn:Hw; [|discriminate]. cbn [rbind ok].
  destruct (w !! kkey order) as [[wi|]|] eqn:Hwi; try discriminate. cbn [rbind ok].
  destruct (w_function wi) as [f|]; [|discriminate]. cbn [getitem rbind ok].
  destruct (w_cutoff wi) as [cutoff|] eqn:Hcut; [|discriminate]. cbn [getitem rbind ok].
  destruct (String.eqb f "exponential"); [|discriminate].
  destruct (w_scale wi) as [scale|] eqn:Hsc; [|discriminate]. cbn [getitem rbind ok].
  destruct (copy_counts _ _ _ _ _) as [e|counts] eqn:Hcounts; [discriminate|].
  cbn [rbind ok]. intros [= <-].
  exists w, wi, scale, cutoff, counts.
  split; [reflexivity|]. split; [exact Hwi|]. split; [exact Hsc|].
  split; [exact Hcut|]. split; [exact Hcounts|].
  rewrite (images_over_cells
             (valid_images (exponential_weighting scale) cutoff order (numbers sys)
                           (scaled_positions sys) (positions sys) (cell sys))
             counts).
  cbn [concat].
  assert (Hcells : forall copy : Z * Z * Z,
            (let '(i, j, k) := copy in
             valid_images (exponential_weighting scale) cutoff order (numbers sys)
                          (scaled_positions sys) (positions sys) (cell sys) i j k)
            = (map fst
                 (List.filter
                    (fun atom : vec3 * Z =>
                       reaches_cutoff (exponential_weighting scale) cutoff order
                                      (positions sys) (fst atom))
                    (map (fun rz => (image_position (cell sys) copy (fst rz), snd rz))
                         (combine (scaled_positions sys) (numbers sys)))),
               map snd
                 (List.filter
                    (fun atom : vec3 * Z =>
                       reaches_cutoff (exponential_weighting scale) cutoff order
                                      (positions sys) (fst atom))
                    (map (fun rz => (image_position (cell sys) copy (fst rz), snd rz))
                         (combine (scaled_positions sys) (numbers sys)))))).
  { intros [[i j] k]. apply valid_images_filter. exact Hlen. }
  rewrite (map_ext _ _ Hcells). unfold kept_atoms.
  pose (K := fun copy : Z * Z * Z =>
               List.filter
                 (fun atom : vec3 * Z =>
                    reaches_cutoff (exponential_weighting scale) cutoff order
                                   (positions sys) (fst atom))
                 (map (fun rz => (image_position (cell sys) copy (fst rz), snd rz))
                      (combine (scaled_positions sys) (numbers sys)))).
  destruct (concat_map_fst_kept K (image_cells counts)) as [H1 H2].
  f_equal; f_equal; [exact H1|exact H2].
Qed.

Hypothesis System_new_keeps : System_new_spec System_new.

(** C6, amended. The expansion is not idempotent; what holds is that it
    only appends, and what it appends. For a structure with one fractional
    position per atomic number and a structure container that
    keeps what it is built from: when [create_extended_system] returns, the
    result has the atoms of the input, in their order, followed by the kept
    image atoms (copy by copy within the copy counts, the images whose
    weight towards some atom of the input reaches the cutoff), the input's
    cell, and it is not periodic; it has no more atoms than the input
    exactly when no image reaches the cutoff. Run again on its own result
    with the same order and weighting it returns too, with the same copy
    counts, and its result is the first result followed by the kept images
    of the first result. *)
Theorem C6_expansion_appends fuel self sys order ext :
  length (scaled_positions sys) = length (numbers sys) ->
  create_extended_system System_new fuel self sys order = ok ext ->
  exists w weight_info scale cutoff counts,
    weighting (cfg self) = Some w /\
    w !! kkey order = Some (Some weight_info) /\
    w_scale weight_info = Some scale /\
    w_cutoff weight_info = Some cutoff /\
    copy_counts fuel (exponential_weighting scale) cutoff order
                (row_norms (cell sys)) = ok counts /\
    let kept := kept_atoms (exponential_weighting scale) cutoff order counts in
    positions ext = positions sys ++ map fst (kept sys) /\
    numbers ext = numbers sys ++ map snd (kept sys) /\
    cell ext = cell sys /\ pbc ext = false /\
    (length (numbers ext) = length (numbers sys) <->
     forall copy rel q,
       In copy (image_cells counts) -> In rel (scaled_positions sys) ->
       In q (positions sys) ->
       (exponential_weighting scale
          (image_distance order (image_position (cell sys) copy rel) q)
        < cutoff)%R) /\
    exists ext2,
      create_extended_system System_new fuel self ext order = ok ext2 /\
      cell ext2 = cell ext /\ pbc ext2 = false /\
      (length (scaled_positions ext) = length (numbers ext) ->
       positions ext2 = positions ext ++ map fst (kept ext) /\
       numbers ext2 = numbers ext ++ map snd (kept ext)).
Proof.
  intros Hrel Hrun.
  destruct (create_extended_system_kept _ _ _ _ _ Hrel Hrun)
    as (w & wi & scale & cutoff & counts & Hw & Hwi & Hsc & Hcut & Hcounts & Hext).
  exists w, wi, scale, cutoff, counts.
  do 5 (split; [assumption|]). cbv zeta.
  set (kept := kept_atoms (exponential_weighting scale) cutoff order counts) in *.
  destruct (System_new_keeps (positions sys ++ map fst (kept sys))
              (numbers sys ++ map snd (kept sys)) (cell sys) false)
    as (Hp & Hn & Hc & Hb).
  rewrite <- Hext in Hp, Hn, Hc, Hb.
  split; [exact Hp|]. split; [exact Hn|]. split; [exact Hc|]. split; [exact Hb|].
  split.
  - rewrite Hn, length_app, length_map.
    rewrite <- (kept_atoms_nil _ _ _ _ _ Hrel). fold kept. split.
    + intros H. apply length_zero_iff_nil. lia.
    + intros ->. cbn [length]. lia.
  - destruct (create_extended_system_again System_new fuel self sys ext order ext
                Hc Hrun) as [ext2 Hrun2].
    exists ext2. split; [exact Hrun2|].
    assert (Hshape : cell ext2 = cell ext /\ pbc ext2 = false).
    { apply create_extended_system_result in Hrun2 as [images ->].
      destruct (System_new_keeps (concat (positions ext :: map fst images))
                  (concat (numbers ext :: map snd images)) (cell ext) false)
        as (_ & _ & -> & ->). split; reflexivity. }
    split; [apply Hshape|]. split; [apply Hshape|].
    intros Hrel2.
    destruct (create_extended_system_kept _ _ _ _ _ Hrel2 Hrun2)
      as (w2 & wi2 & scale2 & cutoff2 & counts2 & Hw2 & Hwi2 & Hsc2 & Hcut2
          & Hcounts2 & Hext2).
    assert (w2 = w) as -> by congruence.
    assert (wi2 = wi) as -> by congruence.
    assert (scale2 = scale) as -> by congruence.
    assert (cutoff2 = cutoff) as -> by congruence.
    rewrite Hc in Hcounts2.
    assert (counts2 = counts) as -> by (unfold ok in *; congruence).
    fold kept in Hext2.
    destruct (System_new_keeps (positions ext ++ map fst (kept ext))
                (numbers ext ++ map snd (kept ext)) (cell ext) false)
      as (Hp2 & Hn2 & _ & _).
    rewrite <- Hext2 in Hp2, Hn2. split; assumption.
Qed.
End Expansion_kept.

Lemma unit_cell_System_keeps : System_new_spec unit_cell_System.
Proof. intros pos num c flag. repeat split. Qed.

(** The first expansion of one atom in the unit cell, and what the second
    one reads from it. *)
Lemma unit_cell_expansion :
  exists ext,
    create_extended_system unit_cell_System 3 expansion_self example_system 2
      = ok ext /\
    cell ext = ((1, 0, 0), (0, 1, 0), (0, 0, 1))%R /\
    exists ns ps,
      numbers ext = 1%Z :: ns /\
      positions ext = (0, 0, 0)%R :: ps /\
      scaled_positions ext = (0, 0, 0)%R :: ps.
Proof.
  unfold create_extended_system.
  cbn [expansion_self cfg weighting expansion_config rbind ok kkey].
  unfold expansion_weighting. rewrite lookup_singleton.
  rewrite decide_True by reflexivity.
  cbn [rbind ok getitem w_function w_cutoff w_scale String.eqb Ascii.eqb Bool.eqb].
  cbn [example_system cell numbers positions scaled_positions].
  rewrite unit_cell_copy_counts. cbn [rbind ok].
  eexists. split; [reflexivity|]. split; [reflexivity|].
  cbn [unit_cell_System numbers positions scaled_positions concat app].
  eexists _, _. repeat split.
Qed.

(** C6 as stated fails: for one atom in the unit cell, order 2, the
    weighting [exp(-x)] and the cutoff 0.3, the expansion of the expanded
    structure has more atoms than the expanded structure. *)
Lemma C6_second_expansion_adds_atoms :
  exists ext ext2,
    create_extended_system unit_cell_System 3 expansion_self example_system 2
      = ok ext /\
    create_extended_system unit_cell_System 3 expansion_self ext 2 = ok ext2 /\
    (length (numbers ext) < length (numbers ext2))%nat.
Proof.
  destruct unit_cell_expansion as (ext & Hext & Hcell & ns & ps & Hn & Hp & Hs).
  exists ext.
  unfold create_extended_system.
  cbn [expansion_self cfg weighting expansion_config rbind ok kkey].
  unfold expansion_weighting. rewrite lookup_singleton.
  rewrite decide_True by reflexivity.
  cbn [rbind ok getitem w_function w_cutoff w_scale String.eqb Ascii.eqb Bool.eqb].
  rewrite Hcell, unit_cell_copy_counts. cbn [rbind ok].
  eexists. split.
  { rewrite <- Hext. unfold create_extended_system.
    cbn [expansion_self cfg weighting expansion_config rbind ok kkey].
    unfold expansion_weighting. rewrite lookup_singleton.
    rewrite decide_True by reflexivity.
    cbn [rbind ok getitem w_function w_cutoff w_scale String.eqb Ascii.eqb Bool.eqb].
    cbn [example_system cell numbers positions scaled_positions].
    rewrite unit_cell_copy_counts. reflexivity. }
  split; [reflexivity|].
  cbn [unit_cell_System numbers concat]. rewrite length_app.
  rewrite Hn, Hp, Hs.
  destruct (valid_images_keeps_first (exponential_weighting 1) (3 / 10) 2
              1%Z ns (0, 0, 0)%R ps (0, 0, 0)%R ps
              ((1, 0, 0), (0, 1, 0), (0, 0, 1))%R (-1) 0 0) as [rest Hrest].
  { cbv zeta. cbn [Z.gtb Z.compare Pos.compare Pos.compare_cont vscale vsub vec_mat].
    match goal with
    | |- (exponential_weighting 1 (norm3 ?v) >= _)%R =>
        replace v with (1, 0, 0)%R by (repeat f_equal; lra)
    end.
    rewrite norm3_axis_x by lra. unfold exponential_weighting.
    match goal with
    | |- (exp ?x >= _)%R => replace x with (-1)%R by lra
    end.
    pose proof exp_minus_1_ge. lra. }
  match goal with
  | |- (_ < _ + length (concat (map snd ?images)))%nat =>
      assert (Hin : In (1%Z :: rest) (map snd images))
  end.
  { rewrite <- Hrest. apply in_map. cbn [nth].
    apply in_flat_map. exists (-1)%Z. split; [vm_compute; tauto|].
    apply in_flat_map. exists 0%Z. split; [vm_compute; tauto|].
    apply in_flat_map. exists 0%Z. split; [vm_compute; tauto|].
    cbn [Z.eqb andb]. left. reflexivity. }
  apply length_concat_In in Hin. cbn [length] in Hin. cbn [length]. lia.
Qed.

Lemma C6_expansion_appends_witness :
  exists ext,
    create_extended_system unit_cell_System 3 expansion_self example_system 2
      = ok ext /\
    exists w weight_info scale cutoff counts,
      weighting (cfg expansion_self) = Some w /\
      w !! kkey 2 = Some (Some weight_info) /\
      w_scale weight_info = Some scale /\
      w_cutoff weight_info = Some cutoff /\
      copy_counts 3 (exponential_weighting scale) cutoff 2
                  (row_norms (cell example_system)) = ok counts /\
      let kept := kept_atoms (exponential_weighting scale) cutoff 2 counts in
      positions ext = positions example_system ++ map fst (kept example_system) /\
      numbers ext = numbers example_system ++ map snd (kept example_system) /\
      cell ext = cell example_system /\ pbc ext = false /\
      (length (numbers ext) = length (numbers example_system) <->
       forall copy rel q,
         In copy (image_cells counts) -> In rel (scaled_positions example_system) ->
         In q (positions example_system) ->
         (exponential_weighting scale
            (image_distance 2 (image_position (cell example_system) copy rel) q)
          < cutoff)%R) /\
      exists ext2,
        create_extended_system unit_cell_System 3 expansion_self ext 2 = ok ext2 /\
        cell ext2 = cell ext /\ pbc ext2 = false /\
        (length (scaled_positions ext) = length (numbers ext) ->
         positions ext2 = positions ext ++ map fst (kept ext) /\
         numbers ext2 = numbers ext ++ map snd (kept ext)).
Proof.
  destruct unit_cell_expansion as (ext & Hext & _).
  exists ext. split; [exact Hext|].
  apply (C6_expansion_appends unit_cell_System unit_cell_System_keeps
           3 expansion_self example_system 2 ext eq_refl Hext).
Defined.

(** ** The expansion returns *)




Section Expansion_returns.
Variable System_new : list vec3 -> list Z -> mat3 -> bool -> System.

End Expansion_returns.

(** ** The feature count and the output of [describe] *)

Section Feature_count.
Variable set_of : list Z -> list Z.
Variable erf : R -> R.
Variable System_new : list vec3 -> list Z -> mat3 -> bool -> System.
Variable cmbtr_k1 :
  list vec3 -> list Z -> gmap Z nat -> option nat ->
  gmap nat (list R) * gmap nat (list R).
Variable cmbtr_k2 :
  list vec3 -> list Z -> gmap Z nat -> option nat -> string -> option (R * R) ->
  gmap (nat * nat) (list R) * gmap (nat * nat) (list R).
Variable cmbtr_k3 :
  list vec3 -> list Z -> gmap Z nat -> option nat -> string -> option (R * R) ->
  gmap (nat * nat * nat) (list R) * gmap (nat * nat * nat) (list R).
Hypothesis set_of_elements : set_of_spec set_of.


End Feature_count.




(** ** More on the periodic expansion *)

Lemma copies_loop_never function cutoff length0 term :
  (forall x, cutoff <= function x)%R ->
  forall fuel n0, copies_loop fuel function cutoff length0 term n0 = raise LoopBudget.
Proof.
  intros Hf. induction fuel as [|fuel IH]; intros n0; [reflexivity|].
  simpl. destruct (Rlt_dec _ cutoff) as [Hlt|_]; [|apply IH].
  exfalso. eapply Rlt_not_le; [exact Hlt|apply Hf].
Qed.

(** X1. The three copy counts of [create_extended_system] are one and the
    same number, whatever the cell: the smallest count for which the weight
    at that many lengths of the first cell vector is below the cutoff. *)
Theorem copy_counts_single_bound fuel function cutoff term (c : mat3) counts :
  copy_counts fuel function cutoff term (row_norms c) = ok counts ->
  exists bound,
    counts = [bound; bound; bound] /\
    smallest_copy_count function cutoff term (nth 0 (row_norms c) 0%R) bound.
Proof.
  destruct c as [[r0 r1] r2]. unfold copy_counts, row_norms. cbn [nth rmapM].
  destruct (copies_loop fuel function cutoff (norm3 r0) term (-1)) as [e|bound] eqn:Hloop;
    [discriminate|].
  cbn [rbind ok]. intros [= <-]. exists bound. split; [reflexivity|].
  apply copies_loop_sound in Hloop as (H0 & Hw & Hmin).
  split; [lia|]. split; [exact Hw|]. intros c' Hc'. apply Hmin. lia.
Qed.

Lemma copy_counts_single_bound_witness :
  exists bound,
    [2; 2; 2]%Z = [bound; bound; bound] /\
    smallest_copy_count (exponential_weighting 1) (3 / 10) 2
      (nth 0 (row_norms ((1, 0, 0), (0, 1, 0), (0, 0, 1))%R) 0%R) bound.
Proof.
  apply (copy_counts_single_bound 3 (exponential_weighting 1) (3 / 10) 2
           ((1, 0, 0), (0, 1, 0), (0, 0, 1))%R [2; 2; 2]%Z).
  exact unit_cell_copy_counts.
Defined.

Section Expansion_more.
Variable System_new : list vec3 -> list Z -> mat3 -> bool -> System.

(** X2. With an exponential weighting whose cutoff is not positive the
    while loop of [create_extended_system] never finds its limit: no amount
    of fuel is enough. *)
Theorem expansion_never_ends self sys order w weight_info scale cutoff :
  weighting (cfg self) = Some w ->
  w !! kkey order = Some (Some weight_info) ->
  w_function weight_info = Some "exponential" ->
  w_scale weight_info = Some scale ->
  w_cutoff weight_info = Some cutoff ->
  (cutoff <= 0)%R ->
  forall fuel,
    create_extended_system System_new fuel self sys order = raise LoopBudget.
Proof.
  intros Hw Hwi Hf Hsc Hcut Hle fuel. unfold create_extended_system.
  rewrite Hw. cbn [rbind ok]. rewrite Hwi. cbn [rbind ok].
  rewrite Hf, Hcut. cbn [getitem rbind ok].
  cbn [String.eqb Ascii.eqb Bool.eqb]. rewrite Hsc. cbn [getitem rbind ok].
  unfold copy_counts. destruct (cell sys) as [[r0 r1] r2].
  unfold row_norms. cbn [nth rmapM].
  rewrite copies_loop_never; [reflexivity|].
  intros x. unfold exponential_weighting.
  pose proof (exp_pos (- scale * x)). lra.
Qed.
End Expansion_more.

Lemma expansion_never_ends_witness :
  w_cutoff (mkWeightInfo (Some "exponential") (Some 1%R) (Some 0%R)) = Some 0%R /\
  forall fuel,
    create_extended_system unit_cell_System fuel endless_self example_system 2
    = raise LoopBudget.
Proof.
  split; [reflexivity|].
  apply (expansion_never_ends unit_cell_System endless_self example_system 2
           endless_weighting
           (mkWeightInfo (Some "exponential") (Some 1%R) (Some 0%R)) 1 0);
    try reflexivity; lra.
Defined.

Lemma mask_select_length {A B} (mask : list bool) (a : list A) (b : list B) :
  length a = length b ->
  length (mask_select mask a) = length (mask_select mask b).
Proof.
  unfold mask_select. rewrite !length_map.
  revert a b. induction mask as [|m mask IH]; intros a b Hlen; [reflexivity|].
  destruct a as [|x a], b as [|y b]; try discriminate; [reflexivity|].
  cbn [combine List.filter fst]. injection Hlen as Hlen.
  destruct m; cbn [length]; rewrite (IH a b Hlen); reflexivity.
Qed.

Lemma mask_select_In {A} (mask : list bool) (a : list A) x :
  In x (mask_select mask a) ->
  exists i, nth_error mask i = Some true /\ nth_error a i = Some x.
Proof.
  unfold mask_select. revert a. induction mask as [|m mask IH]; intros a Hin;
    [destruct Hin|].
  destruct a as [|y a]; [destruct Hin|].
  cbn [combine List.filter fst] in Hin. destruct m.
  - cbn [map snd] in Hin. destruct Hin as [<-|Hin].
    + exists 0%nat. split; reflexivity.
    + destruct (IH a Hin) as (i & Hm & Ha). exists (S i). split; assumption.
  - destruct (IH a Hin) as (i & Hm & Ha). exists (S i). split; assumption.
Qed.

Lemma nth_error_map_Some {A B} (f : A -> B) l n y :
  nth_error (map f l) n = Some y ->
  exists x, nth_error l n = Some x /\ f x = y.
Proof.
  revert n. induction l as [|a l IH]; intros [|n] H; try discriminate.
  - injection H as <-. exists a. split; reflexivity.
  - apply IH. exact H.
Qed.

(** What [valid_images] keeps: as many positions as numbers, numbers of the
    cell only, and positions within the cutoff of an atom of the cell. *)
Lemma valid_images_kept function cutoff term numbers relative_pos cartesian_pos
    c i j k :
  length relative_pos = length numbers ->
  let img := valid_images function cutoff term numbers relative_pos
                          cartesian_pos c i j k in
  length (fst img) = length (snd img) /\
  (forall z, In z (snd img) -> In z numbers) /\
  (forall p, In p (fst img) ->
     exists q, In q cartesian_pos /\
               (function (image_distance term p q) >= cutoff)%R).
Proof.
  intros Hlen. cbv zeta. unfold valid_images. cbn [fst snd].
  split; [|split].
  - apply mask_select_length. rewrite !length_map. exact Hlen.
  - intros z Hz. apply mask_select_In in Hz as (n & _ & Hn).
    eapply nth_error_In. exact Hn.
  - intros p Hp. apply mask_select_In in Hp as (n & Hmask & Hn).
    apply nth_error_map_Some in Hmask as (brow & Hbrow & Hany).
    apply existsb_exists in Hany as (b & Hb & ->).
    apply nth_error_map_Some in Hbrow as (wrow & Hwrow & <-).
    apply in_map_iff in Hb as (wt & Hge & Hwt).
    apply nth_error_map_Some in Hwrow as (drow & Hdrow & <-).
    apply in_map_iff in Hwt as (d & <- & Hd).
    unfold Rgeb in Hge.
    destruct (Rge_dec (function d) cutoff) as [Hok|]; [|discriminate].
    apply nth_error_map_Some in Hn as (rel & Hrel & <-).
    unfold image_distance.
    destruct (term >? 2)%Z.
    + apply nth_error_map_Some in Hdrow as (drow0 & Hdrow0 & <-).
      apply in_map_iff in Hd as (d0 & <- & Hd0).
      apply nth_error_map_Some in Hdrow0 as (pc & Hpc & <-).
      apply nth_error_map_Some in Hpc as (rel' & Hrel' & <-).
      assert (rel' = rel) as -> by congruence.
      apply in_map_iff in Hd0 as (q & <- & Hq).
      exists q. split; [exact Hq|exact Hok].
    + apply nth_error_map_Some in Hdrow as (pc & Hpc & <-).
      apply nth_error_map_Some in Hpc as (rel' & Hrel' & <-).
      assert (rel' = rel) as -> by congruence.
      apply in_map_iff in Hd as (q & <- & Hq).
      exists q. split; [exact Hq|exact Hok].
Qed.

Section Expansion_content.
Variable System_new : list vec3 -> list Z -> mat3 -> bool -> System.

(** The images that [create_extended_system] appends. *)
Lemma create_extended_system_images fuel self sys order ext :
  create_extended_system System_new fuel self sys order = ok ext ->
  exists w weight_info scale cutoff (images : list (list vec3 * list Z)),
    weighting (cfg self) = Some w /\
    w !! kkey order = Some (Some weight_info) /\
    w_scale weight_info = Some scale /\
    w_cutoff weight_info = Some cutoff /\
    ext = System_new (concat (positions sys :: map fst images))
                     (concat (numbers sys :: map snd images))
                     (cell sys) false /\
    forall img, In img images ->
      exists i j k,
        img = valid_images (exponential_weighting scale) cutoff order
                (numbers sys) (scaled_positions sys) (positions sys) (cell sys)
                i j k.
Proof.
  unfold create_extended_system.
  destruct (weighting (cfg self)) as [w|] eqn:Hw; [|discriminate]. cbn [rbind ok].
  destruct (w !! kkey order) as [[wi|]|] eqn:Hwi; try discriminate. cbn [rbind ok].
  destruct (w_function wi) as [f|]; [|discriminate]. cbn [getitem rbind ok].
  destruct (w_cutoff wi) as [cutoff|] eqn:Hcut; [|discriminate]. cbn [getitem rbind ok].
  destruct (String.eqb f "exponential"); [|discriminate].
  destruct (w_scale wi) as [scale|] eqn:Hsc; [|discriminate]. cbn [getitem rbind ok].
  destruct (copy_counts _ _ _ _ _) as [e|counts]; [discriminate|].
  cbn [rbind ok]. intros [= <-].
  exists w, wi, scale, cutoff. eexists.
  split; [reflexivity|]. split; [exact Hwi|]. split; [exact Hsc|].
  split; [exact Hcut|]. split; [reflexivity|].
  intros img Hin.
  apply in_flat_map in Hin as (i & _ & Hin).
  apply in_flat_map in Hin as (j & _ & Hin).
  apply in_flat_map in Hin as (k & _ & Hin).
  destruct ((i =? 0) && (j =? 0) && (k =? 0))%Z; [destruct Hin|].
  destruct Hin as [<-|[]]. exists i, j, k. reflexivity.
Qed.

Hypothesis System_new_keeps : System_new_spec System_new.

(** X3. The structure that [create_extended_system] returns has one
    atomic number per position when its input has, and every atomic number
    in it is one of the input: the expansion brings in no new element. *)
Theorem expansion_keeps_elements fuel self sys order ext :
  length (positions sys) = length (numbers sys) ->
  length (scaled_positions sys) = length (numbers sys) ->
  create_extended_system System_new fuel self sys order = ok ext ->
  length (positions ext) = length (numbers ext) /\
  forall z, In z (numbers ext) -> In z (numbers sys).
Proof.
  intros Hpos Hrel H.
  apply create_extended_system_images in H
    as (w & wi & scale & cutoff & images & _ & _ & _ & _ & -> & Himg).
  destruct (System_new_keeps (concat (positions sys :: map fst images))
              (concat (numbers sys :: map snd images)) (cell sys) false)
    as (-> & -> & _ & _).
  cbn [concat]. rewrite !length_app. split.
  - rewrite Hpos. f_equal. clear Hpos.
    induction images as [|img images IH]; [reflexivity|].
    cbn [map concat]. rewrite !length_app.
    rewrite IH by (intros x Hx; apply Himg; right; exact Hx). f_equal.
    destruct (Himg img (or_introl eq_refl)) as (i & j & k & ->).
    apply (valid_images_kept _ _ _ _ _ _ _ _ _ _ Hrel).
  - intros z Hz. apply in_app_or in Hz as [Hz|Hz]; [exact Hz|].
    apply in_concat in Hz as (l & Hl & Hz).
    apply in_map_iff in Hl as (img & <- & Himg').
    destruct (Himg img Himg') as (i & j & k & ->).
    apply (valid_images_kept _ _ _ _ _ _ _ _ _ _ Hrel) in Hz. exact Hz.
Qed.

(** X4. Every atom that [create_extended_system] returns is an atom
    of the input or an image whose weight towards some atom of the input
    reaches the cutoff; the distance counts twice for the orders above 2. *)
Theorem expansion_keeps_within_cutoff fuel self sys order ext
    w weight_info scale cutoff :
  weighting (cfg self) = Some w ->
  w !! kkey order = Some (Some weight_info) ->
  w_scale weight_info = Some scale ->
  w_cutoff weight_info = Some cutoff ->
  length (scaled_positions sys) = length (numbers sys) ->
  create_extended_system System_new fuel self sys order = ok ext ->
  forall p, In p (positions ext) ->
    In p (positions sys) \/
    exists q, In q (positions sys) /\
      (exponential_weighting scale (image_distance order p q) >= cutoff)%R.
Proof.
  intros Hw Hwi Hsc Hcut Hrel H p Hp.
  apply create_extended_system_images in H
    as (w' & wi' & scale' & cutoff' & images & Hw' & Hwi' & Hsc' & Hcut' & -> & Himg).
  assert (w' = w) as -> by congruence.
  assert (wi' = weight_info) as -> by congruence.
  assert (scale' = scale) as -> by congruence.
  assert (cutoff' = cutoff) as -> by congruence.
  destruct (System_new_keeps (concat (positions sys :: map fst images))
              (concat (numbers sys :: map snd images)) (cell sys) false)
    as (Hpos & _). rewrite Hpos in Hp. cbn [concat] in Hp.
  apply in_app_or in Hp as [Hp|Hp]; [left; exact Hp|right].
  apply in_concat in Hp as (l & Hl & Hp).
  apply in_map_iff in Hl as (img & <- & Himg').
  destruct (Himg img Himg') as (i & j & k & ->).
  apply (valid_images_kept _ _ _ _ _ _ _ _ _ _ Hrel) in Hp. exact Hp.
Qed.
End Expansion_content.

Lemma expansion_keeps_elements_witness :
  exists ext,
    create_extended_system unit_cell_System 3 expansion_self example_system 2
      = ok ext /\
    length (positions ext) = length (numbers ext) /\
    forall z, In z (numbers ext) -> In z (numbers example_system).
Proof.
  destruct unit_cell_expansion as (ext & Hext & _).
  exists ext. split; [exact Hext|].
  apply (expansion_keeps_elements unit_cell_System unit_cell_System_keeps
           3 expansion_self example_system 2 ext); [reflexivity|reflexivity|exact Hext].
Defined.

Lemma expansion_keeps_within_cutoff_witness :
  exists ext,
    create_extended_system unit_cell_System 3 expansion_self example_system 2
      = ok ext /\
    forall p, In p (positions ext) ->
      In p (positions example_system) \/
      exists q, In q (positions example_system) /\
        (exponential_weighting 1 (image_distance 2 p q) >= 3 / 10)%R.
Proof.
  destruct unit_cell_expansion as (ext & Hext & _).
  exists ext. split; [exact Hext|].
  apply (expansion_keeps_within_cutoff unit_cell_System unit_cell_System_keeps
           3 expansion_self example_system 2 ext expansion_weighting
           (mkWeightInfo (Some "exponential") (Some 1%R) (Some (3 / 10)%R)));
    try reflexivity. exact Hext.
Defined.

(** ** More on the Gaussian broadening *)

Lemma nth_gaussian_sum_spec erf norm min_k max_k sigma n pairs i :
  (i < n)%nat ->
  nth i (gaussian_sum_spec erf norm min_k max_k sigma n pairs) 0%R
  = let dx := ((max_k - min_k) / (INR n - 1))%R in
    let difference :=
      ((spec_cdf_sum erf sigma pairs (spec_boundary min_k dx (S i))
        - spec_cdf_sum erf sigma pairs (spec_boundary min_k dx i)) / dx)%R in
    if norm then difference else (difference / (1 / (sigma * sqrt (2 * PI))))%R.
Proof.
  intros Hi. unfold gaussian_sum_spec. cbv zeta.
  set (f := fun i0 : nat => _).
  rewrite (nth_indep _ 0%R (f 0%nat)) by (rewrite length_map, length_seq; exact Hi).
  rewrite map_nth, seq_nth by exact Hi. reflexivity.
Qed.

Lemma spec_cdf_sum_app erf sigma pairs1 pairs2 x :
  spec_cdf_sum erf sigma (pairs1 ++ pairs2) x
  = (spec_cdf_sum erf sigma pairs1 x + spec_cdf_sum erf sigma pairs2 x)%R.
Proof.
  unfold spec_cdf_sum. rewrite map_app.
  induction (map _ pairs1) as [|a l IH]; cbn [app fold_right]; [ring|].
  rewrite IH. ring.
Qed.

Lemma spec_cdf_sum_scale erf sigma c pairs x :
  spec_cdf_sum erf sigma (scale_weights c pairs) x
  = (c * spec_cdf_sum erf sigma pairs x)%R.
Proof.
  unfold spec_cdf_sum, scale_weights.
  induction pairs as [|a l IH]; simpl; [ring|].
  rewrite IH. unfold Rdiv. ring.
Qed.

(** X5. The broadening is linear in the (value, weight) pairs: on a
    grid of at least two points with a sigma that is not zero the sequence
    for two lists of pairs put together is the entrywise sum of their
    sequences, and multiplying every weight by [c] multiplies every entry
    by [c]. *)
Theorem gaussian_sum_linear (erf : R -> R) (self : MBTR) (settings : GridInfo)
    (min_k max_k sigma c : R) (n : nat) (pairs1 pairs2 : list (R * R)) :
  g_min settings = Some min_k ->
  g_max settings = Some max_k ->
  g_sigma settings = Some sigma ->
  g_n settings = Some n ->
  (2 <= n)%nat ->
  sigma <> 0%R ->
  exists pdf1 pdf2 pdf_both pdf_scaled,
    gaussian_sum erf self (map fst pairs1) (map snd pairs1) settings = ok pdf1 /\
    gaussian_sum erf self (map fst pairs2) (map snd pairs2) settings = ok pdf2 /\
    gaussian_sum erf self (map fst (pairs1 ++ pairs2)) (map snd (pairs1 ++ pairs2))
                 settings = ok pdf_both /\
    gaussian_sum erf self (map fst (scale_weights c pairs1))
                 (map snd (scale_weights c pairs1)) settings = ok pdf_scaled /\
    forall i, (i < n)%nat ->
      nth i pdf_both 0%R = (nth i pdf1 0 + nth i pdf2 0)%R /\
      nth i pdf_scaled 0%R = (c * nth i pdf1 0)%R.
Proof.
  intros Hmin Hmax Hsigma Hn Hn2 Hs0.
  eexists _, _, _, _.
  split; [apply (gaussian_sum_closed_form erf self settings min_k max_k sigma n);
          assumption|].
  split; [apply (gaussian_sum_closed_form erf self settings min_k max_k sigma n);
          assumption|].
  split; [apply (gaussian_sum_closed_form erf self settings min_k max_k sigma n);
          assumption|].
  split; [apply (gaussian_sum_closed_form erf self settings min_k max_k sigma n);
          assumption|].
  intros i Hi. rewrite !nth_gaussian_sum_spec by exact Hi. cbv zeta.
  rewrite !spec_cdf_sum_app, !spec_cdf_sum_scale.
  destruct (normalize_gaussians (cfg self)); split; unfold Rdiv; ring.
Qed.

Lemma gaussian_sum_linear_witness :
  exists pdf1 pdf2 pdf_both pdf_scaled,
    gaussian_sum (fun x => x) example_self (map fst example_pairs)
                 (map snd example_pairs) example_grid = ok pdf1 /\
    gaussian_sum (fun x => x) example_self (map fst [(1 / 2, 1)%R])
                 (map snd [(1 / 2, 1)%R]) example_grid = ok pdf2 /\
    gaussian_sum (fun x => x) example_self
                 (map fst (example_pairs ++ [(1 / 2, 1)%R]))
                 (map snd (example_pairs ++ [(1 / 2, 1)%R])) example_grid
      = ok pdf_both /\
    gaussian_sum (fun x => x) example_self
                 (map fst (scale_weights 3 example_pairs))
                 (map snd (scale_weights 3 example_pairs)) example_grid
      = ok pdf_scaled /\
    forall i, (i < 3)%nat ->
      nth i pdf_both 0%R = (nth i pdf1 0 + nth i pdf2 0)%R /\
      nth i pdf_scaled 0%R = (3 * nth i pdf1 0)%R.
Proof.
  apply (gaussian_sum_linear (fun x => x) example_self example_grid 0 1 1 3 3
           example_pairs [(1 / 2, 1)%R]); try reflexivity; [lia|lra].
Defined.

Lemma telescope (G : nat -> R) (n : nat) :
  Rsum (map (fun i => (G (S i) - G i)%R) (seq 0 n)) = (G n - G 0%nat)%R.
Proof.
  unfold Rsum. induction n as [|n IH]; [cbn; ring|].
  rewrite seq_S, map_app, fold_right_app. cbn [map fold_right Nat.add].
  assert (Hshift : forall (l : list R) a,
            fold_right Rplus a l = (fold_right Rplus 0 l + a)%R).
  { induction l as [|x l IHl]; intros a; cbn [fold_right]; [ring|].
    rewrite IHl. ring. }
  rewrite Hshift, IH. ring.
Qed.

(** X6. With normalised Gaussians on a grid with min < max, at
    least two points and a sigma that is not zero, the entries of the
    sequence times the grid spacing add up to the difference of the
    weighted CDF sum between the two ends of the grid, [max + dx/2] and
    [min - dx/2]. *)
Theorem gaussian_sum_total_mass (erf : R -> R) (self : MBTR) (settings : GridInfo)
    (min_k max_k sigma : R) (n : nat) (pairs : list (R * R)) :
  g_min settings = Some min_k ->
  g_max settings = Some max_k ->
  g_sigma settings = Some sigma ->
  g_n settings = Some n ->
  (min_k < max_k)%R ->
  (2 <= n)%nat ->
  sigma <> 0%R ->
  normalize_gaussians (cfg self) = true ->
  exists pdf,
    gaussian_sum erf self (map fst pairs) (map snd pairs) settings = ok pdf /\
    let dx := ((max_k - min_k) / (INR n - 1))%R in
    (Rsum pdf * dx
     = spec_cdf_sum erf sigma pairs (max_k + dx / 2)
       - spec_cdf_sum erf sigma pairs (min_k - dx / 2))%R.
Proof.
  intros Hmin Hmax Hsigma Hn Hlt Hn2 Hs0 Hnorm.
  eexists. split.
  { apply (gaussian_sum_closed_form erf self settings min_k max_k sigma n);
      assumption. }
  cbv zeta. rewrite Hnorm. unfold gaussian_sum_spec. cbv zeta.
  set (dx := ((max_k - min_k) / (INR n - 1))%R).
  assert (Hn1 : (2 <= INR n)%R) by (apply (le_INR 2); exact Hn2).
  assert (Hdx : (0 < dx)%R).
  { unfold dx. apply Rdiv_lt_0_compat; lra. }
  set (G := fun i => spec_cdf_sum erf sigma pairs (spec_boundary min_k dx i)).
  assert (Hsum : forall l : list nat,
            (Rsum (map (fun i => ((G (S i) - G i) / dx)%R) l) * dx
             = Rsum (map (fun i => (G (S i) - G i)%R) l))%R).
  { induction l as [|a l IH]; unfold Rsum in *; cbn [map fold_right]; [ring|].
    rewrite <- IH. field. lra. }
  unfold G in Hsum at 1 2. rewrite Hsum, telescope. unfold G.
  f_equal; f_equal; unfold spec_boundary.
  - unfold dx. field. lra.
  - cbn [INR]. ring.
Qed.

Lemma gaussian_sum_total_mass_witness :
  exists pdf,
    gaussian_sum (fun x => x) example_self (map fst example_pairs)
                 (map snd example_pairs) example_grid = ok pdf /\
    let dx := ((1 - 0) / (INR 3 - 1))%R in
    (Rsum pdf * dx
     = spec_cdf_sum (fun x => x) 1 example_pairs (1 + dx / 2)
       - spec_cdf_sum (fun x => x) 1 example_pairs (0 - dx / 2))%R.
Proof.
  apply (gaussian_sum_total_mass (fun x => x) example_self example_grid 0 1 1 3
           example_pairs); try reflexivity; [lra|lia|lra].
Defined.

Lemma spec_cdf_sum_monotone erf sigma pairs x y :
  (forall a b, a <= b -> erf a <= erf b)%R ->
  (0 < sigma)%R ->
  Forall (fun vw : R * R => 0 <= snd vw)%R pairs ->
  (x <= y)%R ->
  (spec_cdf_sum erf sigma pairs x <= spec_cdf_sum erf sigma pairs y)%R.
Proof.
  intros Herf Hsigma Hw Hxy. unfold spec_cdf_sum.
  induction Hw as [|vw pairs Hvw _ IH]; simpl; [lra|].
  assert (Hs : (0 < sigma * sqrt 2)%R).
  { apply Rmult_lt_0_compat; [exact Hsigma|]. apply sqrt_lt_R0. lra. }
  assert (Harg : ((x - fst vw) / (sigma * sqrt 2)
                  <= (y - fst vw) / (sigma * sqrt 2))%R).
  { unfold Rdiv. apply Rmult_le_compat_r; [|lra].
    left. apply Rinv_0_lt_compat. exact Hs. }
  apply Herf in Harg.
  apply Rplus_le_compat; [|exact IH].
  unfold Rdiv. rewrite !Rmult_assoc. apply Rmult_le_compat_l; [exact Hvw|].
  lra.
Qed.

(** X7. For an error function that does not decrease, weights that
    are not negative, a positive sigma and a grid with min < max and at
    least two points, no entry of the broadened sequence is negative, with
    and without the normalisation of the Gaussians. *)
Theorem gaussian_sum_nonnegative (erf : R -> R) (self : MBTR) (settings : GridInfo)
    (min_k max_k sigma : R) (n : nat) (pairs : list (R * R)) :
  g_min settings = Some min_k ->
  g_max settings = Some max_k ->
  g_sigma settings = Some sigma ->
  g_n settings = Some n ->
  (min_k < max_k)%R ->
  (2 <= n)%nat ->
  (0 < sigma)%R ->
  (forall a b, a <= b -> erf a <= erf b)%R ->
  Forall (fun vw : R * R => 0 <= snd vw)%R pairs ->
  exists pdf,
    gaussian_sum erf self (map fst pairs) (map snd pairs) settings = ok pdf /\
    length pdf = n /\
    forall i, (i < n)%nat -> (0 <= nth i pdf 0)%R.
Proof.
  intros Hmin Hmax Hsigma Hn Hlt Hn2 Hpos Herf Hw.
  assert (Hs0 : sigma <> 0%R) by lra.
  eexists. split.
  { apply (gaussian_sum_closed_form erf self settings min_k max_k sigma n);
      assumption. }
  split.
  { unfold gaussian_sum_spec. rewrite length_map, length_seq. reflexivity. }
  intros i Hi. rewrite nth_gaussian_sum_spec by exact Hi. cbv zeta.
  set (dx := ((max_k - min_k) / (INR n - 1))%R).
  assert (Hn1 : (2 <= INR n)%R) by (apply (le_INR 2); exact Hn2).
  assert (Hdx : (0 < dx)%R).
  { unfold dx. apply Rdiv_lt_0_compat; lra. }
  assert (Hstep : (spec_boundary min_k dx i <= spec_boundary min_k dx (S i))%R).
  { unfold spec_boundary. rewrite S_INR. lra. }
  pose proof (spec_cdf_sum_monotone erf sigma pairs _ _ Herf Hpos Hw Hstep) as Hmono.
  assert (Hdiff : (0 <= (spec_cdf_sum erf sigma pairs (spec_boundary min_k dx (S i))
                         - spec_cdf_sum erf sigma pairs (spec_boundary min_k dx i))
                        / dx)%R).
  { apply Rmult_le_pos; [lra|]. left. apply Rinv_0_lt_compat. exact Hdx. }
  destruct (normalize_gaussians (cfg self)); [exact Hdiff|].
  apply Rmult_le_pos; [exact Hdiff|]. left. apply Rinv_0_lt_compat.
  apply Rdiv_lt_0_compat; [lra|].
  apply Rmult_lt_0_compat; [exact Hpos|]. apply sqrt_lt_R0.
  apply Rmult_lt_0_compat; [lra|apply PI_RGT_0].
Qed.

Lemma gaussian_sum_nonnegative_witness :
  exists pdf,
    gaussian_sum (fun x => x) example_self (map fst example_pairs)
                 (map snd example_pairs) example_grid = ok pdf /\
    length pdf = 3%nat /\
    forall i, (i < 3)%nat -> (0 <= nth i pdf 0)%R.
Proof.
  apply (gaussian_sum_nonnegative (fun x => x) example_self example_grid 0 1 1 3
           example_pairs); try reflexivity; try lra; try lia.
  - intros a b Hab. exact Hab.
  - unfold example_pairs. repeat constructor; simpl; lra.
Defined.

(** ** Where the tensors keep the broadened sequences *)

Lemma nth_assign (buf v : list R) (s p : nat) (d : R) :
  (s + length v <= length buf)%nat ->
  nth p (firstn s buf ++ v ++ skipn (s + length v) buf) d
  = if (s <=? p)%nat && (p <? s + length v)%nat then nth (p - s) v d
    else nth p buf d.
Proof.
  intros Hlen.
  assert (Hfirst : length (firstn s buf) = s) by (rewrite length_firstn; lia).
  destruct (Nat.leb_spec s p) as [Hsp|Hsp]; cbn [andb].
  - rewrite app_nth2 by lia. rewrite Hfirst.
    destruct (Nat.ltb_spec p (s + length v)) as [Hpv|Hpv].
    + rewrite app_nth1 by lia. reflexivity.
    + rewrite app_nth2 by lia. rewrite nth_skipn. f_equal. lia.
  - rewrite app_nth1 by lia. rewrite nth_firstn.
    destruct (Nat.ltb_spec p s); [reflexivity|lia].
Qed.

Lemma nth_columns m n row i d :
  (i < n)%nat -> nth i (columns m n row) d = nth (m * n + i) row d.
Proof.
  intros Hi. unfold columns. rewrite nth_firstn.
  destruct (Nat.ltb_spec i n); [|lia]. apply nth_skipn.
Qed.

Lemma length_columns m n row :
  (m * n + n <= length row)%nat -> length (columns m n row) = n.
Proof. intros H. unfold columns. rewrite length_firstn, length_skipn. lia. Qed.

Lemma columns_assign_same b n buf v :
  length v = n -> (b * n + n <= length buf)%nat ->
  columns b n (firstn (b * n) buf ++ v ++ skipn (b * n + n) buf) = v.
Proof.
  intros Hv Hb. subst n. apply (nth_ext _ _ 0%R 0%R).
  - rewrite length_columns; [reflexivity|].
    rewrite !length_app, length_firstn, length_skipn. lia.
  - intros i Hi. rewrite length_columns in Hi
      by (rewrite !length_app, length_firstn, length_skipn; lia).
    rewrite nth_columns by exact Hi.
    rewrite nth_assign by lia.
    destruct (Nat.leb_spec (b * length v) (b * length v + i)); [|lia].
    destruct (Nat.ltb_spec (b * length v + i) (b * length v + length v)); [|lia].
    cbn [andb]. f_equal. lia.
Qed.

Lemma columns_assign_other b m n buf v :
  length v = n -> (b * n + n <= length buf)%nat -> m <> b ->
  columns m n (firstn (b * n) buf ++ v ++ skipn (b * n + n) buf)
  = columns m n buf.
Proof.
  intros Hv Hb Hm. subst n.
  assert (Hlen : length (firstn (b * length v) buf ++ v
                         ++ skipn (b * length v + length v) buf)
                 = length buf).
  { rewrite !length_app, length_firstn, length_skipn. lia. }
  apply (nth_ext _ _ 0%R 0%R).
  - unfold columns. rewrite !length_firstn, !length_skipn, Hlen. reflexivity.
  - intros i Hi.
    assert (Hin : (i < length v)%nat).
    { unfold columns in Hi. rewrite length_firstn in Hi. lia. }
    rewrite !nth_columns by exact Hin.
    rewrite nth_assign by lia.
    destruct (Nat.leb_spec (b * length v) (m * length v + i)) as [H1|H1];
      cbn [andb]; [|reflexivity].
    destruct (Nat.ltb_spec (m * length v + i) (b * length v + length v))
      as [H2|H2]; [|reflexivity].
    exfalso. apply Hm. nia.
Qed.

(** A loop that writes the block [blk x] of a row of [slots] blocks for each
    item [x], no block twice: each written block holds its item's values,
    the other blocks are as before. *)
Lemma rfold_blocks {X} (n slots : nat) (blk : X -> nat) (val : X -> list R)
    (body : list R -> X -> res (list R)) (items : list X) :
  (forall buf x, In x items -> length buf = (slots * n)%nat ->
     body buf x = assign_block buf (blk x * n) n (val x)) ->
  (forall x, In x items -> (blk x < slots)%nat /\ length (val x) = n) ->
  List.NoDup (map blk items) ->
  forall buf0, length buf0 = (slots * n)%nat ->
  exists buf,
    rfold body items buf0 = ok buf /\
    length buf = (slots * n)%nat /\
    (forall x, In x items -> columns (blk x) n buf = val x) /\
    (forall m, ~ In m (map blk items) -> columns m n buf = columns m n buf0).
Proof.
  induction items as [|a items IH]; intros Hbody Hval Hnd buf0 Hlen0.
  - exists buf0. split; [reflexivity|]. split; [exact Hlen0|].
    split; [intros x []|reflexivity].
  - destruct (Hval a (or_introl eq_refl)) as [Ha Hva].
    assert (Hfit : (blk a * n + n <= length buf0)%nat) by (rewrite Hlen0; nia).
    cbn [rfold]. rewrite (Hbody buf0 a (or_introl eq_refl) Hlen0).
    rewrite (assign_block_ok _ _ _ _ Hva Hfit). cbn [rbind ok].
    set (buf1 := firstn (blk a * n) buf0 ++ val a ++ skipn (blk a * n + n) buf0).
    assert (Hlen1 : length buf1 = (slots * n)%nat).
    { unfold buf1. rewrite !length_app, length_firstn, length_skipn. lia. }
    cbn [map] in Hnd. apply List.NoDup_cons_iff in Hnd as [Hnotin Hnd].
    destruct (IH (fun buf x Hx => Hbody buf x (or_intror Hx))
                 (fun x Hx => Hval x (or_intror Hx)) Hnd buf1 Hlen1)
      as (buf & Hrun & Hlen & Hwritten & Hother).
    exists buf. split; [exact Hrun|]. split; [exact Hlen|]. split.
    + intros x [<-|Hx]; [|apply Hwritten, Hx].
      rewrite (Hother _ Hnotin). unfold buf1.
      apply columns_assign_same; assumption.
    + intros m Hm. cbn [map] in Hm.
      rewrite (Hother m) by (intros H; apply Hm; right; exact H).
      unfold buf1. apply columns_assign_other; try assumption.
      intros ->. apply Hm. left. reflexivity.
Qed.

Lemma columns_zeros m n total :
  (m * n + n <= total)%nat -> columns m n (repeat 0%R total) = repeat 0%R n.
Proof.
  intros H. apply (nth_ext _ _ 0%R 0%R).
  - rewrite length_columns by (rewrite repeat_length; exact H).
    rewrite repeat_length. reflexivity.
  - intros i Hi. rewrite length_columns in Hi by (rewrite repeat_length; exact H).
    rewrite nth_columns by exact Hi. rewrite !nth_repeat. reflexivity.
Qed.

Lemma map_fst_enumerate {A} (l : list A) :
  map fst (enumerate l) = seq 0 (length l).
Proof.
  unfold enumerate. generalize 0%nat.
  induction l as [|a l IH]; intros s; [reflexivity|].
  cbn [length seq combine map fst]. f_equal. apply IH.
Qed.

Lemma map_snd_enumerate {A} (l : list A) : map snd (enumerate l) = l.
Proof.
  unfold enumerate. generalize 0%nat.
  induction l as [|a l IH]; intros s; [reflexivity|].
  cbn [length seq combine map snd]. f_equal. apply IH.
Qed.

Lemma enumerate_In {A} (l : list A) x :
  In x l -> exists m, In (m, x) (enumerate l).
Proof.
  intros Hx. rewrite <- (map_snd_enumerate l) in Hx.
  apply in_map_iff in Hx as ([m y] & Hy & Hin). cbn [snd] in Hy. subst y.
  exists m. exact Hin.
Qed.

Lemma enumerate_nth {A} (l : list A) m x :
  In (m, x) (enumerate l) <-> nth_error l m = Some x.
Proof.
  unfold enumerate.
  assert (H : forall s, In (m, x) (combine (seq s (length l)) l)
                        <-> (s <= m)%nat /\ nth_error l (m - s) = Some x).
  { induction l as [|a l IH]; intros s; cbn [length seq combine].
    - split; [intros []|]. intros [_ H]. destruct (m - s)%nat; discriminate.
    - cbn [In]. rewrite IH. split.
      + intros [[= <- <-]|[Hle Hn]].
        * split; [lia|]. rewrite Nat.sub_diag. reflexivity.
        * split; [lia|]. replace (m - s)%nat with (S (m - S s)) by lia. exact Hn.
      + intros [Hle Hn]. destruct (Nat.eq_dec s m) as [->|Hne].
        * left. rewrite Nat.sub_diag in Hn. cbn in Hn. congruence.
        * right. split; [lia|].
          replace (m - s)%nat with (S (m - S s)) in Hn by lia. exact Hn. }
  rewrite H, Nat.sub_0_r. split; [intros [_ Hn]; exact Hn|].
  intros Hn. split; [lia|exact Hn].
Qed.

Lemma NoDup_sorted_keys1 {V} (m : gmap nat V) : List.NoDup (sorted_keys1 m).
Proof.
  apply NoDup_ListNoDup. unfold sorted_keys1.
  rewrite merge_sort_Permutation. apply NoDup_fst_map_to_list.
Qed.
Lemma NoDup_sorted_keys2 {V} (m : gmap (nat * nat) V) : List.NoDup (sorted_keys2 m).
Proof.
  apply NoDup_ListNoDup. unfold sorted_keys2.
  rewrite merge_sort_Permutation. apply NoDup_fst_map_to_list.
Qed.
Lemma NoDup_sorted_keys3 {V} (m : gmap (nat * nat * nat) V) :
  List.NoDup (sorted_keys3 m).
Proof.
  apply NoDup_ListNoDup. unfold sorted_keys3.
  rewrite merge_sort_Permutation. apply NoDup_fst_map_to_list.
Qed.

Lemma lex2_total (a b : nat * nat) : lex2 a b \/ lex2 b a.
Proof. unfold lex2. destruct a as [a1 a2], b as [b1 b2]. cbn [fst snd]. lia. Qed.

Lemma lex3_total (a b : nat * nat * nat) : lex3 a b \/ lex3 b a.
Proof.
  unfold lex3. destruct a as [p a3], b as [q b3]. cbn [fst snd].
  destruct (decide (p = q)) as [->|Hne].
  - destruct (Nat.le_gt_cases a3 b3).
    + left. right. split; [reflexivity|assumption].
    + right. right. split; [reflexivity|lia].
  - destruct (lex2_total p q).
    + left. left. split; assumption.
    + right. left. split; [congruence|assumption].
Qed.

Lemma Sorted_sorted_keys2 {V} (m : gmap (nat * nat) V) :
  Sorted lex2 (sorted_keys2 m).
Proof.
  unfold sorted_keys2.
  apply (@Sorted_merge_sort _ lex2 _ (fun a b => lex2_total a b)).
Qed.

Lemma Sorted_sorted_keys3 {V} (m : gmap (nat * nat * nat) V) :
  Sorted lex3 (sorted_keys3 m).
Proof.
  unfold sorted_keys3.
  apply (@Sorted_merge_sort _ lex3 _ (fun a b => lex3_total a b)).
Qed.

Section Tensor_layout.
Variable erf : R -> R.

(** X8. In the first-order tensor the broadened sequence of an
    element is at the element's own index, flattened or not: columns
    [[i*n, (i+1)*n)] of the row-major data hold the sequence of the element
    of index [i], and are zero for an element without atoms. *)
Theorem K1_block_is_element_index settings min_k max_k sigma n self g w :
  g_min settings = Some min_k -> g_max settings = Some max_k ->
  g_sigma settings = Some sigma -> g_n settings = Some n ->
  n <> 1%nat -> (normalize_gaussians (cfg self) = true \/ sigma <> 0%R) ->
  k1_geoms (call self) = Some g -> k1_weights (call self) = Some w ->
  covers g w ->
  (forall i, is_Some (g !! i) -> (i < n_elements (derived self))%nat) ->
  exists row,
    snd (K1 erf settings self)
    = ok (mkArray (if flatten (cfg self)
                   then [1%nat; (n_elements (derived self) * n)%nat]
                   else [n_elements (derived self); n])
                  row) /\
    length row = (n_elements (derived self) * n)%nat /\
    (forall i geoms weights,
       g !! i = Some geoms -> w !! i = Some weights ->
       gaussian_sum erf self geoms weights settings = ok (columns i n row)) /\
    (forall i, (i < n_elements (derived self))%nat -> g !! i = None ->
       columns i n row = repeat 0%R n).
Proof.
  intros Hmin Hmax Hsigma Hn Hn1 Hs0 Hg Hw Hcov Hkeys.
  unfold K1. unfold mbind', mlift, mmodify, mget, mret, mraise.
  rewrite Hmin, Hmax, Hn. cbn [getitem ok]. cbv beta iota.
  cbn [call cfg derived set_call set_axis_k1 k1_geoms k1_weights].
  rewrite Hg, Hw. cbv beta iota.
  set (N := n_elements (derived self)) in *.
  set (self' := set_call (set_axis_k1 (linspace min_k max_k n) (call self)) self).
  set (val := fun mk : nat * nat =>
         match g !! snd mk, w !! snd mk with
         | Some geoms, Some weights =>
             broadened (gaussian_sum erf self geoms weights settings)
         | _, _ => []
         end).
  assert (Hval : forall i geoms weights,
            g !! i = Some geoms -> w !! i = Some weights ->
            gaussian_sum erf self' geoms weights settings
            = ok (broadened (gaussian_sum erf self geoms weights settings)) /\
            length (broadened (gaussian_sum erf self geoms weights settings)) = n).
  { intros i geoms weights Hgeoms0 Hweights0.
    destruct (Hcov _ _ Hgeoms0) as (ws0 & Hws0 & Hbc).
    assert (ws0 = weights) as -> by congruence.
    rewrite (gaussian_sum_reads_cfg erf self' self) by reflexivity.
    destruct (gaussian_sum_length erf self geoms weights settings _ _ _ _
                Hmin Hmax Hsigma Hn Hn1 Hs0 Hbc) as (pdf & -> & Hpdf).
    split; [reflexivity|exact Hpdf]. }
  unfold ok. cbv beta iota.
  match goal with
  | |- exists row, snd (match rfold ?body ?l ?b0 with _ => _ end) = _ /\ _ =>
      destruct (rfold_blocks n N snd val body l) with (buf0 := b0)
        as (buf & Hrun & Hlen & Hwritten & Hother)
  end.
  - intros buf [m i] Hin Hbuf. cbn [fst snd].
    apply in_enumerate in Hin as [_ Hkey]. apply sorted_keys1_spec in Hkey.
    destruct Hkey as [geoms Hgeoms].
    destruct (Hcov _ _ Hgeoms) as (weights & Hweights & _).
    pose proof (Hkeys i (ex_intro _ _ Hgeoms)) as Hi.
    unfold cached_lookup. rewrite Hgeoms, Hweights. cbn [rbind ok].
    destruct (Hval i geoms weights Hgeoms Hweights) as [-> _]. cbn [rbind ok].
    unfold val. cbn [snd]. rewrite Hgeoms, Hweights.
    destruct (Nat.ltb_spec i N); [|lia].
    destruct (flatten (cfg self)); reflexivity.
  - intros [m i] Hin. cbn [snd].
    apply in_enumerate in Hin as [_ Hkey]. apply sorted_keys1_spec in Hkey.
    destruct Hkey as [geoms Hgeoms].
    destruct (Hcov _ _ Hgeoms) as (weights & Hweights & _).
    split; [apply Hkeys; eauto|].
    unfold val. cbn [snd]. rewrite Hgeoms, Hweights.
    apply (Hval i geoms weights Hgeoms Hweights).
  - rewrite map_snd_enumerate. apply NoDup_sorted_keys1.
  - apply repeat_length.
  - exists buf. unfold ok in Hrun. rewrite Hrun. cbn [snd].
    split; [reflexivity|]. split; [exact Hlen|]. split.
    + intros i geoms weights Hgeoms Hweights.
      assert (Hkey : In i (sorted_keys1 g)) by (apply sorted_keys1_spec; eauto).
      apply enumerate_In in Hkey as [m Hm].
      pose proof (Hwritten (m, i) Hm) as Hcol. cbn [snd] in Hcol.
      rewrite Hcol. unfold val. cbn [snd].
      rewrite Hgeoms, Hweights.
      destruct (Hval i geoms weights Hgeoms Hweights) as [Hrun' _].
      rewrite (gaussian_sum_reads_cfg erf self' self) in Hrun' by reflexivity.
      exact Hrun'.
    + intros i Hi Hnone. rewrite (Hother i).
      * apply columns_zeros. nia.
      * rewrite map_snd_enumerate. intros Hkey.
        apply sorted_keys1_spec in Hkey as [x Hx]. congruence.
Qed.

(** X9. Without flattening, the second-order tensor keeps the
    broadened sequence of the pair [(i, j)] at the pair's own place: entry
    [[i, j, :]], columns [[(i*n_elements + j)*n, ...+n)] of the row-major
    data, and zero for a pair that the structure does not have. *)
Theorem K2_dense_block_is_pair settings min_k max_k sigma n self g w :
  g_min settings = Some min_k -> g_max settings = Some max_k ->
  g_sigma settings = Some sigma -> g_n settings = Some n ->
  n <> 1%nat -> (normalize_gaussians (cfg self) = true \/ sigma <> 0%R) ->
  k2_geoms (call self) = Some g -> k2_weights (call self) = Some w ->
  covers g w ->
  flatten (cfg self) = false ->
  (forall i j, is_Some (g !! (i, j)) ->
     (i < n_elements (derived self))%nat /\ (j < n_elements (derived self))%nat) ->
  exists values,
    snd (K2 erf settings self)
    = ok (mkArray [n_elements (derived self); n_elements (derived self); n]
                  values) /\
    length values
    = (n_elements (derived self) * n_elements (derived self) * n)%nat /\
    (forall i j geoms weights,
       g !! (i, j) = Some geoms -> w !! (i, j) = Some weights ->
       gaussian_sum erf self geoms weights settings
       = ok (columns (i * n_elements (derived self) + j) n values)) /\
    (forall i j,
       (i < n_elements (derived self))%nat ->
       (j < n_elements (derived self))%nat -> g !! (i, j) = None ->
       columns (i * n_elements (derived self) + j) n values = repeat 0%R n).
Proof.
  intros Hmin Hmax Hsigma Hn Hn1 Hs0 Hg Hw Hcov Hflat Hkeys.
  unfold K2. unfold mbind', mlift, mmodify, mget, mret, mraise.
  rewrite Hmin, Hmax, Hn. cbn [getitem ok]. cbv beta iota.
  cbn [call cfg derived set_call set_axis_k2 k2_geoms k2_weights].
  rewrite Hg, Hw, Hflat. cbv beta iota.
  set (N := n_elements (derived self)) in *.
  set (self' := set_call (set_axis_k2 (linspace min_k max_k n) (call self)) self).
  set (val := fun mk : nat * (nat * nat) =>
         match g !! snd mk, w !! snd mk with
         | Some geoms, Some weights =>
             broadened (gaussian_sum erf self geoms weights settings)
         | _, _ => []
         end).
  set (blk := fun mk : nat * (nat * nat) => (fst (snd mk) * N + snd (snd mk))%nat).
  assert (Hval : forall geoms weights, broadcastable geoms weights ->
            gaussian_sum erf self' geoms weights settings
            = ok (broadened (gaussian_sum erf self geoms weights settings)) /\
            length (broadened (gaussian_sum erf self geoms weights settings)) = n).
  { intros geoms weights Hbc.
    rewrite (gaussian_sum_reads_cfg erf self' self) by reflexivity.
    destruct (gaussian_sum_length erf self geoms weights settings _ _ _ _
                Hmin Hmax Hsigma Hn Hn1 Hs0 Hbc) as (pdf & -> & Hpdf).
    split; [reflexivity|exact Hpdf]. }
  unfold ok. cbv beta iota.
  match goal with
  | |- exists row, snd (match rfold ?body ?l ?b0 with _ => _ end) = _ /\ _ =>
      destruct (rfold_blocks n (N * N) blk val body l) with (buf0 := b0)
        as (buf & Hrun & Hlen & Hwritten & Hother)
  end.
  - intros buf [m [i j]] Hin Hbuf. cbn [fst snd].
    apply in_enumerate in Hin as [_ Hkey]. apply sorted_keys2_spec in Hkey.
    destruct Hkey as [geoms Hgeoms].
    destruct (Hcov _ _ Hgeoms) as (weights & Hweights & Hbc).
    destruct (Hkeys i j (ex_intro _ _ Hgeoms)) as [Hi Hj].
    unfold cached_lookup. rewrite Hgeoms, Hweights. cbn [rbind ok].
    destruct (Hval geoms weights Hbc) as [-> _]. cbn [rbind ok].
    unfold val, blk. cbn [fst snd]. rewrite Hgeoms, Hweights.
    destruct (Nat.ltb_spec i N); [|lia]. destruct (Nat.ltb_spec j N); [|lia].
    reflexivity.
  - intros [m [i j]] Hin. unfold blk, val. cbn [fst snd].
    apply in_enumerate in Hin as [_ Hkey]. apply sorted_keys2_spec in Hkey.
    destruct Hkey as [geoms Hgeoms].
    destruct (Hcov _ _ Hgeoms) as (weights & Hweights & Hbc).
    destruct (Hkeys i j (ex_intro _ _ Hgeoms)) as [Hi Hj].
    split; [nia|]. rewrite Hgeoms, Hweights. apply Hval, Hbc.
  - replace (map blk (enumerate (sorted_keys2 g)))
      with (map (fun key : nat * nat => (fst key * N + snd key)%nat)
                (map snd (enumerate (sorted_keys2 g))))
      by (rewrite map_map; reflexivity).
    rewrite map_snd_enumerate.
    apply NoDup_ListNoDup. apply NoDup_fmap_2_strong.
    + intros [i j] [i' j'] Hin Hin' Heq. cbn [fst snd] in Heq.
      apply list_elem_of_In, sorted_keys2_spec, Hkeys in Hin.
      apply list_elem_of_In, sorted_keys2_spec, Hkeys in Hin'.
      assert (i = i') by nia. subst i'. f_equal. lia.
    + apply NoDup_ListNoDup, NoDup_sorted_keys2.
  - apply repeat_length.
  - exists buf. unfold ok in Hrun. rewrite Hrun. cbn [snd].
    split; [reflexivity|]. split; [exact Hlen|]. split.
    + intros i j geoms weights Hgeoms Hweights.
      assert (Hkey : In (i, j) (sorted_keys2 g)) by (apply sorted_keys2_spec; eauto).
      apply enumerate_In in Hkey as [m Hm].
      pose proof (Hwritten (m, (i, j)) Hm) as Hcol.
      unfold blk, val in Hcol. cbn [fst snd] in Hcol.
      rewrite Hgeoms, Hweights in Hcol. rewrite Hcol.
      destruct (Hcov _ _ Hgeoms) as (ws0 & Hws0 & Hbc).
      assert (ws0 = weights) as -> by congruence.
      destruct (Hval geoms weights Hbc) as [Hrun' _].
      rewrite (gaussian_sum_reads_cfg erf self' self) in Hrun' by reflexivity.
      exact Hrun'.
    + intros i j Hi Hj Hnone. rewrite (Hother (i * N + j)%nat).
      * apply columns_zeros. apply dense_offset2; assumption.
      * intros Hin. apply in_map_iff in Hin as ([m [i' j']] & Heq & Hin).
        unfold blk in Heq. cbn [fst snd] in Heq.
        apply in_enumerate in Hin as [_ Hkey].
        apply sorted_keys2_spec in Hkey.
        destruct (Hkeys i' j' Hkey) as [Hi' Hj'].
        assert (i' = i) by nia. subst i'. assert (j' = j) by lia. subst j'.
        destruct Hkey as [x Hx]. congruence.
Qed.

(** X10. Flattened, the second-order row keeps the broadened sequence
    of a pair at the pair's position among the pairs that the structure
    has, in ascending lexicographic order: columns [[m*n, (m+1)*n)] hold
    the sequence of the [m]-th present pair, and the blocks after the last
    present pair are zero. *)
Theorem K2_flat_block_is_position settings min_k max_k sigma n self g w :
  g_min settings = Some min_k -> g_max settings = Some max_k ->
  g_sigma settings = Some sigma -> g_n settings = Some n ->
  n <> 1%nat -> (normalize_gaussians (cfg self) = true \/ sigma <> 0%R) ->
  k2_geoms (call self) = Some g -> k2_weights (call self) = Some w ->
  covers g w ->
  flatten (cfg self) = true ->
  (size g <= slots2 (n_elements (derived self)))%nat ->
  exists row,
    snd (K2 erf settings self)
    = ok (mkArray [1%nat; (slots2 (n_elements (derived self)) * n)%nat] row) /\
    length row = (slots2 (n_elements (derived self)) * n)%nat /\
    Sorted lex2 (sorted_keys2 g) /\
    (forall key, In key (sorted_keys2 g) <-> is_Some (g !! key)) /\
    (forall m key geoms weights,
       nth_error (sorted_keys2 g) m = Some key ->
       g !! key = Some geoms -> w !! key = Some weights ->
       gaussian_sum erf self geoms weights settings = ok (columns m n row)) /\
    (forall m, (size g <= m < slots2 (n_elements (derived self)))%nat ->
       columns m n row = repeat 0%R n).
Proof.
  intros Hmin Hmax Hsigma Hn Hn1 Hs0 Hg Hw Hcov Hflat Hsize.
  unfold K2. unfold mbind', mlift, mmodify, mget, mret, mraise.
  rewrite Hmin, Hmax, Hn. cbn [getitem ok]. cbv beta iota.
  cbn [call cfg derived set_call set_axis_k2 k2_geoms k2_weights].
  rewrite Hg, Hw, Hflat. cbv beta iota. rewrite width2_value.
  set (N := n_elements (derived self)) in *.
  set (self' := set_call (set_axis_k2 (linspace min_k max_k n) (call self)) self).
  set (val := fun mk : nat * (nat * nat) =>
         match g !! snd mk, w !! snd mk with
         | Some geoms, Some weights =>
             broadened (gaussian_sum erf self geoms weights settings)
         | _, _ => []
         end).
  assert (Hval : forall geoms weights, broadcastable geoms weights ->
            gaussian_sum erf self' geoms weights settings
            = ok (broadened (gaussian_sum erf self geoms weights settings)) /\
            length (broadened (gaussian_sum erf self geoms weights settings)) = n).
  { intros geoms weights Hbc.
    rewrite (gaussian_sum_reads_cfg erf self' self) by reflexivity.
    destruct (gaussian_sum_length erf self geoms weights settings _ _ _ _
                Hmin Hmax Hsigma Hn Hn1 Hs0 Hbc) as (pdf & -> & Hpdf).
    split; [reflexivity|exact Hpdf]. }
  unfold ok. cbv beta iota.
  match goal with
  | |- exists row, snd (match rfold ?body ?l ?b0 with _ => _ end) = _ /\ _ =>
      destruct (rfold_blocks n (slots2 N) fst val body l) with (buf0 := b0)
        as (buf & Hrun & Hlen & Hwritten & Hother)
  end.
  - intros buf [m [i j]] Hin Hbuf. cbn [fst snd].
    apply in_enumerate in Hin as [_ Hkey]. apply sorted_keys2_spec in Hkey.
    destruct Hkey as [geoms Hgeoms].
    destruct (Hcov _ _ Hgeoms) as (weights & Hweights & Hbc).
    unfold cached_lookup. rewrite Hgeoms, Hweights. cbn [rbind ok].
    destruct (Hval geoms weights Hbc) as [-> _]. cbn [rbind ok].
    unfold val. cbn [fst snd]. rewrite Hgeoms, Hweights. reflexivity.
  - intros [m [i j]] Hin. unfold val. cbn [fst snd].
    apply in_enumerate in Hin as [Hm Hkey]. apply sorted_keys2_spec in Hkey.
    rewrite length_sorted_keys2 in Hm.
    destruct Hkey as [geoms Hgeoms].
    destruct (Hcov _ _ Hgeoms) as (weights & Hweights & Hbc).
    split; [lia|]. rewrite Hgeoms, Hweights. apply Hval, Hbc.
  - rewrite map_fst_enumerate. apply seq_NoDup.
  - apply repeat_length.
  - exists buf. unfold ok in Hrun. rewrite Hrun. cbn [snd].
    split; [reflexivity|]. split; [exact Hlen|].
    split; [apply Sorted_sorted_keys2|].
    split; [apply sorted_keys2_spec|]. split.
    + intros m key geoms weights Hnth Hgeoms Hweights.
      apply enumerate_nth in Hnth.
      pose proof (Hwritten (m, key) Hnth) as Hcol.
      unfold val in Hcol. cbn [fst snd] in Hcol.
      rewrite Hgeoms, Hweights in Hcol. rewrite Hcol.
      destruct (Hcov _ _ Hgeoms) as (ws0 & Hws0 & Hbc).
      assert (ws0 = weights) as -> by congruence.
      destruct (Hval geoms weights Hbc) as [Hrun' _].
      rewrite (gaussian_sum_reads_cfg erf self' self) in Hrun' by reflexivity.
      exact Hrun'.
    + intros m Hm. rewrite (Hother m).
      * apply columns_zeros. nia.
      * rewrite map_fst_enumerate, length_sorted_keys2. rewrite in_seq. lia.
Qed.

(** X11. Without flattening, the third-order tensor keeps the
    broadened sequence of the triple [(i, j, k)] at entry [[i, j, k, :]],
    columns [[((i*n_elements + j)*n_elements + k)*n, ...+n)] of the
    row-major data, and zero for a triple that the structure does not
    have. *)
Theorem K3_dense_block_is_triple settings min_k max_k sigma n self g w :
  g_min settings = Some min_k -> g_max settings = Some max_k ->
  g_sigma settings = Some sigma -> g_n settings = Some n ->
  n <> 1%nat -> (normalize_gaussians (cfg self) = true \/ sigma <> 0%R) ->
  k3_geoms (call self) = Some g -> k3_weights (call self) = Some w ->
  covers g w ->
  flatten (cfg self) = false ->
  (forall i j k, is_Some (g !! (i, j, k)) ->
     (i < n_elements (derived self))%nat /\ (j < n_elements (derived self))%nat /\
     (k < n_elements (derived self))%nat) ->
  exists values,
    snd (K3 erf settings self)
    = ok (mkArray [n_elements (derived self); n_elements (derived self);
                   n_elements (derived self); n]
                  values) /\
    length values
    = (n_elements (derived self) * n_elements (derived self)
       * n_elements (derived self) * n)%nat /\
    (forall i j k geoms weights,
       g !! (i, j, k) = Some geoms -> w !! (i, j, k) = Some weights ->
       gaussian_sum erf self geoms weights settings
       = ok (columns ((i * n_elements (derived self) + j)
                      * n_elements (derived self) + k) n values)) /\
    (forall i j k,
       (i < n_elements (derived self))%nat ->
       (j < n_elements (derived self))%nat ->
       (k < n_elements (derived self))%nat -> g !! (i, j, k) = None ->
       columns ((i * n_elements (derived self) + j)
                * n_elements (derived self) + k) n values = repeat 0%R n).
Proof.
  intros Hmin Hmax Hsigma Hn Hn1 Hs0 Hg Hw Hcov Hflat Hkeys.
  unfold K3. unfold mbind', mlift, mmodify, mget, mret, mraise.
  rewrite Hmin, Hmax, Hn. cbn [getitem ok]. cbv beta iota.
  cbn [call cfg derived set_call set_axis_k3 k3_geoms k3_weights].
  rewrite Hg, Hw, Hflat. cbv beta iota.
  set (N := n_elements (derived self)) in *.
  set (self' := set_call (set_axis_k3 (linspace min_k max_k n) (call self)) self).
  set (val := fun mk : nat * (nat * nat * nat) =>
         match g !! snd mk, w !! snd mk with
         | Some geoms, Some weights =>
             broadened (gaussian_sum erf self geoms weights settings)
         | _, _ => []
         end).
  set (blk := fun mk : nat * (nat * nat * nat) =>
         ((fst (fst (snd mk)) * N + snd (fst (snd mk))) * N + snd (snd mk))%nat).
  assert (Hval : forall geoms weights, broadcastable geoms weights ->
            gaussian_sum erf self' geoms weights settings
            = ok (broadened (gaussian_sum erf self geoms weights settings)) /\
            length (broadened (gaussian_sum erf self geoms weights settings)) = n).
  { intros geoms weights Hbc.
    rewrite (gaussian_sum_reads_cfg erf self' self) by reflexivity.
    destruct (gaussian_sum_length erf self geoms weights settings _ _ _ _
                Hmin Hmax Hsigma Hn Hn1 Hs0 Hbc) as (pdf & -> & Hpdf).
    split; [reflexivity|exact Hpdf]. }
  assert (Hinj : forall i j k i' j' k',
            (i < N)%nat -> (j < N)%nat -> (k < N)%nat ->
            (i' < N)%nat -> (j' < N)%nat -> (k' < N)%nat ->
            ((i * N + j) * N + k = (i' * N + j') * N + k')%nat ->
            i = i' /\ j = j' /\ k = k').
  { intros i j k i' j' k' Hi Hj Hk Hi' Hj' Hk' Heq.
    assert (Hij : (i * N + j = i' * N + j')%nat) by nia.
    assert (i = i') by nia. subst i'. split; [reflexivity|]. split; lia. }
  unfold ok. cbv beta iota.
  match goal with
  | |- exists row, snd (match rfold ?body ?l ?b0 with _ => _ end) = _ /\ _ =>
      destruct (rfold_blocks n (N * N * N) blk val body l) with (buf0 := b0)
        as (buf & Hrun & Hlen & Hwritten & Hother)
  end.
  - intros buf [m [[i j] k]] Hin Hbuf. cbn [fst snd].
    apply in_enumerate in Hin as [_ Hkey]. apply sorted_keys3_spec in Hkey.
    destruct Hkey as [geoms Hgeoms].
    destruct (Hcov _ _ Hgeoms) as (weights & Hweights & Hbc).
    destruct (Hkeys i j k (ex_intro _ _ Hgeoms)) as (Hi & Hj & Hk).
    unfold cached_lookup. rewrite Hgeoms, Hweights. cbn [rbind ok].
    destruct (Hval geoms weights Hbc) as [-> _]. cbn [rbind ok].
    unfold val, blk. cbn [fst snd]. rewrite Hgeoms, Hweights.
    destruct (Nat.ltb_spec i N); [|lia]. destruct (Nat.ltb_spec j N); [|lia].
    destruct (Nat.ltb_spec k N); [|lia].
    reflexivity.
  - intros [m [[i j] k]] Hin. unfold blk, val. cbn [fst snd].
    apply in_enumerate in Hin as [_ Hkey]. apply sorted_keys3_spec in Hkey.
    destruct Hkey as [geoms Hgeoms].
    destruct (Hcov _ _ Hgeoms) as (weights & Hweights & Hbc).
    destruct (Hkeys i j k (ex_intro _ _ Hgeoms)) as (Hi & Hj & Hk).
    split; [|rewrite Hgeoms, Hweights; apply Hval, Hbc].
    assert (H1 : (i * N + j + 1 <= N * N)%nat) by nia.
    assert (H2 : ((i * N + j) * N + N <= N * N * N)%nat) by nia.
    lia.
  - replace (map blk (enumerate (sorted_keys3 g)))
      with (map (fun key : nat * nat * nat =>
                   ((fst (fst key) * N + snd (fst key)) * N + snd key)%nat)
                (map snd (enumerate (sorted_keys3 g))))
      by (rewrite map_map; reflexivity).
    rewrite map_snd_enumerate.
    apply NoDup_ListNoDup. apply NoDup_fmap_2_strong.
    + intros [[i j] k] [[i' j'] k'] Hin Hin' Heq. cbn [fst snd] in Heq.
      apply list_elem_of_In, sorted_keys3_spec, Hkeys in Hin.
      apply list_elem_of_In, sorted_keys3_spec, Hkeys in Hin'.
      destruct Hin as (? & ? & ?), Hin' as (? & ? & ?).
      destruct (Hinj i j k i' j' k') as (-> & -> & ->); auto.
    + apply NoDup_ListNoDup, NoDup_sorted_keys3.
  - apply repeat_length.
  - exists buf. unfold ok in Hrun. rewrite Hrun. cbn [snd].
    split; [reflexivity|]. split; [exact Hlen|]. split.
    + intros i j k geoms weights Hgeoms Hweights.
      assert (Hkey : In (i, j, k) (sorted_keys3 g))
        by (apply sorted_keys3_spec; eauto).
      apply enumerate_In in Hkey as [m Hm].
      pose proof (Hwritten (m, (i, j, k)) Hm) as Hcol.
      unfold blk, val in Hcol. cbn [fst snd] in Hcol.
      rewrite Hgeoms, Hweights in Hcol. rewrite Hcol.
      destruct (Hcov _ _ Hgeoms) as (ws0 & Hws0 & Hbc).
      assert (ws0 = weights) as -> by congruence.
      destruct (Hval geoms weights Hbc) as [Hrun' _].
      rewrite (gaussian_sum_reads_cfg erf self' self) in Hrun' by reflexivity.
      exact Hrun'.
    + intros i j k Hi Hj Hk Hnone. rewrite (Hother ((i * N + j) * N + k)%nat).
      * apply columns_zeros. apply dense_offset3; assumption.
      * intros Hin. apply in_map_iff in Hin as ([m [[i' j'] k']] & Heq & Hin).
        unfold blk in Heq. cbn [fst snd] in Heq.
        apply in_enumerate in Hin as [_ Hkey].
        apply sorted_keys3_spec in Hkey.
        destruct (Hkeys i' j' k' Hkey) as (Hi' & Hj' & Hk').
        destruct (Hinj i' j' k' i j k) as (-> & -> & ->); auto.
        destruct Hkey as [x Hx]. congruence.
Qed.

(** X12. Flattened, the third-order row keeps the broadened sequence
    of a triple at the triple's position among the triples that the
    structure has, in ascending lexicographic order; the blocks after the
    last present triple are zero. *)
Theorem K3_flat_block_is_position settings min_k max_k sigma n self g w :
  g_min settings = Some min_k -> g_max settings = Some max_k ->
  g_sigma settings = Some sigma -> g_n settings = Some n ->
  n <> 1%nat -> (normalize_gaussians (cfg self) = true \/ sigma <> 0%R) ->
  k3_geoms (call self) = Some g -> k3_weights (call self) = Some w ->
  covers g w ->
  flatten (cfg self) = true ->
  (size g <= slots3 (n_elements (derived self)))%nat ->
  exists row,
    snd (K3 erf settings self)
    = ok (mkArray [1%nat; (slots3 (n_elements (derived self)) * n)%nat] row) /\
    length row = (slots3 (n_elements (derived self)) * n)%nat /\
    Sorted lex3 (sorted_keys3 g) /\
    (forall key, In key (sorted_keys3 g) <-> is_Some (g !! key)) /\
    (forall m key geoms weights,
       nth_error (sorted_keys3 g) m = Some key ->
       g !! key = Some geoms -> w !! key = Some weights ->
       gaussian_sum erf self geoms weights settings = ok (columns m n row)) /\
    (forall m, (size g <= m < slots3 (n_elements (derived self)))%nat ->
       columns m n row = repeat 0%R n).
Proof.
  intros Hmin Hmax Hsigma Hn Hn1 Hs0 Hg Hw Hcov Hflat Hsize.
  unfold K3. unfold mbind', mlift, mmodify, mget, mret, mraise.
  rewrite Hmin, Hmax, Hn. cbn [getitem ok]. cbv beta iota.
  cbn [call cfg derived set_call set_axis_k3 k3_geoms k3_weights].
  rewrite Hg, Hw, Hflat. cbv beta iota. rewrite width3_value.
  set (N := n_elements (derived self)) in *.
  set (self' := set_call (set_axis_k3 (linspace min_k max_k n) (call self)) self).
  set (val := fun mk : nat * (nat * nat * nat) =>
         match g !! snd mk, w !! snd mk with
         | Some geoms, Some weights =>
             broadened (gaussian_sum erf self geoms weights settings)
         | _, _ => []
         end).
  assert (Hval : forall geoms weights, broadcastable geoms weights ->
            gaussian_sum erf self' geoms weights settings
            = ok (broadened (gaussian_sum erf self geoms weights settings)) /\
            length (broadened (gaussian_sum erf self geoms weights settings)) = n).
  { intros geoms weights Hbc.
    rewrite (gaussian_sum_reads_cfg erf self' self) by reflexivity.
    destruct (gaussian_sum_length erf self geoms weights settings _ _ _ _
                Hmin Hmax Hsigma Hn Hn1 Hs0 Hbc) as (pdf & -> & Hpdf).
    split; [reflexivity|exact Hpdf]. }
  unfold ok. cbv beta iota.
  match goal with
  | |- exists row, snd (match rfold ?body ?l ?b0 with _ => _ end) = _ /\ _ =>
      destruct (rfold_blocks n (slots3 N) fst val body l) with (buf0 := b0)
        as (buf & Hrun & Hlen & Hwritten & Hother)
  end.
  - intros buf [m [[i j] k]] Hin Hbuf. cbn [fst snd].
    apply in_enumerate in Hin as [_ Hkey]. apply sorted_keys3_spec in Hkey.
    destruct Hkey as [geoms Hgeoms].
    destruct (Hcov _ _ Hgeoms) as (weights & Hweights & Hbc).
    unfold cached_lookup. rewrite Hgeoms, Hweights. cbn [rbind ok].
    destruct (Hval geoms weights Hbc) as [-> _]. cbn [rbind ok].
    unfold val. cbn [fst snd]. rewrite Hgeoms, Hweights. reflexivity.
  - intros [m [[i j] k]] Hin. unfold val. cbn [fst snd].
    apply in_enumerate in Hin as [Hm Hkey]. apply sorted_keys3_spec in Hkey.
    rewrite length_sorted_keys3 in Hm.
    destruct Hkey as [geoms Hgeoms].
    destruct (Hcov _ _ Hgeoms) as (weights & Hweights & Hbc).
    split; [lia|]. rewrite Hgeoms, Hweights. apply Hval, Hbc.
  - rewrite map_fst_enumerate. apply seq_NoDup.
  - apply repeat_length.
  - exists buf. unfold ok in Hrun. rewrite Hrun. cbn [snd].
    split; [reflexivity|]. split; [exact Hlen|].
    split; [apply Sorted_sorted_keys3|].
    split; [apply sorted_keys3_spec|]. split.
    + intros m key geoms weights Hnth Hgeoms Hweights.
      apply enumerate_nth in Hnth.
      pose proof (Hwritten (m, key) Hnth) as Hcol.
      unfold val in Hcol. cbn [fst snd] in Hcol.
      rewrite Hgeoms, Hweights in Hcol. rewrite Hcol.
      destruct (Hcov _ _ Hgeoms) as (ws0 & Hws0 & Hbc).
      assert (ws0 = weights) as -> by congruence.
      destruct (Hval geoms weights Hbc) as [Hrun' _].
      rewrite (gaussian_sum_reads_cfg erf self' self) in Hrun' by reflexivity.
      exact Hrun'.
    + intros m Hm. rewrite (Hother m).
      * apply columns_zeros. nia.
      * rewrite map_fst_enumerate, length_sorted_keys3. rewrite in_seq. lia.
Qed.
End Tensor_layout.

Lemma covers_singleton {K} `{Countable K} (key : K) (a b : list R) :
  broadcastable a b ->
  covers ({[ key := a ]} : gmap K (list R)) {[ key := b ]}.
Proof.
  intros Hb key' x Hx. apply lookup_singleton_Some in Hx as [<- <-].
  exists b. split; [|exact Hb]. apply lookup_singleton_Some. split; reflexivity.
Qed.

Lemma K1_block_is_element_index_witness :
  exists row,
    snd (K1 (fun x => x) two_point_grid
            (elements_self carbon_counts carbon_count_weights))
    = ok (mkArray [1%nat; 4%nat] row) /\
    length row = 4%nat /\
    (forall i geoms weights,
       carbon_counts !! i = Some geoms -> carbon_count_weights !! i = Some weights ->
       gaussian_sum (fun x => x)
                    (elements_self carbon_counts carbon_count_weights)
                    geoms weights two_point_grid
       = ok (columns i 2 row)) /\
    (forall i, (i < 2)%nat -> carbon_counts !! i = None ->
       columns i 2 row = repeat 0%R 2).
Proof.
  apply (K1_block_is_element_index (fun x => x) two_point_grid 0 1 (1 / 10) 2
           (elements_self carbon_counts carbon_count_weights)
           carbon_counts carbon_count_weights);
    try reflexivity.
  - lia.
  - left. reflexivity.
  - apply covers_singleton. left. reflexivity.
  - intros i [x Hx]. unfold carbon_counts in Hx.
    apply lookup_singleton_Some in Hx as [<- _]. simpl. lia.
Defined.

Lemma K2_dense_block_is_pair_witness :
  exists values,
    snd (K2 (fun x => x) two_point_grid
            (dense_pairs_self carbon_pairs carbon_pair_weights))
    = ok (mkArray [2%nat; 2%nat; 2%nat] values) /\
    length values = 8%nat /\
    (forall i j geoms weights,
       carbon_pairs !! (i, j) = Some geoms ->
       carbon_pair_weights !! (i, j) = Some weights ->
       gaussian_sum (fun x => x)
                    (dense_pairs_self carbon_pairs carbon_pair_weights)
                    geoms weights two_point_grid
       = ok (columns (i * 2 + j) 2 values)) /\
    (forall i j, (i < 2)%nat -> (j < 2)%nat -> carbon_pairs !! (i, j) = None ->
       columns (i * 2 + j) 2 values = repeat 0%R 2).
Proof.
  apply (K2_dense_block_is_pair (fun x => x) two_point_grid 0 1 (1 / 10) 2
           (dense_pairs_self carbon_pairs carbon_pair_weights)
           carbon_pairs carbon_pair_weights);
    try reflexivity.
  - lia.
  - left. reflexivity.
  - apply covers_singleton. left. reflexivity.
  - intros i j [x Hx]. unfold carbon_pairs in Hx.
    apply lookup_singleton_Some in Hx as [[= <- <-] _]. simpl. lia.
Defined.

Lemma K2_flat_block_is_position_witness :
  exists row,
    snd (K2 (fun x => x) two_point_grid
            (pairs_self carbon_pairs carbon_pair_weights))
    = ok (mkArray [1%nat; 6%nat] row) /\
    length row = 6%nat /\
    Sorted lex2 (sorted_keys2 carbon_pairs) /\
    (forall key, In key (sorted_keys2 carbon_pairs)
                 <-> is_Some (carbon_pairs !! key)) /\
    (forall m key geoms weights,
       nth_error (sorted_keys2 carbon_pairs) m = Some key ->
       carbon_pairs !! key = Some geoms ->
       carbon_pair_weights !! key = Some weights ->
       gaussian_sum (fun x => x) (pairs_self carbon_pairs carbon_pair_weights)
                    geoms weights two_point_grid
       = ok (columns m 2 row)) /\
    (forall m, (size carbon_pairs <= m < 3)%nat ->
       columns m 2 row = repeat 0%R 2).
Proof.
  apply (K2_flat_block_is_position (fun x => x) two_point_grid 0 1 (1 / 10) 2
           (pairs_self carbon_pairs carbon_pair_weights)
           carbon_pairs carbon_pair_weights);
    try reflexivity.
  - lia.
  - left. reflexivity.
  - apply covers_singleton. left. reflexivity.
  - unfold carbon_pairs. rewrite map_size_singleton.
    change (1 <= 3)%nat. lia.
Defined.

Lemma K3_dense_block_is_triple_witness :
  exists values,
    snd (K3 (fun x => x) two_point_grid
            (dense_triples_self carbon_triples carbon_triple_weights))
    = ok (mkArray [2%nat; 2%nat; 2%nat; 2%nat] values) /\
    length values = 16%nat /\
    (forall i j k geoms weights,
       carbon_triples !! (i, j, k) = Some geoms ->
       carbon_triple_weights !! (i, j, k) = Some weights ->
       gaussian_sum (fun x => x)
                    (dense_triples_self carbon_triples carbon_triple_weights)
                    geoms weights two_point_grid
       = ok (columns ((i * 2 + j) * 2 + k) 2 values)) /\
    (forall i j k, (i < 2)%nat -> (j < 2)%nat -> (k < 2)%nat ->
       carbon_triples !! (i, j, k) = None ->
       columns ((i * 2 + j) * 2 + k) 2 values = repeat 0%R 2).
Proof.
  apply (K3_dense_block_is_triple (fun x => x) two_point_grid 0 1 (1 / 10) 2
           (dense_triples_self carbon_triples carbon_triple_weights)
           carbon_triples carbon_triple_weights);
    try reflexivity.
  - lia.
  - left. reflexivity.
  - apply covers_singleton. left. reflexivity.
  - intros i j k [x Hx]. unfold carbon_triples in Hx.
    apply lookup_singleton_Some in Hx as [[= <- <- <-] _]. simpl. lia.
Defined.

Lemma K3_flat_block_is_position_witness :
  exists row,
    snd (K3 (fun x => x) two_point_grid
            (triples_self carbon_triples carbon_triple_weights))
    = ok (mkArray [1%nat; 12%nat] row) /\
    length row = 12%nat /\
    Sorted lex3 (sorted_keys3 carbon_triples) /\
    (forall key, In key (sorted_keys3 carbon_triples)
                 <-> is_Some (carbon_triples !! key)) /\
    (forall m key geoms weights,
       nth_error (sorted_keys3 carbon_triples) m = Some key ->
       carbon_triples !! key = Some geoms ->
       carbon_triple_weights !! key = Some weights ->
       gaussian_sum (fun x => x)
                    (triples_self carbon_triples carbon_triple_weights)
                    geoms weights two_point_grid
       = ok (columns m 2 row)) /\
    (forall m, (size carbon_triples <= m < 6)%nat ->
       columns m 2 row = repeat 0%R 2).
Proof.
  apply (K3_flat_block_is_position (fun x => x) two_point_grid 0 1 (1 / 10) 2
           (triples_self carbon_triples carbon_triple_weights)
           carbon_triples carbon_triple_weights);
    try reflexivity.
  - lia.
  - left. reflexivity.
  - apply covers_singleton. left. reflexivity.
  - unfold carbon_triples. rewrite map_size_singleton.
    change (1 <= 6)%nat. lia.
Defined.

(** ** The element indices that [update] assigns *)

Lemma index_map_fold_lookup (l : list Z) : forall (s : nat) (m0 : gmap Z nat) x i,
  fold_left (fun (m : gmap Z nat) (p : nat * Z) => <[snd p := fst p]> m)
            (combine (seq s (length l)) l) m0 !! x = Some i ->
  m0 !! x = Some i \/ ((s <= i)%nat /\ nth_error l (i - s) = Some x).
Proof.
  induction l as [|a l IH]; intros s m0 x i; simpl.
  - auto.
  - intros H. apply IH in H as [H|[Hle H]].
    + cbn [fst snd] in H.
      apply lookup_insert_Some in H as [[<- <-]|[_ H]]; [|left; exact H].
      right. split; [lia|]. rewrite Nat.sub_diag. reflexivity.
    + right. split; [lia|].
      replace (i - s)%nat with (S (i - S s)) by lia. exact H.
Qed.

Lemma index_map_lookup l x i :
  index_map l !! x = Some i -> nth_error l i = Some x.
Proof.
  unfold index_map, enumerate. intros H.
  apply index_map_fold_lookup in H as [H|[_ H]].
  - rewrite lookup_empty in H. discriminate.
  - rewrite Nat.sub_0_r in H. exact H.
Qed.

Lemma reverse_index_map_fold (l : list Z) : forall (s : nat) (m0 : gmap nat Z) i,
  fold_left (fun (m : gmap nat Z) (p : nat * Z) => <[fst p := snd p]> m)
            (combine (seq s (length l)) l) m0 !! i
  = if (s <=? i)%nat && (i <? s + length l)%nat then nth_error l (i - s)
    else m0 !! i.
Proof.
  induction l as [|a l IH]; intros s m0 i; cbn [length seq combine fold_left].
  - destruct (Nat.leb_spec s i) as [H1|H1]; cbn [andb]; [|reflexivity].
    destruct (Nat.ltb_spec i (s + 0)) as [H2|H2]; [lia|reflexivity].
  - rewrite IH. cbn [fst snd].
    destruct (Nat.leb_spec (S s) i) as [H1|H1]; cbn [andb].
    + destruct (Nat.leb_spec s i) as [H3|H3]; [|lia]. cbn [andb].
      destruct (Nat.ltb_spec i (S s + length l)) as [H2|H2];
        destruct (Nat.ltb_spec i (s + S (length l))) as [H4|H4]; try lia.
      * replace (i - s)%nat with (S (i - S s)) by lia. reflexivity.
      * apply lookup_insert_ne. lia.
    + destruct (Nat.leb_spec s i) as [H3|H3]; cbn [andb].
      * assert (i = s) as -> by lia.
        destruct (Nat.ltb_spec s (s + S (length l))) as [H4|H4]; [|lia].
        rewrite Nat.sub_diag. apply lookup_insert_eq.
      * apply lookup_insert_ne. lia.
Qed.

Lemma reverse_index_map_lookup l i :
  reverse_index_map l !! i = nth_error l i.
Proof.
  unfold reverse_index_map, enumerate. rewrite reverse_index_map_fold.
  rewrite lookup_empty, Nat.sub_0_r. cbn [Nat.leb andb Nat.add].
  destruct (Nat.ltb_spec i (length l)) as [H|H]; [reflexivity|].
  symmetry. apply nth_error_None. exact H.
Qed.

Lemma StronglySorted_sorted_Z l : StronglySorted Z.le (sorted_Z l).
Proof. unfold sorted_Z. apply (StronglySorted_merge_sort Z.le). Qed.

Lemma sorted_positions (l : list Z) i j x y :
  StronglySorted Z.le l ->
  nth_error l i = Some x -> nth_error l j = Some y ->
  (x < y)%Z -> (i < j)%nat.
Proof.
  intros Hs Hi Hj Hxy.
  destruct (Nat.lt_ge_cases i j) as [H|H]; [exact H|exfalso].
  assert (Hlen : (i < length l)%nat) by (apply nth_error_Some; congruence).
  destruct (Nat.eq_dec i j) as [->|Hne]; [assert (x = y) by congruence; lia|].
  pose proof (StronglySorted_nth Z.le l 0%Z Hs j i ltac:(lia) Hlen) as Hle.
  rewrite (nth_error_nth _ _ _ Hi), (nth_error_nth _ _ _ Hj) in Hle. lia.
Qed.

Section Element_indices.
Variable set_of : list Z -> list Z.

(** X13. On an object that [update] accepts, every declared atomic
    number has an index below [n_elements], [index_to_atomic_number] maps
    that index back to the number, nothing else has an index, and the
    indices are in the order of the atomic numbers. *)
Theorem element_indices_round_trip self self1 :
  update set_of self = (self1, inr tt) ->
  n_elements (derived self1) = length (atomic_numbers (cfg self)) /\
  (forall z, In z (atomic_numbers (cfg self)) ->
     exists i, atomic_number_to_index (derived self1) !! z = Some i /\
               (i < n_elements (derived self1))%nat /\
               index_to_atomic_number (derived self1) !! i = Some z) /\
  (forall z i, atomic_number_to_index (derived self1) !! z = Some i ->
     In z (atomic_numbers (cfg self))) /\
  (forall z1 z2 i1 i2,
     atomic_number_to_index (derived self1) !! z1 = Some i1 ->
     atomic_number_to_index (derived self1) !! z2 = Some i2 ->
     (z1 < z2)%Z -> (i1 < i2)%nat).
Proof.
  intros Hup. apply update_success in Hup
    as (l & mx & mn & _ & _ & _ & _ & _ & _ & _ & ->).
  cbn [derived n_elements atomic_number_to_index index_to_atomic_number].
  set (nums := sorted_Z (atomic_numbers (cfg self))).
  split; [|split; [|split]].
  - unfold nums, sorted_Z.
    apply Permutation_length, merge_sort_Permutation.
  - intros z Hz. apply sorted_Z_In in Hz. fold nums in Hz.
    destruct (index_map_Some nums z Hz) as [i Hi].
    exists i. split; [exact Hi|]. split; [eapply index_map_bound; exact Hi|].
    rewrite reverse_index_map_lookup. apply index_map_lookup. exact Hi.
  - intros z i Hi. apply sorted_Z_In. fold nums.
    apply index_map_lookup in Hi. eapply nth_error_In. exact Hi.
  - intros z1 z2 i1 i2 H1 H2 Hlt.
    apply index_map_lookup in H1. apply index_map_lookup in H2.
    eapply sorted_positions; [apply StronglySorted_sorted_Z|exact H1|exact H2|exact Hlt].
Qed.
End Element_indices.

Lemma element_indices_round_trip_witness :
  exists self1,
    update set_ascending example_self = (self1, inr tt) /\
    n_elements (derived self1) = length (atomic_numbers (cfg example_self)) /\
    (forall z, In z (atomic_numbers (cfg example_self)) ->
       exists i, atomic_number_to_index (derived self1) !! z = Some i /\
                 (i < n_elements (derived self1))%nat /\
                 index_to_atomic_number (derived self1) !! i = Some z) /\
    (forall z i, atomic_number_to_index (derived self1) !! z = Some i ->
       In z (atomic_numbers (cfg example_self))) /\
    (forall z1 z2 i1 i2,
       atomic_number_to_index (derived self1) !! z1 = Some i1 ->
       atomic_number_to_index (derived self1) !! z2 = Some i2 ->
       (z1 < z2)%Z -> (i1 < i2)%nat).
Proof.
  eexists. split; [vm_compute; reflexivity|].
  apply (element_indices_round_trip set_ascending example_self).
  vm_compute. reflexivity.
Defined.

Lemma sorted_Z_fixed l : sorted_Z (sorted_Z l) = sorted_Z l.
Proof.
  apply (StronglySorted_unique Z.le).
  - apply StronglySorted_sorted_Z.
  - apply StronglySorted_sorted_Z.
  - unfold sorted_Z at 1. apply merge_sort_Permutation.
Qed.

Lemma k_contains_same x l l' :
  (forall y, In y l <-> In y l') ->
  k_contains x (K_iterable l) = k_contains x (K_iterable l').
Proof.
  intros H.
  destruct (k_contains x (K_iterable l)) eqn:E1,
           (k_contains x (K_iterable l')) eqn:E2; try reflexivity.
  - apply (proj1 (k_contains_In x l)) in E1. apply (proj1 (H x)) in E1.
    apply (proj2 (k_contains_In x l')) in E1. rewrite E1 in E2. discriminate.
  - apply (proj1 (k_contains_In x l')) in E2. apply (proj2 (H x)) in E2.
    apply (proj2 (k_contains_In x l)) in E2. rewrite E2 in E1. discriminate.
Qed.

Section Update_again.
Variable set_of : list Z -> list Z.
Hypothesis set_of_elements : set_of_spec set_of.

(** X14. [update] run on the object that an accepted [update] left
    behind accepts again and changes nothing that is read afterwards: the
    same sorted atomic numbers, element count, index maps, least and
    greatest atomic number, and the same requested orders. *)
Theorem update_is_idempotent self self1 :
  update set_of self = (self1, inr tt) ->
  exists self2,
    update set_of self1 = (self2, inr tt) /\
    derived self2 = derived self1 /\
    atomic_numbers (cfg self2) = atomic_numbers (cfg self1) /\
    (forall order, k_contains order (k (cfg self2))
                   = k_contains order (k (cfg self1))) /\
    grid (cfg self2) = grid (cfg self1) /\
    weighting (cfg self2) = weighting (cfg self1) /\
    periodic (cfg self2) = periodic (cfg self1) /\
    flatten (cfg self2) = flatten (cfg self1) /\
    call self2 = call self1 /\ log self2 = log self1.
Proof.
  intros Hup.
  pose proof (update_again set_of self self1 self1 set_of_elements Hup eq_refl)
    as Hsnd.
  destruct (update set_of self1) as [self2 r] eqn:Hup2. cbn [snd] in Hsnd.
  subst r. exists self2. split; [reflexivity|].
  pose proof (update_frame set_of self1) as Hframe. cbv zeta in Hframe.
  rewrite Hup2 in Hframe. cbn [fst snd] in Hframe.
  destruct Hframe as (Hlog & Hcall & Hweighting & Hperiodic & Hgrid & Hflatten & _).
  apply update_success in Hup
    as (l & mx & mn & Hk & _ & _ & _ & _ & Hmx & Hmn & ->).
  apply update_success in Hup2
    as (l2 & mx2 & mn2 & Hk2 & _ & _ & _ & _ & Hmx2 & Hmn2 & ->).
  cbn [cfg k atomic_numbers set_k set_atomic_numbers derived] in *.
  injection Hk2 as <-.
  rewrite sorted_Z_fixed in *. unfold ok in *.
  assert (mx2 = mx) as -> by congruence.
  assert (mn2 = mn) as -> by congruence.
  split; [reflexivity|]. split; [reflexivity|]. split.
  { intros order. apply k_contains_same. intros y. apply set_of_elements. }
  auto 10.
Qed.
End Update_again.

Lemma update_is_idempotent_witness :
  exists self1 self2,
    update set_ascending example_self = (self1, inr tt) /\
    update set_ascending self1 = (self2, inr tt) /\
    derived self2 = derived self1 /\
    atomic_numbers (cfg self2) = atomic_numbers (cfg self1) /\
    (forall order, k_contains order (k (cfg self2))
                   = k_contains order (k (cfg self1))) /\
    grid (cfg self2) = grid (cfg self1) /\
    weighting (cfg self2) = weighting (cfg self1) /\
    periodic (cfg self2) = periodic (cfg self1) /\
    flatten (cfg self2) = flatten (cfg self1) /\
    call self2 = call self1 /\ log self2 = log self1.
Proof.
  eexists.
  destruct (update_is_idempotent set_ascending set_ascending_spec example_self _
              ltac:(vm_compute; reflexivity)) as (self2 & H).
  exists self2. split; [vm_compute; reflexivity|]. exact H.
Defined.

(** ** The configurations that [update] accepts *)






Section Accepted.
Variable set_of : list Z -> list Z.
Hypothesis set_of_elements : set_of_spec set_of.

End Accepted.


(** ** [create_with_grid] with a new grid, and before any [describe] *)

Section Regrid.
Variable erf : R -> R.

End Regrid.

Lemma carbon_pairs_ready : k2_ready regrid_self.
Proof.
  exists carbon_pairs, carbon_pair_weights.
  split; [reflexivity|]. split; [reflexivity|].
  split; [apply covers_singleton; left; reflexivity|]. split.
  - unfold carbon_pairs. rewrite map_size_singleton. change (1 <= 3)%nat. lia.
  - intros i j [x Hx]. unfold carbon_pairs in Hx.
    apply lookup_singleton_Some in Hx as [[= <- <-] _].
    change (1 < 2 /\ 1 < 2)%nat. lia.
Qed.


Section Before_describe.
Variable set_of : list Z -> list Z.
Variable erf : R -> R.




End Before_describe.


(** ** Normalising by the volume *)

Section By_volume.
Variable erf : R -> R.

Lemma K1_by_volume settings s :
  K1 erf settings (by_volume s)
  = (by_volume (fst (K1 erf settings s)), snd (K1 erf settings s)).
Proof.
  destruct s as [[k0 an g w p nbv ng fl] d cl lg].
  unfold K1, by_volume, mbind', mlift, mmodify, mget, mret, mraise.
  destruct (g_min settings); [|reflexivity].
  destruct (g_max settings); [|reflexivity].
  destruct (g_n settings); [|reflexivity].
  cbn [getitem ok]. cbv beta iota.
  cbn [call cfg derived set_call set_cfg set_axis_k1 k1_geoms k1_weights flatten].
  destruct (k1_geoms cl); [|reflexivity].
  unfold ok. cbv beta iota.
  match goal with
  | |- (match ?r1 with _ => _ end) = _ => set (run := r1)
  end.
  match goal with
  | |- _ = (_ (fst (match ?r2 with _ => _ end)), _) => change r2 with run
  end.
  destruct run; reflexivity.
Qed.

Lemma K2_by_volume settings s :
  K2 erf settings (by_volume s)
  = (by_volume (fst (K2 erf settings s)), snd (K2 erf settings s)).
Proof.
  destruct s as [[k0 an g w p nbv ng fl] d cl lg].
  unfold K2, by_volume, mbind', mlift, mmodify, mget, mret, mraise.
  destruct (g_min settings); [|reflexivity].
  destruct (g_max settings); [|reflexivity].
  destruct (g_n settings); [|reflexivity].
  cbn [getitem ok]. cbv beta iota.
  cbn [call cfg derived set_call set_cfg set_axis_k2 k2_geoms k2_weights flatten].
  destruct (k2_geoms cl); [|reflexivity].
  unfold ok. cbv beta iota.
  match goal with
  | |- (match ?r1 with _ => _ end) = _ => set (run := r1)
  end.
  match goal with
  | |- _ = (_ (fst (match ?r2 with _ => _ end)), _) => change r2 with run
  end.
  destruct run; reflexivity.
Qed.

Lemma K3_by_volume settings s :
  K3 erf settings (by_volume s)
  = (by_volume (fst (K3 erf settings s)), snd (K3 erf settings s)).
Proof.
  destruct s as [[k0 an g w p nbv ng fl] d cl lg].
  unfold K3, by_volume, mbind', mlift, mmodify, mget, mret, mraise.
  destruct (g_min settings); [|reflexivity].
  destruct (g_max settings); [|reflexivity].
  destruct (g_n settings); [|reflexivity].
  cbn [getitem ok]. cbv beta iota.
  cbn [call cfg derived set_call set_cfg set_axis_k3 k3_geoms k3_weights flatten].
  destruct (k3_geoms cl); [|reflexivity].
  unfold ok. cbv beta iota.
  match goal with
  | |- (match ?r1 with _ => _ end) = _ => set (run := r1)
  end.
  match goal with
  | |- _ = (_ (fst (match ?r2 with _ => _ end)), _) => change r2 with run
  end.
  destruct run; reflexivity.
Qed.

(** The [K] methods touch neither the structure nor the configuration. *)
Lemma K1_keeps settings s :
  system (call (fst (K1 erf settings s))) = system (call s) /\
  cfg (fst (K1 erf settings s)) = cfg s.
Proof.
  unfold K1, mbind', mlift, mmodify, mget, mret, mraise.
  destruct (g_min settings); [|split; reflexivity].
  destruct (g_max settings); [|split; reflexivity].
  destruct (g_n settings); [|split; reflexivity].
  cbn [getitem ok]. cbv beta iota.
  cbn [call cfg derived set_call set_axis_k1 k1_geoms k1_weights].
  destruct (k1_geoms (call s)); [|split; reflexivity].
  unfold ok. cbv beta iota.
  match goal with
  | |- context [match ?r1 with inl _ => _ | inr _ => _ end] => destruct r1
  end; split; reflexivity.
Qed.

Lemma K2_keeps settings s :
  system (call (fst (K2 erf settings s))) = system (call s) /\
  cfg (fst (K2 erf settings s)) = cfg s.
Proof.
  unfold K2, mbind', mlift, mmodify, mget, mret, mraise.
  destruct (g_min settings); [|split; reflexivity].
  destruct (g_max settings); [|split; reflexivity].
  destruct (g_n settings); [|split; reflexivity].
  cbn [getitem ok]. cbv beta iota.
  cbn [call cfg derived set_call set_axis_k2 k2_geoms k2_weights].
  destruct (k2_geoms (call s)); [|split; reflexivity].
  unfold ok. cbv beta iota.
  match goal with
  | |- context [match ?r1 with inl _ => _ | inr _ => _ end] => destruct r1
  end; split; reflexivity.
Qed.

Lemma K3_keeps settings s :
  system (call (fst (K3 erf settings s))) = system (call s) /\
  cfg (fst (K3 erf settings s)) = cfg s.
Proof.
  unfold K3, mbind', mlift, mmodify, mget, mret, mraise.
  destruct (g_min settings); [|split; reflexivity].
  destruct (g_max settings); [|split; reflexivity].
  destruct (g_n settings); [|split; reflexivity].
  cbn [getitem ok]. cbv beta iota.
  cbn [call cfg derived set_call set_axis_k3 k3_geoms k3_weights].
  destruct (k3_geoms (call s)); [|split; reflexivity].
  unfold ok. cbv beta iota.
  match goal with
  | |- context [match ?r1 with inl _ => _ | inr _ => _ end] => destruct r1
  end; split; reflexivity.
Qed.

(** One stage of [create_with_grid]: run [K] when the order is requested
    and append its tensor. *)
Lemma stage_by_volume (requested : bool) (K : M ndarray) (mbtr : list ndarray)
    s s1 m1 :
  (forall st, K (by_volume st) = (by_volume (fst (K st)), snd (K st))) ->
  (forall st, system (call (fst (K st))) = system (call st) /\
              cfg (fst (K st)) = cfg st) ->
  (if requested then let* part := K in mret (mbtr ++ [part]) else mret mbtr) s
    = (s1, inr m1) ->
  (if requested then let* part := K in mret (mbtr ++ [part]) else mret mbtr)
    (by_volume s) = (by_volume s1, inr m1) /\
  system (call s1) = system (call s) /\ cfg s1 = cfg s.
Proof.
  intros Hblind Hkeeps. destruct requested.
  - unfold mbind'. rewrite Hblind. pose proof (Hkeeps s) as [Hsys Hcfg].
    destruct (K s) as [s' [e|part]]; cbn [fst snd] in *; [discriminate|].
    unfold mret, ok. intros [= <- <-]. auto.
  - unfold mret, ok. intros [= <- <-]. auto.
Qed.

(** X18. Switching [normalize_by_volume] on changes the output of
    [create_with_grid] in one way only: every value is divided by the
    volume of the structure, for a structure whose volume is not zero. *)
Theorem by_volume_divides_output s sys s' out :
  normalize_by_volume (cfg s) = false ->
  system (call s) = Some sys ->
  volume sys <> 0%R ->
  create_with_grid erf None s = (s', inr out) ->
  create_with_grid erf None (by_volume s)
  = (by_volume s', inr (divide_output (volume sys) out)).
Proof.
  intros Hoff Hsys _. unfold create_with_grid.
  rewrite (mbind_ok _ _ s s tt eq_refl).
  rewrite (mbind_ok _ _ (by_volume s) (by_volume s) tt eq_refl). cbv zeta.
  rewrite (mbind_ok mget _ s s s eq_refl).
  rewrite (mbind_ok mget _ (by_volume s) (by_volume s) (by_volume s) eq_refl).
  change (k (cfg (by_volume s))) with (k (cfg s)).
  change (get_k1_settings (by_volume s)) with (get_k1_settings s).
  change (get_k2_settings (by_volume s)) with (get_k2_settings s).
  change (get_k3_settings (by_volume s)) with (get_k3_settings s).
  match goal with
  | |- mbind' ?m _ s = _ -> _ => destruct (m s) as [s1 [e|m1]] eqn:H1
  end.
  { rewrite (mbind_error _ _ _ _ _ H1). discriminate. }
  rewrite (mbind_ok _ _ _ _ _ H1).
  apply stage_by_volume in H1 as (H1 & Hsys1 & Hcfg1);
    [|apply K1_by_volume|apply K1_keeps].
  rewrite (mbind_ok _ _ _ _ _ H1).
  match goal with
  | |- mbind' ?m _ s1 = _ -> _ => destruct (m s1) as [s2 [e|m2]] eqn:H2
  end.
  { rewrite (mbind_error _ _ _ _ _ H2). discriminate. }
  rewrite (mbind_ok _ _ _ _ _ H2).
  apply stage_by_volume in H2 as (H2 & Hsys2 & Hcfg2);
    [|apply K2_by_volume|apply K2_keeps].
  rewrite (mbind_ok _ _ _ _ _ H2).
  match goal with
  | |- mbind' ?m _ s2 = _ -> _ => destruct (m s2) as [s3 [e|m3]] eqn:H3
  end.
  { rewrite (mbind_error _ _ _ _ _ H3). discriminate. }
  rewrite (mbind_ok _ _ _ _ _ H3).
  apply stage_by_volume in H3 as (H3 & Hsys3 & Hcfg3);
    [|apply K3_by_volume|apply K3_keeps].
  rewrite (mbind_ok _ _ _ _ _ H3).
  rewrite (mbind_ok mget _ s3 s3 s3 eq_refl).
  rewrite (mbind_ok mget _ (by_volume s3) (by_volume s3) (by_volume s3) eq_refl).
  assert (Hoff3 : normalize_by_volume (cfg s3) = false) by congruence.
  assert (Hsys' : system (call s3) = Some sys) by congruence.
  change (flatten (cfg (by_volume s3))) with (flatten (cfg s3)).
  change (normalize_by_volume (cfg (by_volume s3))) with true.
  rewrite Hoff3. unfold get_volume.
  change (system (call (by_volume s3))) with (system (call s3)). rewrite Hsys'.
  destruct (flatten (cfg s3)).
  - destruct (fold_left _ m3 (0%nat, [])) as [len datas].
    destruct datas as [|d ds]; [discriminate|].
    unfold mlift, mret, mbind', ok. intros [= <- <-]. reflexivity.
  - unfold mlift, mret, mbind', ok. intros [= <- <-]. reflexivity.
Qed.
End By_volume.

Lemma by_volume_divides_output_witness :
  exists s' out,
    create_with_grid (fun x => x) None volume_self = (s', inr out) /\
    create_with_grid (fun x => x) None (by_volume volume_self)
    = (by_volume s', inr (divide_output (volume example_system) out)).
Proof.
  destruct (create_with_grid_returns (fun x => x) volume_self)
    as (s' & out & Hrun & _).
  - intros H. vm_compute in H. discriminate.
  - intros _. split; [exact carbon_pairs_ready|]. split.
    + exists 0%R, 1%R, (1 / 10)%R, 2%nat. repeat split.
    + split; [discriminate|left; reflexivity].
  - intros H. vm_compute in H. discriminate.
  - intros H. discriminate.
  - right. reflexivity.
  - exists s', out. split; [exact Hrun|].
    apply (by_volume_divides_output (fun x => x) volume_self example_system s' out);
      [reflexivity|reflexivity| |exact Hrun].
    cbn [example_system volume]. lra.
Defined.

(** ** What the sorted matrices hold *)

Section Matrix_contents.
Variable argsort : list R -> list nat.
Hypothesis argsort_permutation :
  forall norms, Permutation (argsort norms) (seq 0 (length norms)).

Lemma sort_and_pad_too_many n_atoms_max q mat :
  (n_atoms_max < length q)%nat ->
  sort_and_pad argsort n_atoms_max q mat = raise ValueError_shape.
Proof.
  intros Hn. unfold sort_and_pad, pad_zeros.
  unfold take_cols at 1. unfold take_rows at 1. rewrite !length_map.
  rewrite length_rev, (length_argsort argsort argsort_permutation).
  unfold norms_axis1. rewrite length_map, length_fill_diagonal.
  destruct (Nat.leb_spec (length q) n_atoms_max) as [|_]; [lia|]. reflexivity.
Qed.

Lemma sorted_indices_permutation (q : list R) (mat : matrix) :
  let filled := fill_diagonal (length q) mat (map (fun z => (5 / 10 * pow_2_4 z)%R) q) in
  Permutation (rev (argsort (norms_axis1 filled))) (seq 0 (length q)).
Proof.
  cbv zeta. rewrite <- Permutation_rev.
  etransitivity; [apply argsort_permutation|].
  unfold norms_axis1. rewrite length_map, length_fill_diagonal. reflexivity.
Qed.

Lemma permutation_nth_bound (idx : list nat) n i :
  Permutation idx (seq 0 n) -> (i < n)%nat -> (nth i idx 0 < n)%nat.
Proof.
  intros Hp Hi.
  assert (Hin : In (nth i idx 0%nat) (seq 0 n)).
  { apply (Permutation_in _ Hp). apply nth_In.
    rewrite (Permutation_length Hp), length_seq. exact Hi. }
  apply in_seq in Hin. lia.
Qed.

Lemma permutation_nth_inj (idx : list nat) n i j :
  Permutation idx (seq 0 n) -> (i < n)%nat -> (j < n)%nat ->
  nth i idx 0%nat = nth j idx 0%nat -> i = j.
Proof.
  intros Hp Hi Hj Heq.
  assert (Hnd : List.NoDup idx).
  { apply (Permutation_NoDup (Permutation_sym Hp)). apply List.seq_NoDup. }
  pose proof (Permutation_length Hp) as Hlen. rewrite length_seq in Hlen.
  apply (proj1 (List.NoDup_nth idx 0%nat) Hnd); [lia|lia|exact Heq].
Qed.

Lemma entry_sorted_padded n_atoms_max q mat i j :
  (length q <= n_atoms_max)%nat -> (i < length q)%nat -> (j < length q)%nat ->
  let filled := fill_diagonal (length q) mat (map (fun z => (5 / 10 * pow_2_4 z)%R) q) in
  let idx := rev (argsort (norms_axis1 filled)) in
  entry (sorted_padded argsort n_atoms_max q mat) i j
  = if (i =? j)%nat then (5 / 10 * pow_2_4 (item q (nth i idx 0%nat)))%R
    else entry mat (nth i idx 0%nat) (nth j idx 0%nat).
Proof.
  intros Hn Hi Hj. cbv zeta.
  pose proof (sorted_indices_permutation q mat) as Hp. cbv zeta in Hp.
  unfold sorted_padded. rewrite entry_tabulate by lia.
  destruct (Nat.ltb_spec i (length q)) as [_|]; [|lia].
  destruct (Nat.ltb_spec j (length q)) as [_|]; [|lia]. cbn [andb].
  unfold fill_diagonal at 1.
  rewrite entry_tabulate by (eapply permutation_nth_bound; eassumption).
  destruct (Nat.eqb_spec i j) as [->|Hij].
  - rewrite Nat.eqb_refl. unfold item.
    apply (nth_map_default (fun z => (5 / 10 * pow_2_4 z)%R)).
    eapply permutation_nth_bound; eassumption.
  - destruct (Nat.eqb_spec (nth i (rev (argsort (norms_axis1
        (fill_diagonal (length q) mat (map (fun z => (5 / 10 * pow_2_4 z)%R) q))))) 0%nat)
        (nth j (rev (argsort (norms_axis1
        (fill_diagonal (length q) mat (map (fun z => (5 / 10 * pow_2_4 z)%R) q))))) 0%nat))
      as [Heq|_]; [|reflexivity].
    exfalso. apply Hij. eapply permutation_nth_inj; eassumption.
Qed.

Lemma entry_sorted_padded_outside n_atoms_max q mat i j :
  (length q <= i)%nat \/ (length q <= j)%nat ->
  entry (sorted_padded argsort n_atoms_max q mat) i j = 0%R.
Proof.
  intros Hout. unfold sorted_padded.
  destruct (Nat.lt_ge_cases i n_atoms_max) as [Hi|Hi];
    [|apply entry_tabulate_outside; left; exact Hi].
  destruct (Nat.lt_ge_cases j n_atoms_max) as [Hj|Hj];
    [|apply entry_tabulate_outside; right; exact Hj].
  rewrite entry_tabulate by assumption.
  destruct (Nat.ltb_spec i (length q)); destruct (Nat.ltb_spec j (length q));
    cbn [andb]; try reflexivity. lia.
Qed.

Lemma nth_concat_row_major cols (m : matrix) i j :
  forallb (fun r => (length r =? cols)%nat) m = true ->
  (i < length m)%nat -> (j < cols)%nat ->
  nth (i * cols + j) (concat m) 0%R = entry m i j.
Proof.
  revert i. induction m as [|row m IH]; intros i Hall Hi Hj.
  - simpl in Hi. lia.
  - cbn [forallb] in Hall. apply andb_true_iff in Hall as [Hrow Hall].
    apply Nat.eqb_eq in Hrow. cbn [concat]. destruct i as [|i].
    + cbn [Nat.mul Nat.add]. rewrite app_nth1 by lia. reflexivity.
    + rewrite app_nth2 by (rewrite Hrow; simpl; lia).
      replace (S i * cols + j - length row)%nat with (i * cols + j)%nat
        by (rewrite Hrow; simpl; lia).
      rewrite IH by (try assumption; simpl in Hi; lia). reflexivity.
Qed.

(** X19. For a positive [n_atoms_max], [describe] of both matrix
    descriptors on a structure with more than [n_atoms_max] atoms raises the
    ValueError of the padding assignment: nothing is truncated.  (With
    [n_atoms_max = 0] NumPy broadcasts the 1 x 1 matrix of a single atom into
    the empty target; that case is left out.) *)
Theorem too_many_atoms_rejected n_atoms_max flatten sys :
  (0 < n_atoms_max)%nat ->
  (n_atoms_max < length (charges sys))%nat ->
  (has_shape (length (charges sys)) (length (charges sys))
             (inverse_distance_matrix sys) = true ->
   coulomb_describe argsort n_atoms_max flatten sys = raise ValueError_shape) /\
  (has_shape (length (charges sys)) (length (charges sys))
             (displacement_tensor sys) = true ->
   sine_describe argsort n_atoms_max flatten sys = raise ValueError_shape).
Proof.
  intros _ Hn. split; intros Hshape.
  - unfold coulomb_describe, coulomb_matrix, mat_times, outer_charges.
    rewrite has_shape_tabulate, Hshape. cbn [andb rbind ok].
    rewrite sort_and_pad_too_many by exact Hn. reflexivity.
  - unfold sine_describe, sine_matrix, mat_times, outer_charges.
    rewrite has_shape_tabulate, (has_shape_map _ _ _ _ Hshape). cbn [andb rbind ok].
    rewrite sort_and_pad_too_many by exact Hn. reflexivity.
Qed.

(** X20. For a structure with at most [n_atoms_max] atoms the matrix
    that [SortedCoulombMatrix.describe] returns is the Coulomb matrix with
    its atoms relabelled by one permutation: row [i] stands for atom
    [idx[i]], the diagonal holds [0.5 * Z ** 2.4] of that atom, the entry
    off the diagonal is [Z_a * Z_b] times the inverse distance of the two
    atoms, and every entry outside the leading block of the atoms is
    zero. *)
Theorem sorted_matrix_entries n_atoms_max sys :
  let q := charges sys in
  let n := length q in
  (n <= n_atoms_max)%nat ->
  has_shape n n (inverse_distance_matrix sys) = true ->
  exists m idx,
    coulomb_describe argsort n_atoms_max false sys = ok (Matrix2D m) /\
    Permutation idx (seq 0 n) /\
    (forall i j, (i < n)%nat -> (j < n)%nat ->
       entry m i j
       = expected_entry q (inverse_distance_matrix sys) i j
                        (nth i idx 0%nat) (nth j idx 0%nat)) /\
    (forall i j, (n <= i)%nat \/ (n <= j)%nat -> entry m i j = 0%R).
Proof.
  cbv zeta. intros Hn Hshape.
  eexists. eexists. unfold coulomb_describe.
  rewrite (coulomb_matrix_closed_form argsort argsort_permutation _ _ Hn Hshape).
  cbn [rbind ok].
  split; [reflexivity|]. split; [apply sorted_indices_permutation|].
  split; [|intros i j Hout; apply entry_sorted_padded_outside; exact Hout].
  intros i j Hi Hj. rewrite entry_sorted_padded by assumption.
  unfold expected_entry. destruct (i =? j)%nat; [reflexivity|].
  rewrite entry_tabulate
    by (eapply permutation_nth_bound; [apply sorted_indices_permutation|assumption]).
  rewrite entry_outer_charges
    by (eapply permutation_nth_bound; [apply sorted_indices_permutation|assumption]).
  ring.
Qed.

(** X21. With [flatten] set, [describe] of both matrix descriptors
    returns the rows of the unflattened matrix one after the other: feature
    [i * n_atoms_max + j] is the entry in row [i] and column [j]. *)
Theorem flattened_matrix_is_row_major n_atoms_max sys :
  (length (charges sys) <= n_atoms_max)%nat ->
  (has_shape (length (charges sys)) (length (charges sys))
             (inverse_distance_matrix sys) = true ->
   exists m v,
     coulomb_describe argsort n_atoms_max false sys = ok (Matrix2D m) /\
     coulomb_describe argsort n_atoms_max true sys = ok (Matrix1D v) /\
     forall i j, (i < n_atoms_max)%nat -> (j < n_atoms_max)%nat ->
       nth (i * n_atoms_max + j) v 0%R = entry m i j) /\
  (has_shape (length (charges sys)) (length (charges sys))
             (displacement_tensor sys) = true ->
   exists m v,
     sine_describe argsort n_atoms_max false sys = ok (Matrix2D m) /\
     sine_describe argsort n_atoms_max true sys = ok (Matrix1D v) /\
     forall i j, (i < n_atoms_max)%nat -> (j < n_atoms_max)%nat ->
       nth (i * n_atoms_max + j) v 0%R = entry m i j).
Proof.
  intros Hn. split; intros Hshape.
  - eexists. eexists. unfold coulomb_describe.
    rewrite (coulomb_matrix_closed_form argsort argsort_permutation _ _ Hn Hshape).
    cbn [rbind ok]. split; [reflexivity|]. split; [reflexivity|].
    intros i j Hi Hj.
    match goal with
    | |- nth _ (concat ?m) _ = _ =>
        pose proof (sorted_padded_shape argsort n_atoms_max (charges sys)
                      (tabulate (length (charges sys)) (length (charges sys))
                         (fun i j => (entry (outer_charges (charges sys)) i j
                                      * entry (inverse_distance_matrix sys) i j)%R)))
          as Hsh
    end.
    unfold has_shape in Hsh. apply andb_true_iff in Hsh as [Hrows Hcols].
    apply Nat.eqb_eq in Hrows.
    apply nth_concat_row_major; [exact Hcols|rewrite Hrows; exact Hi|exact Hj].
  - eexists. eexists. unfold sine_describe.
    rewrite (sine_matrix_closed_form argsort argsort_permutation _ _ Hn Hshape).
    cbn [rbind ok]. split; [reflexivity|]. split; [reflexivity|].
    intros i j Hi Hj.
    match goal with
    | |- nth _ (concat (sorted_padded _ _ _ ?mat)) _ = _ =>
        pose proof (sorted_padded_shape argsort n_atoms_max (charges sys) mat) as Hsh
    end.
    unfold has_shape in Hsh. apply andb_true_iff in Hsh as [Hrows Hcols].
    apply Nat.eqb_eq in Hrows.
    apply nth_concat_row_major; [exact Hcols|rewrite Hrows; exact Hi|exact Hj].
Qed.

End Matrix_contents.

Lemma too_many_atoms_rejected_witness :
  coulomb_describe argsort_insertion 1 true hydroxyl_system = raise ValueError_shape /\
  sine_describe argsort_insertion 1 false hydroxyl_system = raise ValueError_shape.
Proof.
  destruct (too_many_atoms_rejected argsort_insertion argsort_insertion_permutation
              1 true hydroxyl_system) as [H1 _]; [lia|simpl; lia|].
  destruct (too_many_atoms_rejected argsort_insertion argsort_insertion_permutation
              1 false hydroxyl_system) as [_ H2]; [lia|simpl; lia|].
  split; [apply H1|apply H2]; reflexivity.
Defined.

Lemma sorted_matrix_entries_witness :
  exists m idx,
    coulomb_describe argsort_insertion 3 false hydroxyl_system = ok (Matrix2D m) /\
    Permutation idx (seq 0 2) /\
    (forall i j, (i < 2)%nat -> (j < 2)%nat ->
       entry m i j
       = expected_entry (charges hydroxyl_system)
                        (inverse_distance_matrix hydroxyl_system) i j
                        (nth i idx 0%nat) (nth j idx 0%nat)) /\
    (forall i j, (2 <= i)%nat \/ (2 <= j)%nat -> entry m i j = 0%R).
Proof.
  apply (sorted_matrix_entries argsort_insertion argsort_insertion_permutation
           3 hydroxyl_system).
  - simpl. lia.
  - reflexivity.
Defined.

Lemma flattened_matrix_is_row_major_witness :
  (exists m v,
     coulomb_describe argsort_insertion 3 false hydroxyl_system = ok (Matrix2D m) /\
     coulomb_describe argsort_insertion 3 true hydroxyl_system = ok (Matrix1D v) /\
     forall i j, (i < 3)%nat -> (j < 3)%nat ->
       nth (i * 3 + j) v 0%R = entry m i j) /\
  (exists m v,
     sine_describe argsort_insertion 3 false hydroxyl_system = ok (Matrix2D m) /\
     sine_describe argsort_insertion 3 true hydroxyl_system = ok (Matrix1D v) /\
     forall i j, (i < 3)%nat -> (j < 3)%nat ->
       nth (i * 3 + j) v 0%R = entry m i j).
Proof.
  destruct (flattened_matrix_is_row_major argsort_insertion
              argsort_insertion_permutation 3 hydroxyl_system) as [H1 H2].
  - simpl. lia.
  - split; [apply H1|apply H2]; reflexivity.
Defined.
